(** * Teleport: client key store, host-signer trust cache, service
    configuration and defaults.

    A shallow embedding of
      - lib/client keystore      (AddHostSignersToCache, CheckHostSignature,
                                  loadAllKeys, GetLocalAgentKeys, GetLocalAgent),
      - lib/defaults             (ports, durations, listen addresses),
      - lib/service/cfg.go       (Config, ApplyToken, ApplyDefaults, ...),
      - tool/teleport/configuration.go (applyFileConfig, isCmdLabelSpec,
                                  configure, parseLabels, ...),
      - lib/auth/init.go         (initKeys, writeKeys, ReadIdentity,
                                  HaveHostKeys),
    followed by the properties established about them.

    Conventions.  A Go [string] is a byte sequence: Rocq's [string], one
    [ascii] per byte.  A Go [error] value is [option error] ([None] is nil).
    A Go function with several results returns a tuple.  Code that reads or
    writes the file system, the clock or the log is a function of an explicit
    [World]. *)

From Stdlib Require Import ZArith Ascii String Bool Lia DecimalString.
From Stdlib.Strings Require Byte.
From stdpp Require Import base option list gmap strings sorting.

(** ** Go strings: bytes, runes, and the [strings] package *)

(** [len(s)] and the slice expressions [s[:n]], [s[n:]], [s[i]]. *)
Abbreviation len := String.length.

Fixpoint slice_to (s : string) (n : nat) : string :=
  match n, s with
  | S n', String c s' => String c (slice_to s' n')
  | _, _ => ""
  end.

Fixpoint slice_from (s : string) (n : nat) : string :=
  match n, s with
  | S n', String _ s' => slice_from s' n'
  | _, _ => s
  end.

Definition byte_at (s : string) (i : nat) : option ascii := String.get i s.

Definition byteZ (c : ascii) : Z := Z.of_N (N_of_ascii c).

(** A call that returns or panics. *)
Inductive outcome (A : Type) : Type :=
  | Returns (a : A)
  | Panics.
Arguments Returns {A} a.
Arguments Panics {A}.

Module utf8.

Definition RuneError : Z := 65533.
Definition RuneSelf : Z := 128.

(** A continuation byte, 0x80..0xBF. *)
Definition cont (c : ascii) : bool :=
  (128 <=? byteZ c)%Z && (byteZ c <=? 191)%Z.

Definition between (lo hi : Z) (c : ascii) : bool :=
  (lo <=? byteZ c)%Z && (byteZ c <=? hi)%Z.

Definition low6 (c : ascii) : Z := Z.land (byteZ c) 63.

(** [utf8.DecodeRuneInString]: the first rune of [s] and its width in
    bytes; an invalid or truncated encoding is [(RuneError, 1)], the empty
    string [(RuneError, 0)].  Overlong forms (0xC0, 0xC1, 0xE0 0x80..)
    surrogates (0xED 0xA0..) and values above U+10FFFF are invalid. *)
Definition DecodeRuneInString (s : string) : Z * nat :=
  match s with
  | "" => (RuneError, 0)
  | String b0 rest =>
      let x := byteZ b0 in
      if (x <? RuneSelf)%Z then (x, 1)
      else if (194 <=? x)%Z && (x <=? 223)%Z then
        match rest with
        | String b1 _ =>
            if cont b1
            then (Z.lor (Z.shiftl (Z.land x 31) 6) (low6 b1), 2)
            else (RuneError, 1)
        | _ => (RuneError, 1)
        end
      else if (224 <=? x)%Z && (x <=? 239)%Z then
        match rest with
        | String b1 (String b2 _) =>
            let lo := if (x =? 224)%Z then 160%Z else 128%Z in
            let hi := if (x =? 237)%Z then 159%Z else 191%Z in
            if between lo hi b1 && cont b2
            then (Z.lor (Z.shiftl (Z.land x 15) 12)
                    (Z.lor (Z.shiftl (low6 b1) 6) (low6 b2)), 3)
            else (RuneError, 1)
        | _ => (RuneError, 1)
        end
      else if (240 <=? x)%Z && (x <=? 244)%Z then
        match rest with
        | String b1 (String b2 (String b3 _)) =>
            let lo := if (x =? 240)%Z then 144%Z else 128%Z in
            let hi := if (x =? 244)%Z then 143%Z else 191%Z in
            if between lo hi b1 && cont b2 && cont b3
            then (Z.lor (Z.shiftl (Z.land x 7) 18)
                    (Z.lor (Z.shiftl (low6 b1) 12)
                       (Z.lor (Z.shiftl (low6 b2) 6) (low6 b3))), 4)
            else (RuneError, 1)
        | _ => (RuneError, 1)
        end
      else (RuneError, 1)
  end.

(** [for _, r := range s]: the runes of [s] in order, each with the bytes
    that encode it ([skip] counts the bytes of the current rune still to be
    passed over). *)
Fixpoint rangeFrom (skip : nat) (s : string) : list (Z * string) :=
  match s with
  | "" => []
  | String _ rest =>
      match skip with
      | S k => rangeFrom k rest
      | O =>
          let '(r, w) := DecodeRuneInString s in
          (r, slice_to s w) :: rangeFrom (w - 1) rest
      end
  end.

Definition range (s : string) : list (Z * string) := rangeFrom 0 s.

End utf8.

Module unicode.

(** [unicode.IsSpace]: the Latin-1 spaces and the White_Space property. *)
Definition IsSpace (r : Z) : bool :=
  if (r <=? 255)%Z then
    ((9 <=? r)%Z && (r <=? 13)%Z) || (r =? 32)%Z || (r =? 133)%Z || (r =? 160)%Z
  else
    (r =? 5760)%Z
    || ((8192 <=? r)%Z && (r <=? 8202)%Z)
    || (r =? 8232)%Z || (r =? 8233)%Z || (r =? 8239)%Z
    || (r =? 8287)%Z || (r =? 12288)%Z.

End unicode.

Module gostrings.

(** [strings.HasPrefix]. *)
Definition HasPrefix (s pre : string) : bool := String.prefix pre s.

(** [strings.HasSuffix]: [len(s) >= len(suffix) &&
    s[len(s)-len(suffix):] == suffix]. *)
Definition HasSuffix (s suffix : string) : bool :=
  (len suffix <=? len s)%nat
  && String.eqb (slice_from s (len s - len suffix)) suffix.

Fixpoint IndexByteFrom (i : Z) (s : string) (c : ascii) : Z :=
  match s with
  | "" => (-1)%Z
  | String b rest =>
      if Ascii.eqb b c then i else IndexByteFrom (i + 1)%Z rest c
  end.

(** [strings.IndexByte]: the index of the first [c] in [s], or -1. *)
Definition IndexByte (s : string) (c : ascii) : Z := IndexByteFrom 0 s c.

Fixpoint indexRuneIn (i : Z) (rs : list (Z * string)) (r : Z) : Z :=
  match rs with
  | [] => (-1)%Z
  | (c, bytes) :: rs' =>
      if (c =? r)%Z then i else indexRuneIn (i + Z.of_nat (len bytes))%Z rs' r
  end.

(** [strings.IndexRune]: a byte search below [utf8.RuneSelf], otherwise
    the offset of the first rune of [range s] equal to [r]. *)
Definition IndexRune (s : string) (r : Z) : Z :=
  if (r <? utf8.RuneSelf)%Z
  then IndexByte s (ascii_of_N (Z.to_N r))
  else indexRuneIn 0 (utf8.range s) r.

Fixpoint inCutset (c : ascii) (cutset : string) : bool :=
  match cutset with
  | "" => false
  | String d rest => Ascii.eqb c d || inCutset c rest
  end.

Fixpoint TrimLeft (s cutset : string) : string :=
  match s with
  | "" => ""
  | String c rest => if inCutset c cutset then TrimLeft rest cutset else s
  end.

(** The trailing bytes in [cutset] dropped: a byte is kept when something
    is kept after it or it is itself outside [cutset]. *)
Fixpoint TrimRight (s cutset : string) : string :=
  match s with
  | "" => ""
  | String c rest =>
      match TrimRight rest cutset with
      | "" => if inCutset c cutset then "" else String c ""
      | kept => String c kept
      end
  end.

(** [strings.Trim] for a cutset of ASCII bytes (the program's only cutset
    is ["[]"]): an ASCII byte stands for itself in UTF-8 and is never part
    of a longer encoding, so removing code points is removing bytes. *)
Definition Trim (s cutset : string) : string :=
  TrimRight (TrimLeft s cutset) cutset.

(** [strings.FieldsFunc] of the Go 1.5 library the repository is built
    with, for a predicate that keeps a state of its own ([f] is a closure
    over a variable of type [St]).  The library goes over the string twice
    and calls [f] for each rune both times: first it counts the fields,
    then it cuts them into an array of that length. *)

(** The first pass: [n] is the number of fields begun so far. *)
Fixpoint countFields {St : Type} (f : St -> Z -> bool * St) (st : St)
    (inField : bool) (n : nat) (rs : list (Z * string)) : nat * St :=
  match rs with
  | [] => (n, st)
  | (r, _) :: rs' =>
      let wasInField := inField in
      let '(sep, st') := f st r in
      let inField := negb sep in
      countFields f st' inField
        (if inField && negb wasInField then S n else n) rs'
  end.

(** [a[na] = field]; [None] is the index out of range. *)
Definition store (a : list string) (na : nat) (field : string)
    : option (list string) :=
  if (na <? length a)%nat then Some (<[na := field]> a) else None.

(** The second pass: [a] is the array, [na] the number of fields stored
    in it, and [field] the bytes from [fieldStart] on while
    [fieldStart >= 0]. *)
Fixpoint cutFields {St : Type} (f : St -> Z -> bool * St) (st : St)
    (a : list string) (na : nat) (field : option string)
    (rs : list (Z * string)) : outcome (list string) :=
  match rs with
  | [] =>
      (* Last field might end at EOF. *)
      match field with
      | Some w =>
          match store a na w with
          | Some a => Returns a
          | None => Panics
          end
      | None => Returns a
      end
  | (r, bytes) :: rs' =>
      let '(sep, st') := f st r in
      if sep then
        match field with
        | Some w =>
            match store a na w with
            | Some a => cutFields f st' a (S na) None rs'
            | None => Panics
            end
        | None => cutFields f st' a na None rs'
        end
      else
        cutFields f st' a na
          (Some (match field with Some w => w +:+ bytes | None => bytes end))
          rs'
  end.

Definition FieldsFunc {St : Type} (s : string) (f : St -> Z -> bool * St)
    (st : St) : outcome (list string) :=
  (* First count the fields. *)
  let '(n, st) := countFields f st false 0 (utf8.range s) in
  (* Now create them. *)
  cutFields f st (replicate n "") 0 None (utf8.range s).

(** [strings.Split(s, sep)] for a separator of one byte (the program
    splits at [","]): the pieces between the separators, one more than
    there are separators, so the empty string gives one empty piece. *)
Fixpoint Split (s : string) (sep : ascii) : list string :=
  match s with
  | "" => [""]
  | String b rest =>
      if Ascii.eqb b sep then "" :: Split rest sep
      else
        match Split rest sep with
        | piece :: pieces => String b piece :: pieces
        | [] => [String b ""]
        end
  end.

Fixpoint IndexFrom (i : Z) (s substr : string) : Z :=
  if String.prefix substr s then i
  else
    match s with
    | "" => (-1)%Z
    | String _ rest => IndexFrom (i + 1)%Z rest substr
    end.

(** [strings.Index]: the index of the first instance of [substr] in [s],
    or -1. *)
Definition Index (s substr : string) : Z := IndexFrom 0 s substr.

End gostrings.

(** ** Errors *)

(** The dynamic types an [error] has in this code: a [trace.Errorf] message,
    [teleport.BadParameter], a failure reported by a collaborator (the
    operating system, the bolt backend, a decoder), and [trace.Wrap]'s
    wrapper around any of them. *)
Inductive error : Type :=
  | Errorf (msg : string)
  | BadParameterError (param msg : string)
  | Failure (origin : string)
  | Traced (cause : error).

Module trace.

(** The gravitational/trace library is outside the sources at hand, and
    what its [Wrap] returns for a nil error has not been the same in all
    of its releases: nil where [Wrap] tests for it, a trace with nothing
    in it where it does not.  [WrapNil] is that value, [None] for nil. *)
Class Library : Type := { WrapNil : option error }.

(** [trace.Wrap(err)]: an error is wrapped with the call path (a message
    given with it is not kept). *)
Definition Wrap `{Library} (err : option error) : option error :=
  match err with
  | None => WrapNil
  | Some e => Some (Traced e)
  end.

Definition Errorf (msg : string) : option error := Some (Errorf msg).

(** The error at the bottom of a chain of wrappers. *)
Fixpoint Unwrap (e : error) : error :=
  match e with
  | Traced e' => Unwrap e'
  | _ => e
  end.

End trace.

Module teleport.

(** Modelled from the spec: the two backend type names of the root
    package, whose declarations are not part of the sources at hand
    (backend type [bolt|etcd]). *)
Definition BoltBackendType : string := "bolt".
Definition ETCDBackendType : string := "etcd".

Definition BadParameter (param msg : string) : error :=
  BadParameterError param msg.

End teleport.

(** ** Collaborator types *)

(** [[]byte]. *)
Definition bytes := list Byte.byte.

#[global] Instance byte_eq_dec : EqDecision Byte.byte := Byte.byte_eq_dec.

(** A call that returns a value or an error. *)
Inductive result (A : Type) : Type :=
  | Ok (a : A)
  | Err (e : error).
Arguments Ok {A} a.
Arguments Err {A} e.

(** [time.Duration] is a count of nanoseconds, [time.Time] an instant. *)
Definition Duration := Z.
Definition Time := Z.

Module time.
Definition Nanosecond : Duration := 1%Z.
Definition Microsecond : Duration := (1000 * Nanosecond)%Z.
Definition Millisecond : Duration := (1000 * Microsecond)%Z.
Definition Second : Duration := (1000 * Millisecond)%Z.
Definition Minute : Duration := (60 * Second)%Z.
Definition Hour : Duration := (60 * Minute)%Z.

(** [t.Before(u)]. *)
Definition Before (t u : Time) : bool := (t <? u)%Z.
End time.

Module utils.
(** [utils.NetAddr], as far as this code reads it: the network and the
    [host:port] address. *)
Record NetAddr : Type := { AddrNetwork : string; Addr : string }.
End utils.

Module limiter.
Record Rate : Type := { Period : Duration; Average : Z; Burst : Z }.

(** [limiter.LimiterConfig], the fields this code assigns. *)
Record LimiterConfig : Type := {
  Rates : list Rate;
  MaxConnections : Z;
  MaxNumberOfUsers : Z
}.

Definition zero : LimiterConfig :=
  {| Rates := []; MaxConnections := 0%Z; MaxNumberOfUsers := 0%Z |}.
End limiter.

Module services.
(** [services.CommandLabel]. *)
Record CommandLabel : Type := {
  Period : Duration;
  Command : list string;
  Result : string
}.

(** [services.CertAuthority]. *)
Inductive CertAuthType := HostCA | UserCA.

#[global] Instance CertAuthType_eq_dec : EqDecision CertAuthType.
Proof. solve_decision. Defined.

Record CertAuthority : Type := {
  DomainName : string;
  Type_ : CertAuthType;
  SigningKeys : list bytes;
  CheckingKeys : list bytes
}.
End services.

(** [fmt.Sprintf("%d", n)]. *)
Definition itoa (n : Z) : string :=
  NilZero.string_of_int (Z.to_int n).

(** [filepath.Join] of two elements that are already clean (no empty,
    [.] or [..] component, no doubled or trailing separator), which is how
    the code below calls it: empty elements are skipped and the rest joined
    by the separator. *)
Definition filepath_Join (dir file : string) : string :=
  if String.eqb dir "" then file
  else if String.eqb file "" then dir
  else dir +:+ "/" +:+ file.

(** ** lib/defaults *)

Module defaults.

Definition HTTPListenPort : Z := 3080%Z.
Definition SSHServerListenPort : Z := 3022%Z.
Definition SSHProxyListenPort : Z := 3023%Z.
Definition SSHProxyTunnelListenPort : Z := 3024%Z.
Definition AuthListenPort : Z := 3025%Z.

Definition BackendType : string := "bolt".
Definition EventsBoltFile : string := "events.db".
Definition KeysBoltFile : string := "keys.db".
Definition RecordsBoltFile : string := "records.db".
Definition BindIP : string := "0.0.0.0".
Definition DefaultShell : string := "/bin/bash".

Definition ServerHeartbeatTTL : Duration := (6 * time.Second)%Z.
Definition AuthServersRefreshPeriod : Duration := (3 * time.Second)%Z.
Definition SessionRefreshPeriod : Duration := (1 * time.Second)%Z.

Definition LimiterMaxConnections : Z := 1000%Z.
Definition LimiterMaxConcurrentUsers : Z := 250%Z.

Definition MinCertDuration : Duration := time.Minute.
Definition MaxCertDuration : Duration := (30 * time.Hour)%Z.
Definition CertDuration : Duration := (12 * time.Hour)%Z.

Definition RoleNode : string := "node".
Definition RoleProxy : string := "proxy".
Definition RoleAuthService : string := "auth".

Definition ConfigFilePath : string := "/etc/teleport.yaml".
Definition DataDir : string := "/var/lib/teleport".
Definition StartRoles : list string := [RoleProxy; RoleNode; RoleAuthService].
Definition ETCDPrefix : string := "/teleport".

(** [ConfigureLimiter]. *)
Definition ConfigureLimiter (lc : limiter.LimiterConfig) : limiter.LimiterConfig :=
  {| limiter.Rates := limiter.Rates lc;
     limiter.MaxConnections := LimiterMaxConnections;
     limiter.MaxNumberOfUsers := LimiterMaxConcurrentUsers |}.

Section Addresses.
(** [utils.ParseAddr] is not part of the sources at hand: it is a
    parameter; [None] is a returned error. *)
Variable ParseAddr : string -> option utils.NetAddr.

(** [makeAddr]: [None] is the panic on an address that does not parse. *)
Definition makeAddr (host : string) (port : Z) : option utils.NetAddr :=
  let addrSpec := "tcp://" +:+ host +:+ ":" +:+ itoa port in
  ParseAddr addrSpec.

Definition AuthListenAddr := makeAddr BindIP AuthListenPort.
Definition AuthConnectAddr := makeAddr "127.0.0.1" AuthListenPort.
Definition ProxyListenAddr := makeAddr BindIP SSHProxyListenPort.
Definition ProxyWebListenAddr := makeAddr BindIP HTTPListenPort.
Definition SSHServerListenAddr := makeAddr BindIP SSHServerListenPort.
Definition ReverseTunnellListenAddr := makeAddr BindIP SSHProxyTunnelListenPort.
Definition ReverseTunnellConnectAddr := makeAddr "127.0.0.1" SSHProxyTunnelListenPort.
End Addresses.

End defaults.

(** ** lib/service/cfg.go *)

Module service.

(** [io.Writer] values the configuration holds in [Console]. *)
Inductive Writer := NoWriter | Stdout | Stderr | Discard.

(** [net.IP]: nil or the address bytes. *)
Definition IP := option string.

Definition NetAddrSlice := list utils.NetAddr.
Definition StringArray := list string.

(** [KeyVal], a [map[string]string]; nil is [None]. *)
Definition KeyVal := option (gmap string string).

Record CertificateAuthority : Type := {
  CA_Type : string;
  CA_ID : string;
  CA_DomainName : string;
  CA_PublicKey : string
}.

Definition CertificateAuthorities := list CertificateAuthority.

Record LocalCertificateAuthority : Type := {
  Public : CertificateAuthority;
  PrivateKey : string
}.

Module ProxyConfig.
Record t : Type := {
  Enabled : bool;
  Token : string;
  ReverseTunnelListenAddr : utils.NetAddr;
  WebAddr : utils.NetAddr;
  SSHAddr : utils.NetAddr;
  AssetsDir : string;
  TLSKey : string;
  TLSCert : string;
  Limiter : limiter.LimiterConfig
}.
Definition with_Enabled v c := {| Enabled := v; Token := Token c; ReverseTunnelListenAddr := ReverseTunnelListenAddr c; WebAddr := WebAddr c; SSHAddr := SSHAddr c; AssetsDir := AssetsDir c; TLSKey := TLSKey c; TLSCert := TLSCert c; Limiter := Limiter c |}.
Definition with_Token v c := {| Enabled := Enabled c; Token := v; ReverseTunnelListenAddr := ReverseTunnelListenAddr c; WebAddr := WebAddr c; SSHAddr := SSHAddr c; AssetsDir := AssetsDir c; TLSKey := TLSKey c; TLSCert := TLSCert c; Limiter := Limiter c |}.
Definition with_ReverseTunnelListenAddr v c := {| Enabled := Enabled c; Token := Token c; ReverseTunnelListenAddr := v; WebAddr := WebAddr c; SSHAddr := SSHAddr c; AssetsDir := AssetsDir c; TLSKey := TLSKey c; TLSCert := TLSCert c; Limiter := Limiter c |}.
Definition with_WebAddr v c := {| Enabled := Enabled c; Token := Token c; ReverseTunnelListenAddr := ReverseTunnelListenAddr c; WebAddr := v; SSHAddr := SSHAddr c; AssetsDir := AssetsDir c; TLSKey := TLSKey c; TLSCert := TLSCert c; Limiter := Limiter c |}.
Definition with_SSHAddr v c := {| Enabled := Enabled c; Token := Token c; ReverseTunnelListenAddr := ReverseTunnelListenAddr c; WebAddr := WebAddr c; SSHAddr := v; AssetsDir := AssetsDir c; TLSKey := TLSKey c; TLSCert := TLSCert c; Limiter := Limiter c |}.
Definition with_AssetsDir v c := {| Enabled := Enabled c; Token := Token c; ReverseTunnelListenAddr := ReverseTunnelListenAddr c; WebAddr := WebAddr c; SSHAddr := SSHAddr c; AssetsDir := v; TLSKey := TLSKey c; TLSCert := TLSCert c; Limiter := Limiter c |}.
Definition with_TLSKey v c := {| Enabled := Enabled c; Token := Token c; ReverseTunnelListenAddr := ReverseTunnelListenAddr c; WebAddr := WebAddr c; SSHAddr := SSHAddr c; AssetsDir := AssetsDir c; TLSKey := v; TLSCert := TLSCert c; Limiter := Limiter c |}.
Definition with_TLSCert v c := {| Enabled := Enabled c; Token := Token c; ReverseTunnelListenAddr := ReverseTunnelListenAddr c; WebAddr := WebAddr c; SSHAddr := SSHAddr c; AssetsDir := AssetsDir c; TLSKey := TLSKey c; TLSCert := v; Limiter := Limiter c |}.
Definition with_Limiter v c := {| Enabled := Enabled c; Token := Token c; ReverseTunnelListenAddr := ReverseTunnelListenAddr c; WebAddr := WebAddr c; SSHAddr := SSHAddr c; AssetsDir := AssetsDir c; TLSKey := TLSKey c; TLSCert := TLSCert c; Limiter := v |}.
End ProxyConfig.

(** The anonymous structs of [AuthConfig]'s three backends. *)
Record KeysBackendConfig : Type := {
  KB_Type : string;
  KB_Params : string;
  KB_EncryptionKeys : StringArray
}.

Record BackendConfig : Type := { B_Type : string; B_Params : string }.

Module AuthConfig.
Record t : Type := {
  Enabled : bool;
  SSHAddr : utils.NetAddr;
  Token : string;
  SecretKey : string;
  AllowedTokens : KeyVal;
  TrustedAuthorities : CertificateAuthorities;
  DomainName : string;
  UserCA : LocalCertificateAuthority;
  HostCA : LocalCertificateAuthority;
  KeysBackend : KeysBackendConfig;
  EventsBackend : BackendConfig;
  RecordsBackend : BackendConfig;
  Limiter : limiter.LimiterConfig
}.
Definition with_Enabled v c := {| Enabled := v; SSHAddr := SSHAddr c; Token := Token c; SecretKey := SecretKey c; AllowedTokens := AllowedTokens c; TrustedAuthorities := TrustedAuthorities c; DomainName := DomainName c; UserCA := UserCA c; HostCA := HostCA c; KeysBackend := KeysBackend c; EventsBackend := EventsBackend c; RecordsBackend := RecordsBackend c; Limiter := Limiter c |}.
Definition with_SSHAddr v c := {| Enabled := Enabled c; SSHAddr := v; Token := Token c; SecretKey := SecretKey c; AllowedTokens := AllowedTokens c; TrustedAuthorities := TrustedAuthorities c; DomainName := DomainName c; UserCA := UserCA c; HostCA := HostCA c; KeysBackend := KeysBackend c; EventsBackend := EventsBackend c; RecordsBackend := RecordsBackend c; Limiter := Limiter c |}.
Definition with_Token v c := {| Enabled := Enabled c; SSHAddr := SSHAddr c; Token := v; SecretKey := SecretKey c; AllowedTokens := AllowedTokens c; TrustedAuthorities := TrustedAuthorities c; DomainName := DomainName c; UserCA := UserCA c; HostCA := HostCA c; KeysBackend := KeysBackend c; EventsBackend := EventsBackend c; RecordsBackend := RecordsBackend c; Limiter := Limiter c |}.
Definition with_DomainName v c := {| Enabled := Enabled c; SSHAddr := SSHAddr c; Token := Token c; SecretKey := SecretKey c; AllowedTokens := AllowedTokens c; TrustedAuthorities := TrustedAuthorities c; DomainName := v; UserCA := UserCA c; HostCA := HostCA c; KeysBackend := KeysBackend c; EventsBackend := EventsBackend c; RecordsBackend := RecordsBackend c; Limiter := Limiter c |}.
Definition with_KeysBackend v c := {| Enabled := Enabled c; SSHAddr := SSHAddr c; Token := Token c; SecretKey := SecretKey c; AllowedTokens := AllowedTokens c; TrustedAuthorities := TrustedAuthorities c; DomainName := DomainName c; UserCA := UserCA c; HostCA := HostCA c; KeysBackend := v; EventsBackend := EventsBackend c; RecordsBackend := RecordsBackend c; Limiter := Limiter c |}.
Definition with_EventsBackend v c := {| Enabled := Enabled c; SSHAddr := SSHAddr c; Token := Token c; SecretKey := SecretKey c; AllowedTokens := AllowedTokens c; TrustedAuthorities := TrustedAuthorities c; DomainName := DomainName c; UserCA := UserCA c; HostCA := HostCA c; KeysBackend := KeysBackend c; EventsBackend := v; RecordsBackend := RecordsBackend c; Limiter := Limiter c |}.
Definition with_RecordsBackend v c := {| Enabled := Enabled c; SSHAddr := SSHAddr c; Token := Token c; SecretKey := SecretKey c; AllowedTokens := AllowedTokens c; TrustedAuthorities := TrustedAuthorities c; DomainName := DomainName c; UserCA := UserCA c; HostCA := HostCA c; KeysBackend := KeysBackend c; EventsBackend := EventsBackend c; RecordsBackend := v; Limiter := Limiter c |}.
Definition with_Limiter v c := {| Enabled := Enabled c; SSHAddr := SSHAddr c; Token := Token c; SecretKey := SecretKey c; AllowedTokens := AllowedTokens c; TrustedAuthorities := TrustedAuthorities c; DomainName := DomainName c; UserCA := UserCA c; HostCA := HostCA c; KeysBackend := KeysBackend c; EventsBackend := EventsBackend c; RecordsBackend := RecordsBackend c; Limiter := v |}.
End AuthConfig.

Module SSHConfig.
Record t : Type := {
  Enabled : bool;
  Token : string;
  Addr : utils.NetAddr;
  Shell : string;
  Limiter : limiter.LimiterConfig;
  Labels : option (gmap string string);
  CmdLabels : option (gmap string services.CommandLabel)
}.
Definition with_Enabled v c := {| Enabled := v; Token := Token c; Addr := Addr c; Shell := Shell c; Limiter := Limiter c; Labels := Labels c; CmdLabels := CmdLabels c |}.
Definition with_Token v c := {| Enabled := Enabled c; Token := v; Addr := Addr c; Shell := Shell c; Limiter := Limiter c; Labels := Labels c; CmdLabels := CmdLabels c |}.
Definition with_Addr v c := {| Enabled := Enabled c; Token := Token c; Addr := v; Shell := Shell c; Limiter := Limiter c; Labels := Labels c; CmdLabels := CmdLabels c |}.
Definition with_Shell v c := {| Enabled := Enabled c; Token := Token c; Addr := Addr c; Shell := v; Limiter := Limiter c; Labels := Labels c; CmdLabels := CmdLabels c |}.
Definition with_Limiter v c := {| Enabled := Enabled c; Token := Token c; Addr := Addr c; Shell := Shell c; Limiter := v; Labels := Labels c; CmdLabels := CmdLabels c |}.
Definition with_Labels v c := {| Enabled := Enabled c; Token := Token c; Addr := Addr c; Shell := Shell c; Limiter := Limiter c; Labels := v; CmdLabels := CmdLabels c |}.
Definition with_CmdLabels v c := {| Enabled := Enabled c; Token := Token c; Addr := Addr c; Shell := Shell c; Limiter := Limiter c; Labels := Labels c; CmdLabels := v |}.
End SSHConfig.

Module ReverseTunnelConfig.
Record t : Type := {
  Enabled : bool;
  Token : string;
  DialAddr : utils.NetAddr;
  Limiter : limiter.LimiterConfig
}.
Definition with_Enabled v c := {| Enabled := v; Token := Token c; DialAddr := DialAddr c; Limiter := Limiter c |}.
Definition with_DialAddr v c := {| Enabled := Enabled c; Token := Token c; DialAddr := v; Limiter := Limiter c |}.
Definition with_Limiter v c := {| Enabled := Enabled c; Token := Token c; DialAddr := DialAddr c; Limiter := v |}.
End ReverseTunnelConfig.

(** [Config]: the structure that initializes all services. *)
Record Config : Type := {
  DataDir : string;
  Hostname : string;
  AuthServers : NetAddrSlice;
  AdvertiseIP : IP;
  SSH : SSHConfig.t;
  Auth : AuthConfig.t;
  ReverseTunnel : ReverseTunnelConfig.t;
  Proxy : ProxyConfig.t;
  HostUUID : string;
  Console : Writer
}.

Definition with_DataDir v c := {| DataDir := v; Hostname := Hostname c; AuthServers := AuthServers c; AdvertiseIP := AdvertiseIP c; SSH := SSH c; Auth := Auth c; ReverseTunnel := ReverseTunnel c; Proxy := Proxy c; HostUUID := HostUUID c; Console := Console c |}.
Definition with_Hostname v c := {| DataDir := DataDir c; Hostname := v; AuthServers := AuthServers c; AdvertiseIP := AdvertiseIP c; SSH := SSH c; Auth := Auth c; ReverseTunnel := ReverseTunnel c; Proxy := Proxy c; HostUUID := HostUUID c; Console := Console c |}.
Definition with_AuthServers v c := {| DataDir := DataDir c; Hostname := Hostname c; AuthServers := v; AdvertiseIP := AdvertiseIP c; SSH := SSH c; Auth := Auth c; ReverseTunnel := ReverseTunnel c; Proxy := Proxy c; HostUUID := HostUUID c; Console := Console c |}.
Definition with_AdvertiseIP v c := {| DataDir := DataDir c; Hostname := Hostname c; AuthServers := AuthServers c; AdvertiseIP := v; SSH := SSH c; Auth := Auth c; ReverseTunnel := ReverseTunnel c; Proxy := Proxy c; HostUUID := HostUUID c; Console := Console c |}.
Definition with_SSH v c := {| DataDir := DataDir c; Hostname := Hostname c; AuthServers := AuthServers c; AdvertiseIP := AdvertiseIP c; SSH := v; Auth := Auth c; ReverseTunnel := ReverseTunnel c; Proxy := Proxy c; HostUUID := HostUUID c; Console := Console c |}.
Definition with_Auth v c := {| DataDir := DataDir c; Hostname := Hostname c; AuthServers := AuthServers c; AdvertiseIP := AdvertiseIP c; SSH := SSH c; Auth := v; ReverseTunnel := ReverseTunnel c; Proxy := Proxy c; HostUUID := HostUUID c; Console := Console c |}.
Definition with_ReverseTunnel v c := {| DataDir := DataDir c; Hostname := Hostname c; AuthServers := AuthServers c; AdvertiseIP := AdvertiseIP c; SSH := SSH c; Auth := Auth c; ReverseTunnel := v; Proxy := Proxy c; HostUUID := HostUUID c; Console := Console c |}.
Definition with_Proxy v c := {| DataDir := DataDir c; Hostname := Hostname c; AuthServers := AuthServers c; AdvertiseIP := AdvertiseIP c; SSH := SSH c; Auth := Auth c; ReverseTunnel := ReverseTunnel c; Proxy := v; HostUUID := HostUUID c; Console := Console c |}.
Definition with_Console v c := {| DataDir := DataDir c; Hostname := Hostname c; AuthServers := AuthServers c; AdvertiseIP := AdvertiseIP c; SSH := SSH c; Auth := Auth c; ReverseTunnel := ReverseTunnel c; Proxy := Proxy c; HostUUID := HostUUID c; Console := v |}.

(** The zero value [Config{}]. *)
Definition zeroAddr : utils.NetAddr := {| utils.AddrNetwork := ""; utils.Addr := "" |}.
Definition zeroCA : CertificateAuthority :=
  {| CA_Type := ""; CA_ID := ""; CA_DomainName := ""; CA_PublicKey := "" |}.
Definition zeroLocalCA : LocalCertificateAuthority :=
  {| Public := zeroCA; PrivateKey := "" |}.
Definition zeroConfig : Config :=
  {| DataDir := ""; Hostname := ""; AuthServers := []; AdvertiseIP := None;
     SSH := {| SSHConfig.Enabled := false; SSHConfig.Token := "";
               SSHConfig.Addr := zeroAddr; SSHConfig.Shell := "";
               SSHConfig.Limiter := limiter.zero;
               SSHConfig.Labels := None; SSHConfig.CmdLabels := None |};
     Auth := {| AuthConfig.Enabled := false; AuthConfig.SSHAddr := zeroAddr;
                AuthConfig.Token := ""; AuthConfig.SecretKey := "";
                AuthConfig.AllowedTokens := None;
                AuthConfig.TrustedAuthorities := [];
                AuthConfig.DomainName := "";
                AuthConfig.UserCA := zeroLocalCA; AuthConfig.HostCA := zeroLocalCA;
                AuthConfig.KeysBackend :=
                  {| KB_Type := ""; KB_Params := ""; KB_EncryptionKeys := [] |};
                AuthConfig.EventsBackend := {| B_Type := ""; B_Params := "" |};
                AuthConfig.RecordsBackend := {| B_Type := ""; B_Params := "" |};
                AuthConfig.Limiter := limiter.zero |};
     ReverseTunnel := {| ReverseTunnelConfig.Enabled := false;
                         ReverseTunnelConfig.Token := "";
                         ReverseTunnelConfig.DialAddr := zeroAddr;
                         ReverseTunnelConfig.Limiter := limiter.zero |};
     Proxy := {| ProxyConfig.Enabled := false; ProxyConfig.Token := "";
                 ProxyConfig.ReverseTunnelListenAddr := zeroAddr;
                 ProxyConfig.WebAddr := zeroAddr; ProxyConfig.SSHAddr := zeroAddr;
                 ProxyConfig.AssetsDir := ""; ProxyConfig.TLSKey := "";
                 ProxyConfig.TLSCert := ""; ProxyConfig.Limiter := limiter.zero |};
     HostUUID := ""; Console := NoWriter |}.

(** Assignments through a field path, [cfg.Auth.x = v]. *)
Definition upd_SSH (f : SSHConfig.t -> SSHConfig.t) (cfg : Config) : Config :=
  with_SSH (f (SSH cfg)) cfg.
Definition upd_Auth (f : AuthConfig.t -> AuthConfig.t) (cfg : Config) : Config :=
  with_Auth (f (Auth cfg)) cfg.
Definition upd_Proxy (f : ProxyConfig.t -> ProxyConfig.t) (cfg : Config) : Config :=
  with_Proxy (f (Proxy cfg)) cfg.
Definition upd_ReverseTunnel (f : ReverseTunnelConfig.t -> ReverseTunnelConfig.t)
    (cfg : Config) : Config :=
  with_ReverseTunnel (f (ReverseTunnel cfg)) cfg.

Definition set_KB_Type v (b : KeysBackendConfig) :=
  {| KB_Type := v; KB_Params := KB_Params b; KB_EncryptionKeys := KB_EncryptionKeys b |}.
Definition set_KB_Params v (b : KeysBackendConfig) :=
  {| KB_Type := KB_Type b; KB_Params := v; KB_EncryptionKeys := KB_EncryptionKeys b |}.
Definition set_B_Type v (b : BackendConfig) :=
  {| B_Type := v; B_Params := B_Params b |}.
Definition set_B_Params v (b : BackendConfig) :=
  {| B_Type := B_Type b; B_Params := v |}.

(** [ApplyToken]: the token goes to all internal services, but only if it
    is not the empty string; the result tells whether it was assigned. *)
Definition ApplyToken (cfg : Config) (token : string) : bool * Config :=
  if negb (String.eqb token "") then
    let cfg := upd_SSH (SSHConfig.with_Token token) cfg in
    let cfg := upd_Proxy (ProxyConfig.with_Token token) cfg in
    let cfg := upd_Auth (AuthConfig.with_Token token) cfg in
    (true, cfg)
  else (false, cfg).

Definition dquote : string := String (ascii_of_nat 34) "".

(** [boltParams]: the string the BoltDB driver accepts, a JSON object
    with the one key [path]. *)
Definition boltParams (storagePath dbFile : string) : string :=
  "{" +:+ dquote +:+ "path" +:+ dquote +:+ ": " +:+ dquote
    +:+ filepath_Join storagePath dbFile +:+ dquote +:+ "}".

(** [ConfigureBolt]. *)
Definition ConfigureBolt (cfg : Config) (dataDir : string) : Config :=
  let a := Auth cfg in
  let a :=
    if String.eqb (B_Type (AuthConfig.EventsBackend a)) teleport.BoltBackendType
    then AuthConfig.with_EventsBackend
           (set_B_Params (boltParams dataDir defaults.EventsBoltFile)
              (AuthConfig.EventsBackend a)) a
    else a in
  let a :=
    if String.eqb (KB_Type (AuthConfig.KeysBackend a)) teleport.BoltBackendType
    then AuthConfig.with_KeysBackend
           (set_KB_Params (boltParams dataDir defaults.KeysBoltFile)
              (AuthConfig.KeysBackend a)) a
    else a in
  let a :=
    if String.eqb (B_Type (AuthConfig.RecordsBackend a)) teleport.BoltBackendType
    then AuthConfig.with_RecordsBackend
           (set_B_Params (boltParams dataDir defaults.RecordsBoltFile)
              (AuthConfig.RecordsBackend a)) a
    else a in
  with_Auth a cfg.

Section Collaborators.
(** [utils.ParseAddr], [os.Hostname()] and [json.Marshal] of an
    [etcdbk.Config] are outside the sources at hand: parameters. *)
Context {tracelib : trace.Library}.
Variable ParseAddr : string -> option utils.NetAddr.
Variable os_Hostname : string * option error.
Variable marshalEtcdConfig : list string -> string -> string * option error.

(** [etcdParams]. *)
Definition etcdParams (peers : list string) (key : string)
    : string * option error :=
  let '(out, err) := marshalEtcdConfig peers key in
  match err with
  | Some _ => ("", trace.Wrap err)
  | None => (out, None)
  end.

(** [ConfigureETCD]: keys go to etcd, events and records stay in bolt. *)
Definition ConfigureETCD (cfg : Config) (dataDir : string)
    (peers : list string) (key : string) : option error * Config :=
  let a := Auth cfg in
  let '(params, err) := etcdParams peers key in
  match err with
  | Some _ => (trace.Wrap err, cfg)
  | None =>
      let a := AuthConfig.with_KeysBackend
                 (set_KB_Params params
                    (set_KB_Type teleport.ETCDBackendType (AuthConfig.KeysBackend a))) a in
      let a := AuthConfig.with_EventsBackend
                 {| B_Type := teleport.BoltBackendType;
                    B_Params := boltParams dataDir defaults.EventsBoltFile |} a in
      let a := AuthConfig.with_RecordsBackend
                 {| B_Type := teleport.BoltBackendType;
                    B_Params := boltParams dataDir defaults.RecordsBoltFile |} a in
      (None, with_Auth a cfg)
  end.

(** [ApplyDefaults].  [None] is the panic of [makeAddr]; the log line
    about the host name is not kept. *)
Definition ApplyDefaults (cfg : Config) : option Config :=
  let hostname :=
    match os_Hostname.2 with
    | Some _ => "localhost"
    | None => os_Hostname.1
    end in
(* defaults for the auth service *)
let cfg := upd_Auth (AuthConfig.with_Enabled true) cfg in
authAddr ← defaults.AuthListenAddr ParseAddr;
let cfg := upd_Auth (AuthConfig.with_SSHAddr authAddr) cfg in
let cfg := upd_Auth (fun a => AuthConfig.with_EventsBackend
             {| B_Type := defaults.BackendType;
                B_Params := boltParams defaults.DataDir defaults.EventsBoltFile |} a) cfg in
let cfg := upd_Auth (fun a => AuthConfig.with_KeysBackend
             (set_KB_Params (boltParams defaults.DataDir defaults.KeysBoltFile)
                (set_KB_Type defaults.BackendType (AuthConfig.KeysBackend a))) a) cfg in
let cfg := upd_Auth (fun a => AuthConfig.with_RecordsBackend
             {| B_Type := defaults.BackendType;
                B_Params := boltParams defaults.DataDir defaults.RecordsBoltFile |} a) cfg in
let cfg := upd_Auth (fun a => AuthConfig.with_Limiter
             (defaults.ConfigureLimiter (AuthConfig.Limiter a)) a) cfg in
(* defaults for the SSH proxy service *)
let cfg := upd_Proxy (ProxyConfig.with_Enabled true) cfg in
let cfg := upd_Proxy (ProxyConfig.with_AssetsDir defaults.DataDir) cfg in
proxyAddr ← defaults.ProxyListenAddr ParseAddr;
let cfg := upd_Proxy (ProxyConfig.with_SSHAddr proxyAddr) cfg in
webAddr ← defaults.ProxyWebListenAddr ParseAddr;
let cfg := upd_Proxy (ProxyConfig.with_WebAddr webAddr) cfg in
let cfg := upd_ReverseTunnel (ReverseTunnelConfig.with_Enabled false) cfg in
dialAddr ← defaults.ReverseTunnellConnectAddr ParseAddr;
let cfg := upd_ReverseTunnel (ReverseTunnelConfig.with_DialAddr dialAddr) cfg in
tunnelAddr ← defaults.ReverseTunnellListenAddr ParseAddr;
let cfg := upd_Proxy (ProxyConfig.with_ReverseTunnelListenAddr tunnelAddr) cfg in
let cfg := upd_Proxy (fun p => ProxyConfig.with_Limiter
             (defaults.ConfigureLimiter (ProxyConfig.Limiter p)) p) cfg in
let cfg := upd_ReverseTunnel (fun r => ReverseTunnelConfig.with_Limiter
             (defaults.ConfigureLimiter (ReverseTunnelConfig.Limiter r)) r) cfg in
(* defaults for the SSH service *)
let cfg := upd_SSH (SSHConfig.with_Enabled true) cfg in
sshAddr ← defaults.SSHServerListenAddr ParseAddr;
let cfg := upd_SSH (SSHConfig.with_Addr sshAddr) cfg in
let cfg := upd_SSH (SSHConfig.with_Shell defaults.DefaultShell) cfg in
let cfg := upd_SSH (fun s => SSHConfig.with_Limiter
             (defaults.ConfigureLimiter (SSHConfig.Limiter s)) s) cfg in
(* global defaults *)
let cfg := with_Hostname hostname cfg in
let cfg := with_DataDir defaults.DataDir cfg in
let cfg :=
  if AuthConfig.Enabled (Auth cfg)
  then with_AuthServers [AuthConfig.SSHAddr (Auth cfg)] cfg
  else cfg in
Some (with_Console Stdout cfg).

(** [MakeDefaultConfig]: a new [Config] populated with the defaults. *)
Definition MakeDefaultConfig : option Config := ApplyDefaults zeroConfig.

End Collaborators.

Section Setters.
(** [json.Unmarshal] into a [[]string] and [utils.ParseAddr], with the
    errors they return, are parameters. *)
Context {tracelib : trace.Library}.
Variable json_Unmarshal_strings : string -> result (list string).
Variable ParseAddrErr : string -> result utils.NetAddr.

(** [for i, v := range values] in [NetAddrSlice.Set]; [out] holds the
    entries assigned so far. *)
Fixpoint Set_range (values : list string) (out : list utils.NetAddr)
    : option error * list utils.NetAddr :=
  match values with
  | [] => (None, out)
  | v :: rest =>
      match ParseAddrErr v with
      | Err err => (trace.Wrap (Some err), out)
      | Ok a => Set_range rest (out ++ [a])
      end
  end.

(** [(s *NetAddrSlice) Set(val)]: the slice after the call, and the
    error. *)
Definition NetAddrSlice_Set (s : NetAddrSlice) (val : string)
    : option error * NetAddrSlice :=
  match json_Unmarshal_strings val with
  | Err err => (trace.Wrap (Some err), s)
  | Ok values =>
      let '(err, out) := Set_range values [] in
      match err with
      | Some _ => (err, s)
      | None => (None, out)
      end
  end.

End Setters.

End service.

(** ** lib/client: the key store and the host-signer trust cache *)

Module ssh.

(** [ssh.PublicKey]: a plain key or an [*ssh.Certificate], each with its
    wire encoding ([ssh.Marshal]); a certificate carries the key of the
    authority that signed it. *)
Inductive PublicKey : Type :=
  | PlainKey (blob : bytes)
  | Certificate (blob : bytes) (SignatureKey : PublicKey).

Definition Marshal (k : PublicKey) : bytes :=
  match k with
  | PlainKey blob => blob
  | Certificate blob _ => blob
  end.

(** A private key as [ssh.ParseRawPrivateKey] returns it. *)
Inductive PrivateKey : Type := RawPrivateKey (der : bytes).

End ssh.

Module sshutils.
(** Modelled from the spec: [sshutils.KeysEqual], whose source is not at
    hand, compares two keys for byte equality. *)
Definition KeysEqual (ak bk : ssh.PublicKey) : bool :=
  bool_decide (ssh.Marshal ak = ssh.Marshal bk).
End sshutils.

Module agent.
(** [agent.AddedKey]. *)
Record AddedKey : Type := {
  PrivateKey : ssh.PrivateKey;
  Certificate : ssh.PublicKey;
  Comment : string;
  LifetimeSecs : Z;
  ConfirmBeforeUse : bool
}.
End agent.

Module client.

Definition KeyFilePrefix : string := "teleport_".
Definition KeyFileSuffix : string := ".tkey".
Definition HostSignersFilename : string := "hostsigners.db".

Record Key : Type := {
  Priv : bytes;
  Cert : bytes;
  Deadline : Time
}.

(** [Key{}]; the zero [time.Time] is January 1, year 1, 00:00 UTC. *)
Definition zeroTime : Time := (-62135596800 * time.Second)%Z.
Definition zeroKey : Key := {| Priv := []; Cert := []; Deadline := zeroTime |}.

(** *** The world the client runs in *)

(** A file of the keys directory: whether it is a directory, what
    [ioutil.ReadFile] returns for it and what [os.Remove] reports. *)
Record File : Type := {
  IsDir : bool;
  Data : bytes;
  ReadErr : option error;
  RemoveErr : option error
}.

(** [os.FileInfo], as far as the code reads it. *)
Record FileInfo : Type := { Name : string; FileIsDir : bool }.

(** The bolt database behind [hostsigners.db]: whether it opens, whether
    the authorities can be listed, whether an upsert goes through, and the
    authorities it holds. *)
Record TrustCache : Type := {
  OpenErr : option error;
  ListErr : option error;
  UpsertErr : services.CertAuthority -> option error;
  Authorities : list services.CertAuthority
}.

Record World : Type := {
(** the directory [getKeysDir()] names, [None] while it does not exist;
    a file in it is addressed by its name *)
KeysDir : option (gmap string File);
StatErr : option error;    (* os.Stat failing for another reason *)
MkdirErr : option error;   (* what os.MkdirAll reports *)
ReadDirErr : option error; (* what ioutil.ReadDir reports on the directory *)
(** the i-th reading of [time.Now()] and the number of readings taken *)
Clock : nat -> Time;
Ticks : nat;
(** the lines of [log.Errorf], latest first *)
Log : list error;
Trust : TrustCache
}.

Definition with_KeysDir v w := {| KeysDir := v; StatErr := StatErr w; MkdirErr := MkdirErr w; ReadDirErr := ReadDirErr w; Clock := Clock w; Ticks := Ticks w; Log := Log w; Trust := Trust w |}.
Definition with_Ticks v w := {| KeysDir := KeysDir w; StatErr := StatErr w; MkdirErr := MkdirErr w; ReadDirErr := ReadDirErr w; Clock := Clock w; Ticks := v; Log := Log w; Trust := Trust w |}.
Definition with_Log v w := {| KeysDir := KeysDir w; StatErr := StatErr w; MkdirErr := MkdirErr w; ReadDirErr := ReadDirErr w; Clock := Clock w; Ticks := Ticks w; Log := v; Trust := Trust w |}.
Definition with_Trust v w := {| KeysDir := KeysDir w; StatErr := StatErr w; MkdirErr := MkdirErr w; ReadDirErr := ReadDirErr w; Clock := Clock w; Ticks := Ticks w; Log := Log w; Trust := v |}.

(** Code with effects is a function of the world. *)
Definition M (A : Type) : Type := World -> A * World.
Definition ret {A} (a : A) : M A := fun w => (a, w).
Definition bind {A B} (c : M A) (k : A -> M B) : M B :=
  fun w => let '(a, w') := c w in k a w'.

Declare Scope world_scope.
Delimit Scope world_scope with world.
Notation "'do' x <- c ; k" := (bind c (fun x => k))
  (at level 10, x pattern, c at level 100, k at level 200) : world_scope.
Notation "c ;; k" := (bind c (fun _ => k))
  (at level 100, k at level 200, right associativity) : world_scope.
Local Open Scope world_scope.

(** *** Operating system and library calls *)

Definition notExist : error := Failure "file does not exist".

Definition time_Now : M Time :=
  fun w => (Clock w (Ticks w), with_Ticks (S (Ticks w)) w).

Definition log_Errorf (e : error) : M unit :=
  fun w => (tt, with_Log (e :: Log w) w).

(** [ioutil.ReadFile(filepath.Join(getKeysDir(), name))]. *)
Definition ioutil_ReadFile (name : string) : M (bytes * option error) :=
  fun w =>
    match KeysDir w ≫= (.!! name) with
    | None => (([], Some notExist), w)
    | Some f =>
        match ReadErr f with
        | Some e => (([], Some e), w)
        | None => ((Data f, None), w)
        end
    end.

(** [os.Remove(filepath.Join(getKeysDir(), name))]. *)
Definition os_Remove (name : string) : M (option error) :=
  fun w =>
    match KeysDir w with
    | None => (Some notExist, w)
    | Some dir =>
        match dir !! name with
        | None => (Some notExist, w)
        | Some f =>
            match RemoveErr f with
            | Some e => (Some e, w)
            | None => (None, with_KeysDir (Some (delete name dir)) w)
            end
        end
    end.

Definition name_le (a b : string * File) : Prop := String.leb a.1 b.1 = true.

#[global] Instance name_le_dec : RelDecision name_le.
Proof. intros a b. unfold name_le. apply _. Defined.

(** The entries of a directory, sorted by file name. *)
Definition listing (dir : gmap string File) : list FileInfo :=
  (fun p : string * File => {| Name := p.1; FileIsDir := IsDir p.2 |})
    <$> merge_sort name_le (map_to_list dir).

(** [ioutil.ReadDir(getKeysDir())]. *)
Definition ioutil_ReadDir : M (list FileInfo * option error) :=
  fun w =>
    match KeysDir w with
    | None => (([], Some notExist), w)
    | Some dir =>
        match ReadDirErr w with
        | Some e => (([], Some e), w)
        | None => ((listing dir, None), w)
        end
    end.

Section Code.
Context {tracelib : trace.Library}.

(** [initKeysDir]: the directory is created when [os.Stat] says it does
    not exist. *)
Definition initKeysDir : M (option error) :=
  fun w =>
    match KeysDir w with
    | None =>
        match MkdirErr w with
        | Some e => (trace.Wrap (Some e), w)
        | None => (None, with_KeysDir (Some ∅) w)
        end
    | Some _ =>
        match StatErr w with
        | Some e => (trace.Wrap (Some e), w)
        | None => (None, w)
        end
    end.

(** *** The key store *)

Section KeyStore.
(** The decoders are libraries outside the sources at hand and come in
    as parameters: [json.Unmarshal] into a [Key],
    [ssh.ParseAuthorizedKey], [ssh.ParseRawPrivateKey], and the error
    [keyring.Add] reports for a key it cannot build a signer for. *)
Variable json_Unmarshal : bytes -> result Key.
Variable ParseAuthorizedKey : bytes -> result ssh.PublicKey.
Variable ParseRawPrivateKey : bytes -> result ssh.PrivateKey.
Variable keyring_AddErr : agent.AddedKey -> option error.

(** [loadKey]. *)
Definition loadKey (name : string) : M (Key * option error) :=
  do (data, err) <- ioutil_ReadFile name;
  match err with
  | Some _ => ret (zeroKey, trace.Wrap err)
  | None =>
      match json_Unmarshal data with
      | Err e => ret (zeroKey, trace.Wrap (Some e))
      | Ok key => ret (key, None)
      end
  end.

Definition isKeyFile (file : FileInfo) : bool :=
  negb (FileIsDir file)
  && gostrings.HasPrefix (Name file) KeyFilePrefix
  && gostrings.HasSuffix (Name file) KeyFileSuffix.

(** The body of [for _, file := range files] in [loadAllKeys]: [keys] is
    the slice built so far, the result the slice when the body ends (a
    [continue] leaves it as it is). *)
Definition loadAllKeys_body (file : FileInfo) (keys : list Key)
    : M (list Key) :=
  if isKeyFile file then
    do (key, err) <- loadKey (Name file);
    match err with
    | Some e => log_Errorf e ;; ret keys
    | None =>
        do now <- time_Now;
        if time.Before now (Deadline key)
        then ret (keys ++ [key])
        else
          (* remove old keys *)
          do err <- os_Remove (Name file);
          match err with
          | Some e => log_Errorf e
          | None => ret tt
          end ;;
          ret keys
    end
  else ret keys.

(** [for _, file := range files]. *)
Fixpoint loadAllKeys_range (files : list FileInfo) (keys : list Key)
    : M (list Key) :=
  match files with
  | [] => ret keys
  | file :: rest =>
      do keys <- loadAllKeys_body file keys;
      loadAllKeys_range rest keys
  end.

(** [loadAllKeys]. *)
Definition loadAllKeys : M (list Key * option error) :=
  do (files, err) <- ioutil_ReadDir;
  match err with
  | Some _ => ret ([], trace.Wrap err)
  | None =>
      do keys <- loadAllKeys_range files [];
      ret (keys, None)
  end.

(** The body of [for i, key := range existingKeys] in
    [GetLocalAgentKeys]; [addedKeys] holds the entries assigned so far.
    The assertion that [pcert] is a certificate panics on a plain
    key. *)
Fixpoint addedKeys_range (existingKeys : list Key)
    (addedKeys : list agent.AddedKey)
    : outcome (list agent.AddedKey * option error) :=
  match existingKeys with
  | [] => Returns (addedKeys, None)
  | key :: rest =>
      match ParseAuthorizedKey (Cert key) with
      | Err e => Returns ([], trace.Wrap (Some e))
      | Ok pcert =>
          match ParseRawPrivateKey (Priv key) with
          | Err e => Returns ([], trace.Wrap (Some e))
          | Ok pk =>
              match pcert with
              | ssh.PlainKey _ => Panics
              | ssh.Certificate _ _ =>
                  let addedKey :=
                    {| agent.PrivateKey := pk;
                       agent.Certificate := pcert;
                       agent.Comment := "";
                       agent.LifetimeSecs := 0;
                       agent.ConfirmBeforeUse := false |} in
                  addedKeys_range rest (addedKeys ++ [addedKey])
              end
          end
      end
  end.

(** [GetLocalAgentKeys]: the local keys agents can use to
    authenticate. *)
Definition GetLocalAgentKeys
    : M (outcome (list agent.AddedKey * option error)) :=
  do err <- initKeysDir;
  match err with
  | Some _ => ret (Returns ([], trace.Wrap err))
  | None =>
      do (existingKeys, err) <- loadAllKeys;
      match err with
      | Some _ => ret (Returns ([], trace.Wrap err))
      | None => ret (addedKeys_range existingKeys [])
      end
  end.

(** The body of [for _, key := range keys] in [GetLocalAgent]: the keys
    go into the keyring in order. *)
Fixpoint keyring_range (keys : list agent.AddedKey)
    (keyring : list agent.AddedKey)
    : option (list agent.AddedKey) * option error :=
  match keys with
  | [] => (Some keyring, None)
  | key :: rest =>
      match keyring_AddErr key with
      | Some e => (None, trace.Wrap (Some e))
      | None => keyring_range rest (keyring ++ [key])
      end
  end.

(** [GetLocalAgent]: an agent (its keyring) with all the saved
    certificates. *)
Definition GetLocalAgent
    : M (outcome (option (list agent.AddedKey) * option error)) :=
  do r <- GetLocalAgentKeys;
  match r with
  | Panics => ret Panics
  | Returns (keys, err) =>
      match err with
      | Some _ => ret (Returns (None, trace.Wrap err))
      | None => ret (Returns (keyring_range keys []))
      end
  end.

End KeyStore.

(** *** The host-signer trust cache *)

Definition sameAuthority (a b : services.CertAuthority) : bool :=
  String.eqb (services.DomainName a) (services.DomainName b)
  && bool_decide (services.Type_ a = services.Type_ b).

(** Modelled from the spec: [UpsertCertAuthority] of the CA service,
    whose source is not at hand, stores the authority in place of the one
    with its domain name and type (last writer wins). *)
Definition UpsertCertAuthority (ca : services.CertAuthority) : M (option error) :=
  fun w =>
    match UpsertErr (Trust w) ca with
    | Some e => (Some e, w)
    | None =>
        let t := Trust w in
        (None,
         with_Trust
           {| OpenErr := OpenErr t; ListErr := ListErr t; UpsertErr := UpsertErr t;
              Authorities :=
                filter (fun a => sameAuthority a ca = false) (Authorities t) ++ [ca] |}
           w)
    end.

(** Modelled from the spec: [GetCertAuthorities(type)] of the CA service,
    whose source is not at hand, lists the stored authorities of a
    type. *)
Definition GetCertAuthorities (ty : services.CertAuthType)
    : M (list services.CertAuthority * option error) :=
  fun w =>
    match ListErr (Trust w) with
    | Some e => (([], Some e), w)
    | None => ((filter (fun a => services.Type_ a = ty) (Authorities (Trust w)), None), w)
    end.

(** [boltbk.New(filepath.Join(getKeysDir(), HostSignersFilename))]. *)
Definition boltbk_New : M (option error) := fun w => (OpenErr (Trust w), w).

Section TrustCache.
Variable ParseAuthorizedKey : bytes -> result ssh.PublicKey.

(** Modelled from the spec: [Checkers()] on a CA, whose source is not at
    hand, returns every checking public key as a parsed SSH key, in
    order. *)
Fixpoint parseCheckers (keys : list bytes)
    : list ssh.PublicKey * option error :=
  match keys with
  | [] => ([], None)
  | keyBytes :: rest =>
      match ParseAuthorizedKey keyBytes with
      | Err e => ([], trace.Wrap (Some e))
      | Ok key =>
          match parseCheckers rest with
          | (out, None) => (key :: out, None)
          | (_, Some e) => ([], Some e)
          end
      end
  end.

Definition Checkers (ca : services.CertAuthority)
    : list ssh.PublicKey * option error :=
  parseCheckers (services.CheckingKeys ca).

(** [AddHostSignersToCache]: the loop over [hostSigners]. *)
Fixpoint hostSigners_range (hostSigners : list services.CertAuthority)
    : M (option error) :=
  match hostSigners with
  | [] => ret None
  | hostSigner :: rest =>
      do err <- UpsertCertAuthority hostSigner;
      match err with
      | Some _ => ret (trace.Wrap None)
      | None => hostSigners_range rest
      end
  end.

(** [AddHostSignersToCache]: the CAs we trust are added to the database
    of seen CAs. *)
Definition AddHostSignersToCache (hostSigners : list services.CertAuthority)
    : M (option error) :=
  do err <- boltbk_New;
  match err with
  | Some _ => ret (trace.Wrap None)
  | None => hostSigners_range hostSigners
  end.

(** [for _, checker := range checkers]. *)
Fixpoint checkers_range (signatureKey : ssh.PublicKey)
    (checkers : list ssh.PublicKey) : bool :=
  match checkers with
  | [] => false
  | checker :: rest =>
      if sshutils.KeysEqual signatureKey checker then true
      else checkers_range signatureKey rest
  end.

(** [for i := range cas]. *)
Fixpoint cas_range (signatureKey : ssh.PublicKey)
    (cas : list services.CertAuthority) : option error :=
  match cas with
  | [] => trace.Errorf "no matching authority found"
  | ca :: rest =>
      let '(checkers, err) := Checkers ca in
      match err with
      | Some _ => trace.Wrap err
      | None =>
          if checkers_range signatureKey checkers then None
          else cas_range signatureKey rest
      end
  end.

(** [CheckHostSignature]: was the host key signed by one of the trusted
    certificate authorities?  [hostId] and [remote] are not read. *)
Definition CheckHostSignature (hostId : string) (remote : string)
    (key : ssh.PublicKey) : M (option error) :=
  match key with
  | ssh.PlainKey _ => ret (trace.Errorf "expected certificate")
  | ssh.Certificate _ signatureKey =>
      do err <- boltbk_New;
      match err with
      | Some _ => ret (trace.Wrap None)
      | None =>
          do (cas, err) <- GetCertAuthorities services.HostCA;
          match err with
          | Some _ => ret (trace.Wrap err)
          | None => ret (cas_range signatureKey cas)
          end
      end
  end.

End TrustCache.

(** *** Saving a key *)

Section SaveKey.
(** [json.Marshal] of a [Key], and what the operating system reports when
    the file called [name] is written, are parameters. *)
Variable json_Marshal : Key -> result bytes.
Variable WriteErr : string -> option error.

(** [ioutil.WriteFile(filepath.Join(getKeysDir(), name), data, 0666)]:
    the file is created, or the one there is truncated, and [data] is
    written.  A directory of that name cannot be written; a file that was
    there keeps its permissions, a new one can be read and removed. *)
Definition ioutil_WriteFile (name : string) (data : bytes) : M (option error) :=
  fun w =>
    match KeysDir w with
    | None => (Some notExist, w)
    | Some dir =>
        match WriteErr name with
        | Some e => (Some e, w)
        | None =>
            match dir !! name with
            | Some f =>
                if IsDir f then (Some (Failure "is a directory"), w)
                else
                  (None,
                   with_KeysDir
                     (Some (<[name := {| IsDir := false; Data := data;
                                         ReadErr := ReadErr f;
                                         RemoveErr := RemoveErr f |}]> dir))
                     w)
            | None =>
                (None,
                 with_KeysDir
                   (Some (<[name := {| IsDir := false; Data := data;
                                       ReadErr := None; RemoveErr := None |}]> dir))
                   w)
            end
        end
    end.

(** [saveKey(key, filepath.Join(getKeysDir(), name))]. *)
Definition saveKey (key : Key) (name : string) : M (option error) :=
  do err <- initKeysDir;
  match err with
  | Some _ => ret (trace.Wrap err)
  | None =>
      match json_Marshal key with
      | Err e => ret (trace.Wrap (Some e))
      | Ok data =>
          do err <- ioutil_WriteFile name data;
          match err with
          | Some _ => ret (trace.Wrap err)
          | None => ret None
          end
      end
  end.

End SaveKey.

End Code.

End client.

(** ** lib/config: the file configuration *)

(** [config.FileConfig] is declared outside the sources at hand; these are
    the fields [applyFileConfig] reads.  [Disabled] is the result of a
    section's [Disabled()] method; a nil map or slice is [None]. *)
Module config.

Record ConnectionRate : Type := {
  Period : Duration;
  Average : Z;
  Burst : Z
}.

Record ConnectionLimits : Type := {
  MaxConnections : Z;
  MaxUsers : Z;
  Rates : list ConnectionRate
}.

Record Log : Type := { Output : string; Severity : string }.

Record StorageBackend : Type := {
  Type_ : string;
  DirName : string;
  Peers : list string;
  Prefix : string
}.

Record CommandLabel : Type := {
  Name : string;
  Command : list string;
  CmdPeriod : Duration
}.

Module Auth.
Record t : Type := {
  Disabled : bool;
  ListenAddress : string;
  DomainName : string
}.
End Auth.

Module SSH.
Record t : Type := {
  Disabled : bool;
  ListenAddress : string;
  Labels : option (gmap string string);
  Commands : option (list CommandLabel)
}.
End SSH.

Module Proxy.
Record t : Type := {
  Disabled : bool;
  ListenAddress : string;
  WebAddr : string;
  KeyFile : string;
  CertFile : string
}.
End Proxy.

Record FileConfig : Type := {
  NodeName : string;
  AdvertiseIP : service.IP;
  AuthServers : list string;
  AuthToken : string;
  Storage : StorageBackend;
  Logger : Log;
  Limits : ConnectionLimits;
  Auth : Auth.t;
  SSH : SSH.t;
  Proxy : Proxy.t
}.

End config.

(** ** tool/teleport/configuration.go *)

Module main.

(** The state of the logrus logger: where it writes and at which level. *)
Inductive LogOutput := DefaultOutput | ToStderr | ToStdout | ToFile (path : string).
Inductive LogLevel := DefaultLevel | InfoLevel | ErrorLevel | DebugLevel | WarnLevel.

(** What [applyFileConfig] writes: the runtime configuration behind
    [cfg] and the logger. *)
Record State : Type := {
  cfg : service.Config;
  logOutput : LogOutput;
  logLevel : LogLevel
}.

Definition with_cfg v s := {| cfg := v; logOutput := logOutput s; logLevel := logLevel s |}.
Definition with_logOutput v s := {| cfg := cfg s; logOutput := v; logLevel := logLevel s |}.
Definition with_logLevel v s := {| cfg := cfg s; logOutput := logOutput s; logLevel := v |}.
Definition upd_cfg (f : service.Config -> service.Config) (s : State) : State :=
  with_cfg (f (cfg s)) s.

(** A stretch of a function that returns [error]: [Some e] is a
    [return e] that ends the function, [None] goes on to the next
    statement. *)
Definition Act : Type := State -> option error * State.
Definition seq (a b : Act) : Act :=
  fun s => match a s with
           | (Some e, s') => (Some e, s')
           | (None, s') => b s'
           end.
Definition assign (f : State -> State) : Act := fun s => (None, f s).
Definition when (c : bool) (a : Act) : Act := if c then a else assign id.
Definition fail (e : option error) : Act := fun s => (e, s).

Declare Scope act_scope.
Delimit Scope act_scope with act.
Infix ">>" := seq (at level 65, right associativity) : act_scope.
Local Open Scope act_scope.

(** [applyString]: [src] overwrites the target unless [src] is empty. *)
Definition applyString (src target : string) : bool * string :=
  if negb (String.eqb src "") then (true, src) else (false, target).

Definition quoted (s : string) : string := "'" +:+ s +:+ "'".

Section Collaborators.
(** Libraries and packages outside the sources at hand: parameters. *)
Context {tracelib : trace.Library}.
Variable ParseDuration : string -> option Duration.
Variable ParseAddr : string -> option utils.NetAddr.
Variable ParseHostPortAddr : string -> Z -> result utils.NetAddr.
Variable ParseLabelSpec : string -> result (gmap string string).
Variable marshalEtcdConfig : list string -> string -> string * option error.
Variable fileExists : string -> bool.
Variable os_Create : string -> option error.
Variable ToLower : string -> string.
Variables IsLoopback IsUnspecified IsMulticast : service.IP -> bool.
Variable IP_String : service.IP -> string.

(** [validateAdvertiseIP]. *)
Definition validateAdvertiseIP (advertiseIP : service.IP) : option error :=
  if IsLoopback advertiseIP || IsUnspecified advertiseIP || IsMulticast advertiseIP
  then Some (teleport.BadParameter "advertise-ip"
               ("unreachable advertise IP: " +:+ IP_String advertiseIP))
  else None.

(** The merge of the enabled flags and of the node name. *)
Definition applyRoles (fc : config.FileConfig) : Act :=
  when (config.Auth.Disabled (config.Auth fc))
    (assign (upd_cfg (service.upd_Auth (service.AuthConfig.with_Enabled false))))
  >> when (config.SSH.Disabled (config.SSH fc))
    (assign (upd_cfg (service.upd_SSH (service.SSHConfig.with_Enabled false))))
  >> when (config.Proxy.Disabled (config.Proxy fc))
    (assign (upd_cfg (service.upd_Proxy (service.ProxyConfig.with_Enabled false))))
  >> assign (upd_cfg (fun c =>
       service.with_Hostname (applyString (config.NodeName fc) (service.Hostname c)).2 c)).

(** The [advertise_ip] setting. *)
Definition applyAdvertiseIP (fc : config.FileConfig) : Act :=
  let advertiseIP := config.AdvertiseIP fc in
  match advertiseIP with
  | None => assign id
  | Some _ =>
      match validateAdvertiseIP advertiseIP with
      | Some err => fail (trace.Wrap (Some err))
      | None => assign (upd_cfg (service.with_AdvertiseIP advertiseIP))
      end
  end.

(** [for _, as := range fc.AuthServers]. *)
Fixpoint authServers_range (servers : list string) : Act :=
  match servers with
  | [] => assign id
  | as_ :: rest =>
      match ParseAddr as_ with
      | None =>
          fail (trace.Errorf ("cannot parse auth server address: " +:+ quoted as_))
      | Some addr =>
          assign (upd_cfg (fun c =>
            service.with_AuthServers (service.AuthServers c ++ [addr]) c))
          >> authServers_range rest
      end
  end.

Definition applyAuthServers (fc : config.FileConfig) : Act :=
  when (0 <? length (config.AuthServers fc))%nat
    (assign (upd_cfg (service.with_AuthServers []))
     >> authServers_range (config.AuthServers fc)).

Definition applyTokenAndDomain (fc : config.FileConfig) : Act :=
  assign (upd_cfg (fun c => (service.ApplyToken c (config.AuthToken fc)).2))
  >> assign (upd_cfg (service.upd_Auth
       (service.AuthConfig.with_DomainName (config.Auth.DomainName (config.Auth fc))))).

(** [switch fc.Storage.Type]. *)
Definition applyStorage (fc : config.FileConfig) : Act :=
  let st := config.Storage fc in
  if String.eqb (config.Type_ st) teleport.BoltBackendType then
    assign (upd_cfg (fun c => service.ConfigureBolt c (config.DirName st)))
  else if String.eqb (config.Type_ st) teleport.ETCDBackendType then
    fun s =>
      let '(err, c) :=
        service.ConfigureETCD marshalEtcdConfig (cfg s)
          (config.DirName st) (config.Peers st) (config.Prefix st) in
      match err with
      | Some _ => (trace.Wrap err, with_cfg c s)
      | None => (None, with_cfg c s)
      end
  else if String.eqb (config.Type_ st) "" then assign id
  else
    fail (trace.Wrap (Some (teleport.BadParameter "storage"
            ("unsupported storage type: " +:+ quoted (config.Type_ st))))).

Definition oneOf (s : string) (l : list string) : bool :=
  existsb (String.eqb s) l.

(** The logger settings. *)
Definition applyLogOutput (fc : config.FileConfig) : Act :=
  let out := config.Output (config.Logger fc) in
  if String.eqb out "" then assign id
  else if oneOf out ["stderr"; "error"; "2"] then assign (with_logOutput ToStderr)
  else if oneOf out ["stdout"; "out"; "1"] then assign (with_logOutput ToStdout)
  else
(* assume it's a file path *)
match os_Create out with
| Some err => fail (trace.Wrap (Some err))
| None => assign (with_logOutput (ToFile out))
end.

Definition applyLogSeverity (fc : config.FileConfig) : Act :=
  let sev := ToLower (config.Severity (config.Logger fc)) in
  if String.eqb sev "" then assign id
  else if String.eqb sev "info" then assign (with_logLevel InfoLevel)
  else if oneOf sev ["err"; "error"] then assign (with_logLevel ErrorLevel)
  else if String.eqb sev "debug" then assign (with_logLevel DebugLevel)
  else if oneOf sev ["warn"; "warning"] then assign (with_logLevel WarnLevel)
  else
    fail (trace.Errorf ("unsupported logger severity: "
            +:+ quoted (config.Severity (config.Logger fc)))).

(** [for _, rate := range fc.Limits.Rates]: the rates appended to
    [l.Rates]. *)
Definition appendRates (rates : list config.ConnectionRate)
    (l : limiter.LimiterConfig) : limiter.LimiterConfig :=
  fold_left
    (fun l rate =>
       {| limiter.Rates :=
            limiter.Rates l ++
              [{| limiter.Period := config.Period rate;
                  limiter.Average := config.Average rate;
                  limiter.Burst := config.Burst rate |}];
          limiter.MaxConnections := limiter.MaxConnections l;
          limiter.MaxNumberOfUsers := limiter.MaxNumberOfUsers l |})
    rates l.

(** The body of [for _, l := range limiters]: the value the loop
    variable [l] holds when the body ends. *)
Definition limiter_body (fc : config.FileConfig) (l : limiter.LimiterConfig)
    : limiter.LimiterConfig :=
  let limits := config.Limits fc in
  let l :=
    if (0 <? config.MaxConnections limits)%Z
    then {| limiter.Rates := limiter.Rates l;
            limiter.MaxConnections := config.MaxConnections limits;
            limiter.MaxNumberOfUsers := limiter.MaxNumberOfUsers l |}
    else l in
  let l :=
    if (0 <? config.MaxUsers limits)%Z
    then {| limiter.Rates := limiter.Rates l;
            limiter.MaxConnections := limiter.MaxConnections l;
            limiter.MaxNumberOfUsers := config.MaxUsers limits |}
    else l in
  appendRates (config.Rates limits) l.

(** [for _, l := range limiters]: in each round the loop variable [l]
    receives a copy of the next element of [limiters] (a
    [limiter.LimiterConfig] struct, not a pointer to one), the body
    assigns to the fields of [l], and the round ends; neither the slice
    nor [cfg] is assigned. *)
Fixpoint limiters_range (fc : config.FileConfig)
    (limiters : list limiter.LimiterConfig) (s : State) : State :=
  match limiters with
  | [] => s
  | l :: rest =>
      let l := limiter_body fc l in
      limiters_range fc rest s
  end.

(** The connection throttling: [limiters] is a slice of three struct
    values copied out of [cfg]. *)
Definition applyLimits (fc : config.FileConfig) : Act :=
  fun s =>
    let limiters :=
      [ service.SSHConfig.Limiter (service.SSH (cfg s));
        service.AuthConfig.Limiter (service.Auth (cfg s));
        service.ProxyConfig.Limiter (service.Proxy (cfg s)) ] in
    (None, limiters_range fc limiters s).

(** [if spec != "" { addr, err := utils.ParseHostPortAddr(spec, port);
    ...; target = *addr }]. *)
Definition applyAddr (spec : string) (port : Z)
    (set : utils.NetAddr -> service.Config -> service.Config) : Act :=
  when (negb (String.eqb spec ""))
    (match ParseHostPortAddr spec port with
     | Err err => fail (trace.Wrap (Some err))
     | Ok addr => assign (upd_cfg (set addr))
     end).

(** [if path != "" { if !fileExists(path) { return ... }; target = path }]. *)
Definition applyPath (path what : string)
    (set : string -> service.Config -> service.Config) : Act :=
  when (negb (String.eqb path ""))
    (if negb (fileExists path)
     then fail (trace.Errorf ("https " +:+ what +:+ " does not exist: " +:+ path))
     else assign (upd_cfg (set path))).

(** The [proxy_service] section. *)
Definition applyProxy (fc : config.FileConfig) : Act :=
  let p := config.Proxy fc in
  applyAddr (config.Proxy.ListenAddress p) defaults.SSHProxyListenPort
    (fun a => service.upd_Proxy (service.ProxyConfig.with_SSHAddr a))
  >> applyAddr (config.Proxy.WebAddr p) defaults.HTTPListenPort
    (fun a => service.upd_Proxy (service.ProxyConfig.with_WebAddr a))
  >> applyPath (config.Proxy.KeyFile p) "key"
    (fun f => service.upd_Proxy (service.ProxyConfig.with_TLSKey f))
  >> applyPath (config.Proxy.CertFile p) "cert"
    (fun f => service.upd_Proxy (service.ProxyConfig.with_TLSCert f)).

(** The [auth_service] section. *)
Definition applyAuth (fc : config.FileConfig) : Act :=
  applyAddr (config.Auth.ListenAddress (config.Auth fc)) defaults.AuthListenPort
    (fun a => service.upd_Auth (service.AuthConfig.with_SSHAddr a)).

(** [for _, cmdLabel := range fc.SSH.Commands]. *)
Definition commandLabels (cmds : list config.CommandLabel)
    : gmap string services.CommandLabel :=
  fold_left
    (fun m cmdLabel =>
       <[config.Name cmdLabel :=
           {| services.Period := config.CmdPeriod cmdLabel;
              services.Command := config.Command cmdLabel;
              services.Result := "" |}]> m)
    cmds ∅.

(** The [ssh_service] section. *)
Definition applySSH (fc : config.FileConfig) : Act :=
  let sc := config.SSH fc in
  applyAddr (config.SSH.ListenAddress sc) defaults.SSHServerListenPort
    (fun a => service.upd_SSH (service.SSHConfig.with_Addr a))
  >> match config.SSH.Labels sc with
     | None => assign id
     | Some labels =>
         assign (upd_cfg (service.upd_SSH (service.SSHConfig.with_Labels (Some labels))))
     end
  >> match config.SSH.Commands sc with
     | None => assign id
     | Some cmds =>
         assign (upd_cfg (service.upd_SSH
           (service.SSHConfig.with_CmdLabels (Some (commandLabels cmds)))))
     end.

(** [applyFileConfig]: the configuration of a YAML file applied to the
    runtime configuration.  No file ([fc == nil]) is no problem. *)
Definition applyFileConfig (fc : option config.FileConfig) : Act :=
  match fc with
  | None => fail None
  | Some fc =>
      applyRoles fc
      >> applyAdvertiseIP fc
      >> applyAuthServers fc
      >> applyTokenAndDomain fc
      >> applyStorage fc
      >> applyLogOutput fc
      >> applyLogSeverity fc
      >> applyLimits fc
      >> applyProxy fc
      >> applyAuth fc
      >> applySSH fc
  end.

(** The closure handed to [strings.FieldsFunc]: [openQuote] is its
    captured variable, flipped at every double quote; a space outside
    quotes separates. *)
Definition quoteAwareSpace (openQuote : bool) (c : Z) : bool * bool :=
  let openQuote := if (c =? 34)%Z then negb openQuote else openQuote in
  (unicode.IsSpace c && negb openQuote, openQuote).

(** [isCmdLabelSpec]: a command label spec looks like
    [[time_duration:command param1 param2 ...]].  [Panics] is the index
    out of range in [strings.FieldsFunc]. *)
Definition isCmdLabelSpec (spec : string)
    : outcome (option services.CommandLabel * option error) :=
  if (5 <? len spec)%nat
     && bool_decide (byte_at spec 0 = Some "["%char)
     && bool_decide (byte_at spec (len spec - 1) = Some "]"%char)
  then
    let invalidSpecError :=
      teleport.BadParameter "label"
        ("invalid command label spec: " +:+ quoted spec) in
    let spec := gostrings.Trim spec "[]" in
    let idx := gostrings.IndexRune spec 58 in
    if (idx <? 0)%Z then Returns (None, trace.Wrap (Some invalidSpecError))
    else
      let periodSpec := slice_to spec (Z.to_nat idx) in
      match ParseDuration periodSpec with
      | None => Returns (None, trace.Wrap (Some invalidSpecError))
      | Some period =>
          let cmdSpec := slice_from spec (Z.to_nat (idx + 1)) in
          if (len cmdSpec <? 1)%nat
          then Returns (None, trace.Wrap (Some invalidSpecError))
          else
            match gostrings.FieldsFunc cmdSpec quoteAwareSpace false with
            | Panics => Panics
            | Returns command =>
                Returns
                  (Some {| services.Period := period;
                           services.Command := command;
                           services.Result := "" |},
                   None)
            end
      end
  else
(* not a valid spec *)
Returns (None, None).

(** [for key, value := range lmap] in [parseLabels], in the order the
    map is walked. *)
Fixpoint labels_range (lmap : list (string * string))
    (sshConf : service.SSHConfig.t)
    : outcome (option error * service.SSHConfig.t) :=
  match lmap with
  | [] => Returns (None, sshConf)
  | (key, value) :: rest =>
      match isCmdLabelSpec value with
      | Panics => Panics
      | Returns (cmdLabel, err) =>
          match err with
          | Some _ => Returns (trace.Wrap err, sshConf)
          | None =>
              let sshConf :=
                match cmdLabel with
                | Some cl =>
                    service.SSHConfig.with_CmdLabels
                      (Some (<[key := cl]> (default ∅ (service.SSHConfig.CmdLabels sshConf))))
                      sshConf
                | None =>
                    service.SSHConfig.with_Labels
                      (Some (<[key := value]> (default ∅ (service.SSHConfig.Labels sshConf))))
                      sshConf
                end in
              labels_range rest sshConf
          end
      end
  end.

(** [parseLabels]: the value of the [--labels] flag populates
    [sshConf.Labels] and [sshConf.CmdLabels]. *)
Definition parseLabels (spec : string) (sshConf : service.SSHConfig.t)
    : outcome (option error * service.SSHConfig.t) :=
  if String.eqb spec "" then Returns (None, sshConf)
  else
    match ParseLabelSpec spec with
    | Err err => Returns (trace.Wrap (Some err), sshConf)
    | Ok lmap =>
        let sshConf :=
          if (0 <? size lmap)%nat
          then service.SSHConfig.with_Labels (Some ∅)
                 (service.SSHConfig.with_CmdLabels (Some ∅) sshConf)
          else sshConf in
        labels_range (map_to_list lmap) sshConf
    end.

End Collaborators.

(** [CommandLineFlags]: the values of the command line flags. *)
Record CommandLineFlags : Type := {
  NodeName : string;        (* --name *)
  AuthServerAddr : string;  (* --auth-server *)
  AuthToken : string;       (* --token *)
  ListenIP : service.IP;    (* --listen-ip *)
  AdvertiseIP : service.IP; (* --advertise-ip *)
  ConfigFile : string;      (* --config *)
  Roles : string;           (* --roles *)
  Debug : bool;             (* -d *)
  Labels : string           (* --labels *)
}.

(** [DirsToLookForWebAssets]. *)
Definition DirsToLookForWebAssets : list string :=
  ["/usr/local/share/teleport"; "/usr/share/teleport"; "/opt/teleport"].

Section Configure.
(** Libraries and packages outside the sources at hand: parameters.
    [exeDir] is [filepath.Abs(filepath.Dir(os.Args[0]))], [ReadFromFile] is
    [config.ReadFromFile], [InitLoggerDebug] is what
    [utils.InitLoggerDebug()] does to the logger. *)
Context {tracelib : trace.Library}.
Variable ParseDuration : string -> option Duration.
Variable ParseAddr : string -> option utils.NetAddr.
Variable ParseHostPortAddr : string -> Z -> result utils.NetAddr.
Variable ParseLabelSpec : string -> result (gmap string string).
Variable marshalEtcdConfig : list string -> string -> string * option error.
Variable os_Stat : string -> option error.
Variable os_IsNotExist : error -> bool.
Variable os_Create : string -> option error.
Variable os_Hostname : string * option error.
Variable ToLower : string -> string.
Variables IsLoopback IsUnspecified IsMulticast : service.IP -> bool.
Variable IP_String : service.IP -> string.
Variable ReadFromFile : string -> option config.FileConfig * option error.
Variable InitLoggerDebug : LogOutput * LogLevel -> LogOutput * LogLevel.
Variable SplitHostPort : string -> string * string * option error.
Variable JoinHostPort : string -> string -> string.
Variable exeDir : result string.
Variable Join : string -> string -> string.

(** [fileExists]: only a not-exist error of [os.Stat] says that the file
    is not there. *)
Definition fileExists (fp : string) : bool :=
  match os_Stat fp with
  | Some err => if os_IsNotExist err then false else true
  | None => true
  end.

(** [readConfigFile]: /etc/teleport.yaml, or what [--config] names; the
    log lines are not kept. *)
Definition readConfigFile (cliConfigPath : string)
    : option config.FileConfig * option error :=
  let explicit := negb (String.eqb cliConfigPath "") in
  let configFilePath :=
    if explicit then cliConfigPath else defaults.ConfigFilePath in
  (* --config tells us to use a specific conf. file *)
  if explicit && negb (fileExists configFilePath)
  then (None, trace.Errorf ("file not found: " +:+ configFilePath))
  (* default config doesn't exist? quietly return *)
  else if negb (fileExists configFilePath) then (None, None)
  else ReadFromFile configFilePath.

(** [for _, role := range strings.Split(roles, ",")]. *)
Fixpoint validateRoles_range (roles : list string) : option error :=
  match roles with
  | [] => None
  | role :: rest =>
      if oneOf role [defaults.RoleAuthService; defaults.RoleNode; defaults.RoleProxy]
      then validateRoles_range rest
      else trace.Errorf ("unknown role: " +:+ quoted role)
  end.

(** [validateRoles]: is the value passed to [--roles] valid? *)
Definition validateRoles (roles : string) : option error :=
  validateRoles_range (gostrings.Split roles ","%char).

(** [replaceHost]: the host name of the address replaced, the port kept;
    the log line about an address that does not split is not kept. *)
Definition replaceHost (addr : utils.NetAddr) (newHost : string) : utils.NetAddr :=
  let '(_, port, err) := SplitHostPort (utils.Addr addr) in
  {| utils.AddrNetwork := utils.AddrNetwork addr;
     utils.Addr := JoinHostPort newHost port |}.

(** A pointer to an address field of the configuration: how it is read
    and how it is assigned. *)
Definition AddrPtr : Type :=
  (service.Config -> utils.NetAddr)
  * (utils.NetAddr -> service.Config -> service.Config).

(** [listeningAddresses] of [applyListenIP]: [&cfg.Auth.SSHAddr] is there
    twice. *)
Definition listeningAddresses : list AddrPtr :=
  [ (fun c => service.AuthConfig.SSHAddr (service.Auth c),
     fun a => service.upd_Auth (service.AuthConfig.with_SSHAddr a));
    (fun c => service.AuthConfig.SSHAddr (service.Auth c),
     fun a => service.upd_Auth (service.AuthConfig.with_SSHAddr a));
    (fun c => service.ProxyConfig.SSHAddr (service.Proxy c),
     fun a => service.upd_Proxy (service.ProxyConfig.with_SSHAddr a));
    (fun c => service.ProxyConfig.WebAddr (service.Proxy c),
     fun a => service.upd_Proxy (service.ProxyConfig.with_WebAddr a));
    (fun c => service.SSHConfig.Addr (service.SSH c),
     fun a => service.upd_SSH (service.SSHConfig.with_Addr a));
    (fun c => service.ProxyConfig.ReverseTunnelListenAddr (service.Proxy c),
     fun a => service.upd_Proxy (service.ProxyConfig.with_ReverseTunnelListenAddr a)) ].

(** [for _, addr := range listeningAddresses]. *)
Fixpoint listenIP_range (ip : service.IP) (addrs : list AddrPtr)
    (c : service.Config) : service.Config :=
  match addrs with
  | [] => c
  | (get, set) :: rest =>
      listenIP_range ip rest (set (replaceHost (get c) (IP_String ip)) c)
  end.

(** [applyListenIP]: the listen addresses of all services get the given
    IP. *)
Definition applyListenIP (ip : service.IP) (c : service.Config) : service.Config :=
  listenIP_range ip listeningAddresses c.

(** [locateAssets]: does [dirPath] contain the web assets? *)
Fixpoint locateAssets (dirPath : string) (assetsToCheck : list string) : bool :=
  match assetsToCheck with
  | [] => true
  | af :: rest =>
      if negb (fileExists (Join dirPath af)) then false
      else locateAssets dirPath rest
  end.

(** [for _, dir := range DirsToLookForWebAssets]. *)
Fixpoint assetDirs_range (dirs assetsToCheck : list string) : option string :=
  match dirs with
  | [] => None
  | dir :: rest =>
      if locateAssets dir assetsToCheck then Some dir
      else assetDirs_range rest assetsToCheck
  end.

(** [locateWebAssets]: the full path of the web assets directory. *)
Definition locateWebAssets : string * option error :=
  let assetsToCheck := ["index.html"; "/app/app.js"] in
  match exeDir with
  | Err err => ("", trace.Wrap (Some err))
  | Ok exeDir =>
      (* check the directory where teleport binary is located first *)
      if locateAssets exeDir assetsToCheck then (exeDir, None)
      else
        (* look in other possible locations *)
        match assetDirs_range DirsToLookForWebAssets assetsToCheck with
        | Some dir => (dir, None)
        | None =>
            ("", trace.Errorf ("Cannot find web assets. Unable to locate "
                                 +:+ Join exeDir "index.html"))
        end
  end.

(** The [-d] flag. *)
Definition applyDebug (clf : CommandLineFlags) (s : State) : State :=
  if Debug clf then
    let s := upd_cfg (service.with_Console service.Discard) s in
    let '(output, level) := InitLoggerDebug (logOutput s, logLevel s) in
    with_logLevel level (with_logOutput output s)
  else s.

(** [strings.Index(clf.Roles, role) != -1]. *)
Definition named (roles role : string) : bool :=
  negb (gostrings.Index roles role =? -1)%Z.

(** The [--roles] flag. *)
Definition applyRolesFlag (clf : CommandLineFlags) : Act :=
  when (negb (String.eqb (Roles clf) ""))
    (match validateRoles (Roles clf) with
     | Some err => fail (trace.Wrap (Some err))
     | None =>
         assign (upd_cfg (service.upd_SSH
           (service.SSHConfig.with_Enabled (named (Roles clf) defaults.RoleNode))))
         >> assign (upd_cfg (service.upd_Auth
           (service.AuthConfig.with_Enabled (named (Roles clf) defaults.RoleAuthService))))
         >> assign (upd_cfg (service.upd_Proxy
           (service.ProxyConfig.with_Enabled (named (Roles clf) defaults.RoleProxy))))
         >> assign (upd_cfg (fun c => service.upd_ReverseTunnel
           (service.ReverseTunnelConfig.with_Enabled
              (service.ProxyConfig.Enabled (service.Proxy c))) c))
     end).

(** The [--auth-server] flag. *)
Definition applyAuthServerFlag (clf : CommandLineFlags) : Act :=
  when (negb (String.eqb (AuthServerAddr clf) ""))
    (assign (upd_cfg (fun c =>
       if service.AuthConfig.Enabled (service.Auth c)
       then service.upd_Auth (service.AuthConfig.with_Enabled false) c
       else c))
     >> match ParseHostPortAddr (AuthServerAddr clf) defaults.AuthListenPort with
        | Err err => fail (trace.Wrap (Some err))
        | Ok addr => assign (upd_cfg (service.with_AuthServers [addr]))
        end).

(** The [--name], [--token] and [--listen-ip] flags. *)
Definition applyNameTokenListenIP (clf : CommandLineFlags) (c : service.Config)
    : service.Config :=
  let c :=
    if negb (String.eqb (NodeName clf) "")
    then service.with_Hostname (NodeName clf) c else c in
  let c := (service.ApplyToken c (AuthToken clf)).2 in
  match ListenIP clf with
  | Some _ => applyListenIP (ListenIP clf) c
  | None => c
  end.

(** The [--advertise-ip] flag. *)
Definition applyAdvertiseIPFlag (clf : CommandLineFlags) : Act :=
  match AdvertiseIP clf with
  | None => assign id
  | Some _ =>
      match validateAdvertiseIP IsLoopback IsUnspecified IsMulticast IP_String
              (AdvertiseIP clf) with
      | Some err => fail (trace.Wrap (Some err))
      | None => assign (upd_cfg (service.with_AdvertiseIP (AdvertiseIP clf)))
      end
  end.

(** The web assets are located if the web proxy is enabled. *)
Definition applyWebAssets : Act :=
  fun s =>
    if service.ProxyConfig.Enabled (service.Proxy (cfg s)) then
      let '(dir, err) := locateWebAssets in
      let s := upd_cfg (service.upd_Proxy (service.ProxyConfig.with_AssetsDir dir)) s in
      match err with
      | Some _ => (trace.Wrap err, s)
      | None => (None, s)
      end
    else (None, s).

(** [configure]: the command line arguments merged with what is in the
    configuration file, the command line taking precedence.  The result is
    the pair [(cfg, err)] the function returns, [cfg] being nil ([None]) or
    the configuration built so far, and the state of the logger; [Panics]
    is the panic of [MakeDefaultConfig] or of [parseLabels].  [output] and
    [level] are the state of the logger at the call. *)
Definition configure (clf : CommandLineFlags) (output : LogOutput)
    (level : LogLevel)
    : outcome ((option service.Config * option error) * State) :=
  (* create the default configuration *)
  match service.MakeDefaultConfig ParseAddr os_Hostname with
  | None => Panics
  | Some c =>
  let s := {| cfg := c; logOutput := output; logLevel := level |} in
  (* load /etc/teleport.yaml and apply its values *)
  let '(fileConf, err) := readConfigFile (ConfigFile clf) in
  match err with
  | Some _ => Returns ((None, trace.Wrap err), s)
  | None =>
  match applyFileConfig ParseAddr ParseHostPortAddr marshalEtcdConfig
          fileExists os_Create ToLower IsLoopback IsUnspecified
          IsMulticast IP_String fileConf s with
  | (Some err, s) => Returns ((None, trace.Wrap (Some err)), s)
  | (None, s) =>
  let s := applyDebug clf s in
  match (applyRolesFlag clf >> applyAuthServerFlag clf) s with
  | (Some err, s) => Returns ((Some (cfg s), Some err), s)
  | (None, s) =>
  let s := upd_cfg (applyNameTokenListenIP clf) s in
  match applyAdvertiseIPFlag clf s with
  | (Some err, s) => Returns ((None, Some err), s)
  | (None, s) =>
  (* apply --labels flag: parseLabels writes through &cfg.SSH *)
  match parseLabels ParseDuration ParseLabelSpec (Labels clf)
          (service.SSH (cfg s)) with
  | Panics => Panics
  | Returns (err, sshConf) =>
  let s := upd_cfg (service.with_SSH sshConf) s in
  match err with
  | Some _ => Returns ((None, trace.Wrap err), s)
  | None =>
  (* locate web assets if web proxy is enabled *)
  match applyWebAssets s with
  | (Some err, s) => Returns ((None, Some err), s)
  | (None, s) => Returns ((Some (cfg s), None), s)
  end end end end end end end end.

End Configure.

End main.

(** ** Collaborators for concrete runs

    Simple stand-ins for the libraries the code above takes as parameters,
    used to run it on concrete inputs. *)

Module Samples.

(** The trace library in which [Wrap] passes nil through. *)
Definition library : trace.Library := {| trace.WrapNil := None |}.

Definition isDigit (c : ascii) : bool :=
  (48 <=? byteZ c)%Z && (byteZ c <=? 57)%Z.

Definition unitOf (u : string) : option Duration :=
  if String.eqb u "ns" then Some time.Nanosecond
  else if String.eqb u "us" then Some time.Microsecond
  else if String.eqb u "ms" then Some time.Millisecond
  else if String.eqb u "s" then Some time.Second
  else if String.eqb u "m" then Some time.Minute
  else if String.eqb u "h" then Some time.Hour
  else None.

(** A sequence of decimal numbers, each followed by a unit: [total] sums
    the terms read, [num] is the number being read and [unit_] the unit
    letters after it. *)
Fixpoint durationTerms (s : string) (total : Z) (num : option Z)
    (unit_ : string) : option Z :=
  match s with
  | EmptyString =>
      match num with
      | None => None
      | Some v => m ← unitOf unit_; Some (total + v * m)%Z
      end
  | String c rest =>
      if isDigit c then
        let d := (byteZ c - 48)%Z in
        match num with
        | None => durationTerms rest total (Some d) ""
        | Some v =>
            if String.eqb unit_ ""
            then durationTerms rest total (Some (10 * v + d)%Z) ""
            else m ← unitOf unit_;
                 durationTerms rest (total + v * m)%Z (Some d) ""
        end
      else
        match num with
        | None => None
        | Some _ => durationTerms rest total num (unit_ +:+ String c "")
        end
  end.

(** The whole-number part of the syntax of [time.ParseDuration]: an
    optional sign, then ["0"] or terms such as ["1h30m"], within the range
    of an [int64]; a string with a fraction is not read. *)
Definition ParseDuration (s : string) : option Duration :=
  let '(neg, body) :=
    match s with
    | String "-" rest => (true, rest)
    | String "+" rest => (false, rest)
    | _ => (false, s)
    end in
  if String.eqb body "0" then Some 0%Z
  else
    d ← durationTerms body 0 None "";
    if (d <=? 9223372036854775807)%Z
    then Some (if neg then (- d)%Z else d)
    else None.

(** An address parser that reads [tcp://host:port]. *)
Definition ParseAddr (a : string) : option utils.NetAddr :=
  if gostrings.HasPrefix a "tcp://"
  then Some {| utils.AddrNetwork := "tcp"; utils.Addr := slice_from a 6 |}
  else None.

(** A key parser: no key is found in an empty input, any other input is
    taken as the encoding of a plain key, or, when it starts with a zero
    byte, of a certificate signed by the key the rest encodes. *)
Definition ParseAuthorizedKey (b : bytes) : result ssh.PublicKey :=
  match b with
  | [] => Err (Failure "ssh: no key found")
  | Byte.x00 :: signer => Ok (ssh.Certificate b (ssh.PlainKey signer))
  | _ => Ok (ssh.PlainKey b)
  end.

Definition ParseRawPrivateKey (b : bytes) : result ssh.PrivateKey :=
  match b with
  | [] => Err (Failure "ssh: no key found")
  | _ => Ok (ssh.RawPrivateKey b)
  end.

(** A [Key] decoder: the first byte is the length of the private key,
    which follows; the next byte is the deadline in seconds; the rest is
    the certificate. *)
Definition json_Unmarshal (b : bytes) : result client.Key :=
  match b with
  | n :: rest =>
      let k := N.to_nat (Byte.to_N n) in
      match drop k rest with
      | d :: cert =>
          Ok {| client.Priv := take k rest; client.Cert := cert;
                client.Deadline := (Z.of_N (Byte.to_N d) * time.Second)%Z |}
      | [] => Err (Failure "unexpected end of JSON input")
      end
  | [] => Err (Failure "unexpected end of JSON input")
  end.

End Samples.

(** ** Notions of the specification *)

(** Modelled from the spec: the certificate issuance of the Auth server is
    not among the sources at hand; a requested TTL is clamped to
    [[MinCertDuration, MaxCertDuration]]. *)
Definition clamp (ttl lo hi : Duration) : Duration := Z.max lo (Z.min ttl hi).

(** Modelled from the spec: the abstract error kinds of its section on
    error handling. *)
Inductive ErrorKind : Type :=
  | KindBadParameter | KindNotFound | KindAlreadyExists | KindAccessDenied
  | KindCompareFailed | KindUnknownAuthority | KindInternal.

(** The kind an error of this code carries: that of the typed error at the
    bottom of its wrappers.  The one typed error these sources build is
    [teleport.BadParameter]; a [trace.Errorf] message and a collaborator's
    failure are untyped. *)
Definition kindOf (e : error) : option ErrorKind :=
  match trace.Unwrap e with
  | BadParameterError _ _ => Some KindBadParameter
  | _ => None
  end.

(** [cfg] with the three tokens replaced and every other field as it
    was. *)
Definition withTokens (cfg : service.Config) (t : string) : service.Config :=
  let ssh := service.SSH cfg in
  let auth := service.Auth cfg in
  let proxy := service.Proxy cfg in
  {| service.DataDir := service.DataDir cfg;
     service.Hostname := service.Hostname cfg;
     service.AuthServers := service.AuthServers cfg;
     service.AdvertiseIP := service.AdvertiseIP cfg;
     service.SSH :=
       {| service.SSHConfig.Enabled := service.SSHConfig.Enabled ssh;
          service.SSHConfig.Token := t;
          service.SSHConfig.Addr := service.SSHConfig.Addr ssh;
          service.SSHConfig.Shell := service.SSHConfig.Shell ssh;
          service.SSHConfig.Limiter := service.SSHConfig.Limiter ssh;
          service.SSHConfig.Labels := service.SSHConfig.Labels ssh;
          service.SSHConfig.CmdLabels := service.SSHConfig.CmdLabels ssh |};
     service.Auth :=
       {| service.AuthConfig.Enabled := service.AuthConfig.Enabled auth;
          service.AuthConfig.SSHAddr := service.AuthConfig.SSHAddr auth;
          service.AuthConfig.Token := t;
          service.AuthConfig.SecretKey := service.AuthConfig.SecretKey auth;
          service.AuthConfig.AllowedTokens := service.AuthConfig.AllowedTokens auth;
          service.AuthConfig.TrustedAuthorities :=
            service.AuthConfig.TrustedAuthorities auth;
          service.AuthConfig.DomainName := service.AuthConfig.DomainName auth;
          service.AuthConfig.UserCA := service.AuthConfig.UserCA auth;
          service.AuthConfig.HostCA := service.AuthConfig.HostCA auth;
          service.AuthConfig.KeysBackend := service.AuthConfig.KeysBackend auth;
          service.AuthConfig.EventsBackend := service.AuthConfig.EventsBackend auth;
          service.AuthConfig.RecordsBackend := service.AuthConfig.RecordsBackend auth;
          service.AuthConfig.Limiter := service.AuthConfig.Limiter auth |};
     service.ReverseTunnel := service.ReverseTunnel cfg;
     service.Proxy :=
       {| service.ProxyConfig.Enabled := service.ProxyConfig.Enabled proxy;
          service.ProxyConfig.Token := t;
          service.ProxyConfig.ReverseTunnelListenAddr :=
            service.ProxyConfig.ReverseTunnelListenAddr proxy;
          service.ProxyConfig.WebAddr := service.ProxyConfig.WebAddr proxy;
          service.ProxyConfig.SSHAddr := service.ProxyConfig.SSHAddr proxy;
          service.ProxyConfig.AssetsDir := service.ProxyConfig.AssetsDir proxy;
          service.ProxyConfig.TLSKey := service.ProxyConfig.TLSKey proxy;
          service.ProxyConfig.TLSCert := service.ProxyConfig.TLSCert proxy;
          service.ProxyConfig.Limiter := service.ProxyConfig.Limiter proxy |};
     service.HostUUID := service.HostUUID cfg;
     service.Console := service.Console cfg |}.

(** ** Concrete inputs *)

Module Inputs.

(** The zero [config.FileConfig], and one that only sets connection
    limits: at most 5 connections, at most 7 users, and one rate. *)
Definition emptyFileConfig : config.FileConfig :=
  {| config.NodeName := ""; config.AdvertiseIP := None;
     config.AuthServers := []; config.AuthToken := "";
     config.Storage := {| config.Type_ := ""; config.DirName := "";
                          config.Peers := []; config.Prefix := "" |};
     config.Logger := {| config.Output := ""; config.Severity := "" |};
     config.Limits := {| config.MaxConnections := 0; config.MaxUsers := 0;
                         config.Rates := [] |};
     config.Auth := {| config.Auth.Disabled := false;
                       config.Auth.ListenAddress := "";
                       config.Auth.DomainName := "" |};
     config.SSH := {| config.SSH.Disabled := false;
                      config.SSH.ListenAddress := "";
                      config.SSH.Labels := None;
                      config.SSH.Commands := None |};
     config.Proxy := {| config.Proxy.Disabled := false;
                        config.Proxy.ListenAddress := "";
                        config.Proxy.WebAddr := ""; config.Proxy.KeyFile := "";
                        config.Proxy.CertFile := "" |} |}.

Definition oneRate : config.ConnectionRate :=
  {| config.Period := time.Second; config.Average := 10; config.Burst := 20 |}.

Definition limitsFileConfig : config.FileConfig :=
  {| config.NodeName := ""; config.AdvertiseIP := None;
     config.AuthServers := []; config.AuthToken := "";
     config.Storage := config.Storage emptyFileConfig;
     config.Logger := config.Logger emptyFileConfig;
     config.Limits := {| config.MaxConnections := 5; config.MaxUsers := 7;
                         config.Rates := [oneRate] |};
     config.Auth := config.Auth emptyFileConfig;
     config.SSH := config.SSH emptyFileConfig;
     config.Proxy := config.Proxy emptyFileConfig |}.

(** The configuration [MakeDefaultConfig] builds on a host called
    [node-1], and the state [configure] hands to [applyFileConfig]. *)
Definition defaultConfig : service.Config :=
  default service.zeroConfig
    (service.MakeDefaultConfig Samples.ParseAddr ("node-1", None)).

Definition defaultState : main.State :=
  {| main.cfg := defaultConfig;
     main.logOutput := main.DefaultOutput;
     main.logLevel := main.DefaultLevel |}.

(** [applyFileConfig] with collaborators that are not reached on these
    inputs. *)
Definition applyFileConfig `{!trace.Library}
    : option config.FileConfig → main.Act :=
  main.applyFileConfig Samples.ParseAddr
    (fun _ _ => Err (Failure "address"))
    (fun _ _ => ("", Some (Failure "json")))
    (fun _ => true) (fun _ => None) id
    (fun _ => false) (fun _ => false) (fun _ => false) (fun _ => "").

End Inputs.

(** ** Notions for the trust cache *)

(** The host authorities of the trust cache, in the order the CA service
    lists them. *)
Definition hostAuthorities (w : client.World) : list services.CertAuthority :=
  filter (fun a => services.Type_ a = services.HostCA)
    (client.Authorities (client.Trust w)).

(** [sig] is byte-equal to one of [ca]'s checking keys, all of which
    parse. *)
Definition signedBy `{!trace.Library} (ParseAuthorizedKey : bytes → result ssh.PublicKey)
    (sig : ssh.PublicKey) (ca : services.CertAuthority) : Prop :=
  ∃ checkers checker,
    client.Checkers ParseAuthorizedKey ca = (checkers, None)
    ∧ checker ∈ checkers
    ∧ ssh.Marshal sig = ssh.Marshal checker.

(** All checking keys of [ca] parse. *)
Definition checkersParse `{!trace.Library} (ParseAuthorizedKey : bytes → result ssh.PublicKey)
    (ca : services.CertAuthority) : Prop :=
  (client.Checkers ParseAuthorizedKey ca).2 = None.

Module TrustInputs.

Definition keyA : bytes := [Byte.x01; Byte.x0a].
Definition keyB : bytes := [Byte.x02; Byte.x0b].

(** A host certificate signed by [keyA], in the encoding
    [Samples.ParseAuthorizedKey] reads. *)
Definition certA : ssh.PublicKey :=
  ssh.Certificate (Byte.x00 :: keyA) (ssh.PlainKey keyA).

Definition caA : services.CertAuthority :=
  {| services.DomainName := "a.example.com"; services.Type_ := services.HostCA;
     services.SigningKeys := []; services.CheckingKeys := [keyA] |}.

Definition caB : services.CertAuthority :=
  {| services.DomainName := "b.example.com"; services.Type_ := services.HostCA;
     services.SigningKeys := []; services.CheckingKeys := [keyB] |}.

(** A host authority whose one checking key is empty and does not
    parse. *)
Definition caBroken : services.CertAuthority :=
  {| services.DomainName := "0.example.com"; services.Type_ := services.HostCA;
     services.SigningKeys := []; services.CheckingKeys := [[]] |}.

Definition cache (cas : list services.CertAuthority) : client.TrustCache :=
  {| client.OpenErr := None; client.ListErr := None;
     client.UpsertErr := fun _ => None; client.Authorities := cas |}.

(** A cache whose database file cannot be opened. *)
Definition lockedCache (cas : list services.CertAuthority) : client.TrustCache :=
  {| client.OpenErr := Some (Failure "open hostsigners.db: permission denied");
     client.ListErr := None;
     client.UpsertErr := fun _ => None; client.Authorities := cas |}.

(** A cache that opens but refuses every write. *)
Definition readOnlyCache (cas : list services.CertAuthority) : client.TrustCache :=
  {| client.OpenErr := None; client.ListErr := None;
     client.UpsertErr := fun _ => Some (Failure "database is read-only");
     client.Authorities := cas |}.

Definition world (t : client.TrustCache) : client.World :=
  {| client.KeysDir := Some ∅; client.StatErr := None; client.MkdirErr := None;
     client.ReadDirErr := None; client.Clock := fun _ => 0%Z;
     client.Ticks := 0; client.Log := []; client.Trust := t |}.

End TrustInputs.

(** The condition of the claim about [CheckHostSignature]: [sig] is
    byte-equal to a checking public key of a host authority in the cache. *)
Definition trusted (ParseAuthorizedKey : bytes → result ssh.PublicKey)
    (sig : ssh.PublicKey) (w : client.World) : Prop :=
  ∃ ca keyBytes checker,
    ca ∈ hostAuthorities w
    ∧ keyBytes ∈ services.CheckingKeys ca
    ∧ ParseAuthorizedKey keyBytes = Ok checker
    ∧ ssh.Marshal sig = ssh.Marshal checker.

(** ** Notions for the limiters *)

(** The four limiters of a configuration. *)
Definition limitersOf (c : service.Config) :=
  (service.SSHConfig.Limiter (service.SSH c),
   service.AuthConfig.Limiter (service.Auth c),
   service.ProxyConfig.Limiter (service.Proxy c),
   service.ReverseTunnelConfig.Limiter (service.ReverseTunnel c)).

(** A stretch of code that leaves the limiters alone. *)
Definition keepsLimiters (a : main.Act) : Prop :=
  ∀ s, limitersOf (main.cfg (a s).2) = limitersOf (main.cfg s).

(** ** Notions for the key store *)

(** The file of the keys directory called [name], if there is one. *)
Definition lookupFile (w : client.World) (name : string) : option client.File :=
  client.KeysDir w ≫= (.!! name).

(** [name] is the name of a key file: not a directory, [teleport_] in
    front and [.tkey] at the end. *)
Definition keyFile (name : string) (f : client.File) : Prop :=
  client.isKeyFile {| client.Name := name; client.FileIsDir := client.IsDir f |}
    = true.

(** The file reads and its contents decode to the key [k]. *)
Definition decodes (json_Unmarshal : bytes → result client.Key)
    (f : client.File) (k : client.Key) : Prop :=
  client.ReadErr f = None ∧ json_Unmarshal (client.Data f) = Ok k.

(** The file fails to read or fails to decode. *)
Definition corrupt (json_Unmarshal : bytes → result client.Key)
    (f : client.File) : Prop :=
  client.ReadErr f ≠ None ∨ ∃ e, json_Unmarshal (client.Data f) = Err e.

(** The clock never runs backwards. *)
Definition monotone (clock : nat → Time) : Prop :=
  ∀ i j, i ≤ j → (clock i ≤ clock j)%Z.

(** What one round of the loop of [loadAllKeys] does with [file]: it
    skips it (not a key file, or one that does not load), keeps its key, or
    prunes it. *)
Inductive round (json_Unmarshal : bytes → result client.Key)
    (file : client.FileInfo) (keys : list client.Key) (w : client.World)
    : list client.Key → client.World → Prop :=
  | round_skip w1 :
      client.Ticks w1 = client.Ticks w →
      lookupFile w1 (client.Name file) = lookupFile w (client.Name file) →
      (∀ e, e ∈ client.Log w → e ∈ client.Log w1) →
      (client.isKeyFile file = false
       ∨ ∀ f k, lookupFile w (client.Name file) = Some f →
                ¬ decodes json_Unmarshal f k) →
      round json_Unmarshal file keys w keys w1
  | round_keep f k w1 :
      client.isKeyFile file = true →
      lookupFile w (client.Name file) = Some f →
      decodes json_Unmarshal f k →
      (client.Clock w (client.Ticks w) < client.Deadline k)%Z →
      client.Ticks w1 = S (client.Ticks w) →
      lookupFile w1 (client.Name file) = Some f →
      client.Log w1 = client.Log w →
      round json_Unmarshal file keys w (keys ++ [k]) w1
  | round_prune f k w1 :
      client.isKeyFile file = true →
      lookupFile w (client.Name file) = Some f →
      decodes json_Unmarshal f k →
      (client.Deadline k ≤ client.Clock w (client.Ticks w))%Z →
      client.Ticks w1 = S (client.Ticks w) →
      match client.RemoveErr f with
      | None =>
          lookupFile w1 (client.Name file) = None
          ∧ client.Log w1 = client.Log w
      | Some e =>
          lookupFile w1 (client.Name file) = Some f
          ∧ client.Log w1 = e :: client.Log w
      end →
      round json_Unmarshal file keys w keys w1.

(** What became of a key file found past its deadline: [os.Remove] took
    it from the directory, or failed with an error that went to the log. *)
Definition pruned (f : client.File) (name : string) (w' : client.World) : Prop :=
  match client.RemoveErr f with
  | None => lookupFile w' name = None
  | Some e => e ∈ client.Log w'
  end.

(** The stored key can go into the agent: its certificate parses to a
    certificate, its private key parses, and the keyring takes the pair. *)
Definition usable (ParseAuthorizedKey : bytes → result ssh.PublicKey)
    (ParseRawPrivateKey : bytes → result ssh.PrivateKey)
    (keyring_AddErr : agent.AddedKey → option error) (k : client.Key) : Prop :=
  ∃ blob sig pk,
    ParseAuthorizedKey (client.Cert k) = Ok (ssh.Certificate blob sig)
    ∧ ParseRawPrivateKey (client.Priv k) = Ok pk
    ∧ keyring_AddErr
        {| agent.PrivateKey := pk;
           agent.Certificate := ssh.Certificate blob sig;
           agent.Comment := ""; agent.LifetimeSecs := 0;
           agent.ConfirmBeforeUse := false |} = None.

(** [k] is stored and fresh: it is the key a key file of the directory
    decodes to, and its deadline is after [now]. *)
Definition storedFresh (json_Unmarshal : bytes → result client.Key)
    (w : client.World) (now : Time) (k : client.Key) : Prop :=
  ∃ name f,
    lookupFile w name = Some f ∧ keyFile name f
    ∧ decodes json_Unmarshal f k ∧ (now < client.Deadline k)%Z.

(** An [agent.AddedKey] built from the stored key [k]. *)
Definition builtFrom (ParseAuthorizedKey : bytes → result ssh.PublicKey)
    (ParseRawPrivateKey : bytes → result ssh.PrivateKey)
    (k : client.Key) (ak : agent.AddedKey) : Prop :=
  ParseAuthorizedKey (client.Cert k) = Ok (agent.Certificate ak)
  ∧ ParseRawPrivateKey (client.Priv k) = Ok (agent.PrivateKey ak)
  ∧ agent.LifetimeSecs ak = 0%Z.

Module KeyInputs.

(** Key files in the encoding [Samples.json_Unmarshal] reads: a private
    key of one byte, the deadline in seconds, the certificate. *)
Definition keyFileOf (data : bytes) (removeErr : option error) : client.File :=
  {| client.IsDir := false; client.Data := data;
     client.ReadErr := None; client.RemoveErr := removeErr |}.

(** A key that expired 5 seconds after the epoch, and one good until 200
    seconds after it. *)
Definition oldData : bytes :=
  [Byte.x01; Byte.x11; Byte.x05; Byte.x00; Byte.x01; Byte.x0a].
Definition newData : bytes :=
  [Byte.x01; Byte.x22; Byte.xc8; Byte.x00; Byte.x02; Byte.x0b].

Definition oldKey : client.Key :=
  {| client.Priv := [Byte.x11]; client.Cert := [Byte.x00; Byte.x01; Byte.x0a];
     client.Deadline := (5 * time.Second)%Z |}.
Definition newKey : client.Key :=
  {| client.Priv := [Byte.x22]; client.Cert := [Byte.x00; Byte.x02; Byte.x0b];
     client.Deadline := (200 * time.Second)%Z |}.

Definition oldFile : client.File := keyFileOf oldData None.
Definition newFile : client.File := keyFileOf newData None.

(** An expired key file that [os.Remove] is not allowed to remove. *)
Definition stickyFile : client.File :=
  keyFileOf oldData (Some (Failure "remove teleport_old.tkey: operation not permitted")).

(** A key file with nothing in it: it does not decode. *)
Definition emptyFile : client.File := keyFileOf [] None.

(** The world at 10 seconds after the epoch, with a keys directory. *)
Definition world (dir : gmap string client.File) : client.World :=
  {| client.KeysDir := Some dir; client.StatErr := None; client.MkdirErr := None;
     client.ReadDirErr := None; client.Clock := fun _ => (10 * time.Second)%Z;
     client.Ticks := 0; client.Log := []; client.Trust := TrustInputs.cache [] |}.

Definition twoKeys : gmap string client.File :=
  <["teleport_old.tkey" := oldFile]> (<["teleport_new.tkey" := newFile]> ∅).

Definition stickyKey : gmap string client.File :=
  <["teleport_old.tkey" := stickyFile]> ∅.

Definition corruptAndNew : gmap string client.File :=
  <["teleport_bad.tkey" := emptyFile]> (<["teleport_new.tkey" := newFile]> ∅).

End KeyInputs.

(** ** Notions for command labels *)

Fixpoint hasByte (c : ascii) (s : string) : bool :=
  match s with
  | EmptyString => false
  | String b rest => Ascii.eqb b c || hasByte c rest
  end.

Definition firstByte (s : string) : option ascii := byte_at s 0.
Definition lastByte (s : string) : option ascii := byte_at s (len s - 1).

(** A byte that [strings.Trim(spec, "[]")] removes. *)
Definition isBracket (c : option ascii) : bool :=
  match c with
  | Some c => gostrings.inCutset c "[]"
  | None => false
  end.

(** The value starts with [[] and ends with []]. *)
Definition enclosed (spec : string) : Prop :=
  firstByte spec = Some "["%char ∧ lastByte spec = Some "]"%char.

(** The label value [[d:cmd]]. *)
Definition bracketed (d cmd : string) : string :=
  "[" +:+ d +:+ ":" +:+ cmd +:+ "]".

(** The call returns a bad-parameter error and no label. *)
Definition badParameter
    (r : outcome (option services.CommandLabel * option error)) : Prop :=
  ∃ e, r = Returns (None, Some e) ∧ kindOf e = Some KindBadParameter.

(** The shell tokens of a command, read off the specification: a rune is
    inside quotes when an odd number of double quotes comes before it (an
    opening quote included, a closing one is outside); the command is cut
    at the white space outside quotes, and the tokens are the pieces that
    are not empty.  First every rune is marked as a cut or not, then the
    marked runes are cut. *)
Fixpoint markCuts (inQuotes : bool) (rs : list (Z * string))
    : list (bool * string) :=
  match rs with
  | [] => []
  | (r, enc) :: rest =>
      if (r =? 34)%Z
      then (false, enc) :: markCuts (negb inQuotes) rest
      else (unicode.IsSpace r && negb inQuotes, enc) :: markCuts inQuotes rest
  end.

Fixpoint cutAt (piece : string) (marked : list (bool * string)) : list string :=
  match marked with
  | [] => if String.eqb piece "" then [] else [piece]
  | (true, _) :: rest =>
      (if String.eqb piece "" then [] else [piece]) ++ cutAt "" rest
  | (false, enc) :: rest => cutAt (piece +:+ enc) rest
  end.

Definition shellTokens (cmd : string) : list string :=
  cutAt "" (markCuts false (utf8.range cmd)).

(** The number of double quotes among the runes, and a command that holds
    an even number of them: every quote that opens is closed. *)
Definition quoteCount (rs : list (Z * string)) : nat :=
  length (filter (fun p => p.1 = 34%Z) rs).

Definition evenQuotes (cmd : string) : Prop :=
  Nat.even (quoteCount (utf8.range cmd)) = true.

(** The fields one reading of the runes gives, the predicate called once
    for each rune in order: a field ends at a rune for which [f] holds and
    the last one at the end; [cur] is the field being read. *)
Fixpoint fieldsLoop {St : Type} (f : St -> Z -> bool * St) (st : St)
    (cur : option string) (rs : list (Z * string)) : list string :=
  match rs with
  | [] => match cur with Some w => [w] | None => [] end
  | (r, bytes) :: rs' =>
      let '(sep, st') := f st r in
      if sep then
        match cur with
        | Some w => w :: fieldsLoop f st' None rs'
        | None => fieldsLoop f st' None rs'
        end
      else
        fieldsLoop f st'
          (Some (match cur with Some w => w +:+ bytes | None => bytes end))
          rs'
  end.

(** The state a predicate is left in after it was called on every rune. *)
Fixpoint stateAfter {St : Type} (f : St -> Z -> bool * St) (st : St)
    (rs : list (Z * string)) : St :=
  match rs with
  | [] => st
  | (r, _) :: rs' => stateAfter f (f st r).2 rs'
  end.

(** The error [isCmdLabelSpec] returns for a value it takes for a broken
    command label. *)
Definition invalidSpec (spec : string) : option error :=
  Some (Traced (BadParameterError "label"
                  ("invalid command label spec: '" +:+ spec +:+ "'"))).

(** ** Notions for the service configuration *)

(** The three backends of the auth service: keys, events, records. *)
Definition backendsOf (c : service.Config) :=
  (service.AuthConfig.KeysBackend (service.Auth c),
   service.AuthConfig.EventsBackend (service.Auth c),
   service.AuthConfig.RecordsBackend (service.Auth c)).

(** [c] with the three backends replaced and every other field as it
    was. *)
Definition withBackends (kb : service.KeysBackendConfig)
    (eb rb : service.BackendConfig) (c : service.Config) : service.Config :=
  service.upd_Auth
    (fun a =>
       service.AuthConfig.with_RecordsBackend rb
         (service.AuthConfig.with_EventsBackend eb
            (service.AuthConfig.with_KeysBackend kb a)))
    c.

(** A bolt backend whose file is [file] under [dir]. *)
Definition boltAt (dir file : string) : service.BackendConfig :=
  {| service.B_Type := "bolt"; service.B_Params := service.boltParams dir file |}.

(** The strings [makeAddr] hands to [utils.ParseAddr] for the defaults,
    in the order [ApplyDefaults] asks for them. *)
Definition defaultAddrSpecs : list string :=
  [ "tcp://0.0.0.0:3025"; "tcp://0.0.0.0:3023"; "tcp://0.0.0.0:3080";
    "tcp://127.0.0.1:3024"; "tcp://0.0.0.0:3024"; "tcp://0.0.0.0:3022" ].

(** What [ApplyDefaults] has no default for: the tokens, the advertised
    IP, the host UUID, the labels, the secrets and authorities of the auth
    service, the TLS files of the proxy and the rates of the limiters. *)
Definition keptByDefaults (c : service.Config) :=
  (service.AdvertiseIP c, service.HostUUID c,
   (service.SSHConfig.Token (service.SSH c),
    service.SSHConfig.Labels (service.SSH c),
    service.SSHConfig.CmdLabels (service.SSH c),
    limiter.Rates (service.SSHConfig.Limiter (service.SSH c))),
   (service.AuthConfig.Token (service.Auth c),
    service.AuthConfig.SecretKey (service.Auth c),
    service.AuthConfig.AllowedTokens (service.Auth c),
    service.AuthConfig.TrustedAuthorities (service.Auth c),
    service.AuthConfig.DomainName (service.Auth c),
    service.AuthConfig.UserCA (service.Auth c),
    service.AuthConfig.HostCA (service.Auth c),
    service.KB_EncryptionKeys (service.AuthConfig.KeysBackend (service.Auth c)),
    limiter.Rates (service.AuthConfig.Limiter (service.Auth c))),
   (service.ProxyConfig.Token (service.Proxy c),
    service.ProxyConfig.TLSKey (service.Proxy c),
    service.ProxyConfig.TLSCert (service.Proxy c),
    limiter.Rates (service.ProxyConfig.Limiter (service.Proxy c))),
   (service.ReverseTunnelConfig.Token (service.ReverseTunnel c),
    limiter.Rates (service.ReverseTunnelConfig.Limiter (service.ReverseTunnel c)))).

(** The listen addresses of the five services. *)
Definition listenAddrs (c : service.Config) : list utils.NetAddr :=
  [ service.AuthConfig.SSHAddr (service.Auth c);
    service.ProxyConfig.SSHAddr (service.Proxy c);
    service.ProxyConfig.WebAddr (service.Proxy c);
    service.ProxyConfig.ReverseTunnelListenAddr (service.Proxy c);
    service.SSHConfig.Addr (service.SSH c) ].

(** The key [GetLocalAgentKeys] hands to the agent for a certificate and
    a private key. *)
Definition agentKey (pk : ssh.PrivateKey) (cert : ssh.PublicKey) : agent.AddedKey :=
  {| agent.PrivateKey := pk; agent.Certificate := cert; agent.Comment := "";
     agent.LifetimeSecs := 0; agent.ConfirmBeforeUse := false |}.

(** The file [ioutil.WriteFile] leaves when it writes [data] over [old]
    (no file, or the file that was there). *)
Definition written (data : bytes) (old : option client.File) : client.File :=
  {| client.IsDir := false; client.Data := data;
     client.ReadErr := old ≫= client.ReadErr;
     client.RemoveErr := old ≫= client.RemoveErr |}.

(** ** Notions for the command line *)

(** The names of the three roles. *)
Definition roleNames : list string :=
  [defaults.RoleAuthService; defaults.RoleNode; defaults.RoleProxy].

(** The configuration with the listen addresses of the five services
    replaced, given in the order of [listenAddrs]. *)
Definition withListenAddrs (addrs : list utils.NetAddr) (c : service.Config)
    : service.Config :=
  match addrs with
  | [auth; proxy; web; tunnel; node] =>
      service.upd_SSH (service.SSHConfig.with_Addr node)
        (service.upd_Proxy
           (fun p =>
              service.ProxyConfig.with_ReverseTunnelListenAddr tunnel
                (service.ProxyConfig.with_WebAddr web
                   (service.ProxyConfig.with_SSHAddr proxy p)))
           (service.upd_Auth (service.AuthConfig.with_SSHAddr auth) c))
  | _ => c
  end.

(** The port [net.SplitHostPort] reads from an address. *)
Definition portOf (SplitHostPort : string -> string * string * option error)
    (a : utils.NetAddr) : string :=
  (SplitHostPort (utils.Addr a)).1.2.

(** *** Stand-ins for the file system and the net library *)

(** A file system in which only [/usr/share/teleport] holds the two
    files. *)
Definition assetsStat (path : string) : option error :=
  if String.eqb path "/usr/share/teleport/index.html"
     || String.eqb path "/usr/share/teleport//app/app.js"
  then None else Some (Errorf "no such file or directory").

Definition assetsJoin (dir file : string) : string := dir +:+ "/" +:+ file.

(** [host:port] cut at its first colon, and put together again. *)
Definition cutHostPort (s : string) : string * string * option error :=
  let i := gostrings.IndexByte s ":"%char in
  if (i =? -1)%Z then ("", "", Some (Errorf "missing port in address"))
  else (slice_to s (Z.to_nat i), slice_from s (Z.to_nat i + 1), None).

Definition glueHostPort (host port : string) : string := host +:+ ":" +:+ port.

Definition dotted (ip : service.IP) : string :=
  match ip with Some s => s | None => "<nil>" end.

(** A label value that [isCmdLabelSpec] does not read as a command label,
    and one that it reads as the command label [cl]. *)
Definition plainValue `{!trace.Library} (ParseDuration : string -> option Duration)
    (value : string) : Prop :=
  main.isCmdLabelSpec ParseDuration value = Returns (None, None).

Definition commandValue `{!trace.Library} (ParseDuration : string -> option Duration)
    (value : string) (cl : services.CommandLabel) : Prop :=
  main.isCmdLabelSpec ParseDuration value = Returns (Some cl, None).

(** *** A label spec and what is read from it *)

Definition sampleLabelMap : gmap string string :=
  {[ "role" := "db"; "uptime" := "[1m:uptime -p]" ]}.

Definition sampleLabelSpec (spec : string) : result (gmap string string) :=
  Ok sampleLabelMap.

Definition sampleSSH : service.SSHConfig.t :=
  service.SSH Inputs.defaultConfig.

Definition sampleLabelled : service.SSHConfig.t :=
  service.SSHConfig.with_Labels (Some {[ "role" := "db" ]})
    (service.SSHConfig.with_CmdLabels
       (Some {[ "uptime" :=
                  {| services.Period := time.Minute;
                     services.Command := ["uptime"; "-p"];
                     services.Result := "" |} ]})
       sampleSSH).

(** Which services are enabled: node, auth, proxy and reverse tunnel. *)
Definition enabledServices (c : service.Config) : bool * bool * bool * bool :=
  (service.SSHConfig.Enabled (service.SSH c),
   service.AuthConfig.Enabled (service.Auth c),
   service.ProxyConfig.Enabled (service.Proxy c),
   service.ReverseTunnelConfig.Enabled (service.ReverseTunnel c)).

(** *** A run of [configure] *)

(** No configuration file on the disk, the web assets in
    [/usr/share/teleport], and flags for a node that joins the auth server
    at 10.0.0.5. *)
Definition sampleFlags : main.CommandLineFlags :=
  {| main.NodeName := "edge-1";
     main.AuthServerAddr := "10.0.0.5";
     main.AuthToken := "secret";
     main.ListenIP := Some "10.0.0.2";
     main.AdvertiseIP := Some "10.0.0.9";
     main.ConfigFile := "";
     main.Roles := "node,auth";
     main.Debug := true;
     main.Labels := "role=db,uptime=[1m:uptime -p]" |}.

Definition sampleHostPort (spec : string) (port : Z) : result utils.NetAddr :=
  Ok {| utils.AddrNetwork := "tcp"; utils.Addr := spec +:+ ":" +:+ itoa port |}.

Definition sampleConfigure (clf : main.CommandLineFlags)
    : outcome ((option service.Config * option error) * main.State) :=
  main.configure (tracelib := Samples.library)
    Samples.ParseDuration Samples.ParseAddr sampleHostPort sampleLabelSpec
    (fun _ _ => ("", None)) assetsStat (fun _ => true) (fun _ => None)
    ("node-1", None) (fun s => s) (fun _ => false) (fun _ => false)
    (fun _ => false) dotted (fun _ => (None, None))
    (fun _ => (main.ToStderr, main.DebugLevel)) cutHostPort glueHostPort
    (Ok "/usr/bin") assetsJoin clf main.DefaultOutput main.DefaultLevel.

(** The configuration and the state of the logger a run ends with. *)
Definition configOf
    (r : outcome ((option service.Config * option error) * main.State))
    : service.Config :=
  match r with
  | Returns ((Some c, _), _) => c
  | _ => service.zeroConfig
  end.

Definition loggerOf
    (r : outcome ((option service.Config * option error) * main.State))
    : main.State :=
  match r with
  | Returns (_, s) => s
  | Panics =>
      {| main.cfg := service.zeroConfig; main.logOutput := main.DefaultOutput;
         main.logLevel := main.DefaultLevel |}
  end.

Definition sampleConfigured : service.Config :=
  configOf (sampleConfigure sampleFlags).

Definition sampleLogger : main.State := loggerOf (sampleConfigure sampleFlags).

(** The same flags with a role that does not exist. *)
Definition wrongRoleFlags : main.CommandLineFlags :=
  {| main.NodeName := "edge-1";
     main.AuthServerAddr := "10.0.0.5";
     main.AuthToken := "secret";
     main.ListenIP := Some "10.0.0.2";
     main.AdvertiseIP := Some "10.0.0.9";
     main.ConfigFile := "";
     main.Roles := "node,admin";
     main.Debug := true;
     main.Labels := "role=db,uptime=[1m:uptime -p]" |}.

(** *** What the configuration file cannot do *)

(** Fields of the configuration that [applyFileConfig] has no setting
    for. *)
Definition keptFromFile (c : service.Config) :=
  (service.DataDir c, service.HostUUID c, service.Console c,
   service.ReverseTunnel c,
   service.SSHConfig.Shell (service.SSH c),
   service.ProxyConfig.AssetsDir (service.Proxy c),
   (service.AuthConfig.SecretKey (service.Auth c),
    service.AuthConfig.AllowedTokens (service.Auth c),
    service.AuthConfig.TrustedAuthorities (service.Auth c),
    service.AuthConfig.UserCA (service.Auth c),
    service.AuthConfig.HostCA (service.Auth c),
    service.KB_EncryptionKeys (service.AuthConfig.KeysBackend (service.Auth c)))).

(** [c'] keeps these fields of [c] and enables no service that [c] does
    not enable. *)
Definition fileMerge (c c' : service.Config) : Prop :=
  keptFromFile c' = keptFromFile c
  ∧ (service.SSHConfig.Enabled (service.SSH c') = true →
     service.SSHConfig.Enabled (service.SSH c) = true)
  ∧ (service.AuthConfig.Enabled (service.Auth c') = true →
     service.AuthConfig.Enabled (service.Auth c) = true)
  ∧ (service.ProxyConfig.Enabled (service.Proxy c') = true →
     service.ProxyConfig.Enabled (service.Proxy c) = true).

(** A stretch of [applyFileConfig] that does no more than that, with or
    without an error. *)
Definition merges (a : main.Act) : Prop :=
  ∀ s, fileMerge (main.cfg s) (main.cfg (a s).2).

(** ** lib/auth/init.go: the host keys on disk *)

Module auth.

(** The disk, as far as the code below reaches it: the files by their
    path, and the failures of the operating system on a path: [os.Stat]
    failing though the file may be there, [utils.ReadPath] not getting to
    read, and [ioutil.WriteFile] failing, with what it leaves at the path
    when it has opened the file (nothing or a part of the data), [None]
    when it has not. *)
Record Disk : Type := {
  Files : gmap string bytes;
  StatErr : string -> option error;
  WriteErr : string -> option (error * option bytes);
  ReadErr : string -> option error
}.

Definition with_Files v d :=
  {| Files := v; StatErr := StatErr d; WriteErr := WriteErr d; ReadErr := ReadErr d |}.

Definition notExist : error := Failure "no such file or directory".

Definition os_Stat (path : string) (d : Disk) : option error :=
  match StatErr d path with
  | Some e => Some e
  | None =>
      match Files d !! path with
      | Some _ => None
      | None => Some notExist
      end
  end.

Definition os_IsNotExist (err : error) : bool :=
  match err with
  | Failure origin => String.eqb origin "no such file or directory"
  | _ => false
  end.

(** [ioutil.WriteFile(path, data, 0600)]: the file is created or
    replaced. *)
Definition ioutil_WriteFile (path : string) (data : bytes) (d : Disk)
    : option error * Disk :=
  match WriteErr d path with
  | Some (e, None) => (Some e, d)
  | Some (e, Some part) => (Some e, with_Files (<[path := part]> (Files d)) d)
  | None => (None, with_Files (<[path := data]> (Files d)) d)
  end.

(** [utils.ReadPath(path)]: the bytes of the file, or an error. *)
Definition utils_ReadPath (path : string) (d : Disk) : bytes * option error :=
  match ReadErr d path with
  | Some e => ([], Some e)
  | None =>
      match Files d !! path with
      | Some data => (data, None)
      | None => ([], Some notExist)
      end
  end.

(** [IdentityID]: a combination of role and host UUID. *)
Record IdentityID : Type := { Role : string; HostUUID : string }.

Section Code.
(** Libraries and packages outside the sources at hand: parameters.
    [GenerateKeyPair] and [GenerateHostCert] are what the two methods of
    the auth server return at their one call in [initKeys]; [Signer] is
    [ssh.Signer]; [Error] is [err.Error()], [typeName] the [%T] of a
    value and [string_] the conversion of bytes to a string. *)
Context {tracelib : trace.Library}.
Variable Join : string -> string -> string.
Variable Signer : Type.
Variable ParseAuthorizedKey : bytes -> result ssh.PublicKey.
Variable ParsePrivateKey : bytes -> result Signer.
Variable NewCertSigner : ssh.PublicKey -> Signer -> result Signer.
Variable GenerateKeyPair : string -> result (bytes * bytes).
Variable GenerateHostCert : bytes -> string -> string -> string -> Z -> result bytes.
Variable DomainName : string.
Variable Error : error -> string.
Variable typeName : ssh.PublicKey -> string.
Variable string_ : bytes -> string.

(** [Identity]: a collection of certificates and signers that represent
    identity. *)
Record Identity : Type := {
  KeyBytes : bytes;
  CertBytes : bytes;
  KeySigner : Signer;
  PubKey : ssh.PublicKey;
  Cert : ssh.PublicKey
}.

(** [pathExists]. *)
Definition pathExists (path : string) (d : Disk) : bool * option error :=
  match os_Stat path d with
  | Some err =>
      if os_IsNotExist err then (false, None) else (false, Some err)
  | None => (true, None)
  end.

(** [keysPath]: two full file paths, to the host.key and host.cert. *)
Definition keysPath (dataDir : string) (id : IdentityID) : string * string :=
  (Join dataDir ("host." +:+ HostUUID id +:+ "." +:+ Role id +:+ ".key"),
   Join dataDir ("host." +:+ HostUUID id +:+ "." +:+ Role id +:+ ".cert")).

(** [HaveHostKeys]: are the host keys in place? *)
Definition HaveHostKeys (dataDir : string) (id : IdentityID) (d : Disk)
    : bool * option error :=
  let '(kp, cp) := keysPath dataDir id in
  let '(exists_, err) := pathExists kp d in
  if negb exists_ || bool_decide (err <> None) then (exists_, err)
  else
    let '(exists_, err) := pathExists cp d in
    if negb exists_ || bool_decide (err <> None) then (exists_, err)
    else (true, None).

(** [writeKeys]: the key/cert pair saved onto disk. *)
Definition writeKeys (dataDir : string) (id : IdentityID) (key cert : bytes)
    (d : Disk) : option error * Disk :=
  let '(kp, cp) := keysPath dataDir id in
  match ioutil_WriteFile kp key d with
  | (Some err, d) => (Some err, d)
  | (None, d) =>
      match ioutil_WriteFile cp cert d with
      | (Some err, d) => (Some err, d)
      | (None, d) => (None, d)
      end
  end.

(** [ReadIdentity]: the key and the certificate read from the key storage
    and parsed. *)
Definition ReadIdentity (dataDir : string) (id : IdentityID) (d : Disk)
    : option Identity * option error :=
  let '(kp, cp) := keysPath dataDir id in
  let '(keyBytes, err) := utils_ReadPath kp d in
  match err with
  | Some _ => (None, trace.Wrap err)
  | None =>
  let '(certBytes, err) := utils_ReadPath cp d in
  match err with
  | Some _ => (None, trace.Wrap err)
  | None =>
  match ParseAuthorizedKey certBytes with
  | Err err =>
      (None, Some (Errorf ("failed to parse server CA certificate '"
                             +:+ string_ certBytes +:+ "', err: " +:+ Error err)))
  | Ok pubKey =>
  match pubKey with
  | ssh.PlainKey _ =>
      (None, Some (Errorf ("expected CA certificate, got "
                             +:+ typeName pubKey +:+ " ")))
  | ssh.Certificate _ _ =>
  match ParsePrivateKey keyBytes with
  | Err err =>
      (None, Some (Errorf ("failed to parse host private key, err: "
                             +:+ Error err)))
  | Ok signer =>
  match NewCertSigner pubKey signer with
  | Err err =>
      (None, Some (Errorf ("failed to parse host private key, err: "
                             +:+ Error err)))
  | Ok certSigner =>
      (Some {| KeyBytes := keyBytes; CertBytes := certBytes;
               KeySigner := certSigner; PubKey := pubKey; Cert := pubKey |},
       None)
  end end end end end end.

(** [if !keyExists || !certExists { ... }] of [initKeys]: a key pair and a
    host certificate generated and written. *)
Definition generateKeys (dataDir : string) (id : IdentityID) (d : Disk)
    : option error * Disk :=
  match GenerateKeyPair "" with
  | Err err => (trace.Wrap (Some err), d)
  | Ok (privateKey, publicKey) =>
      match GenerateHostCert publicKey (HostUUID id) DomainName (Role id) 0 with
      | Err err => (trace.Wrap (Some err), d)
      | Ok cert =>
          match writeKeys dataDir id privateKey cert d with
          | (Some err, d) => (trace.Wrap (Some err), d)
          | (None, d) => (None, d)
          end
      end
  end.

(** [initKeys]: this node's host certificate signed by the host
    authority. *)
Definition initKeys (dataDir : string) (id : IdentityID) (d : Disk)
    : (option Identity * option error) * Disk :=
  let '(kp, cp) := keysPath dataDir id in
  let '(keyExists, err) := pathExists kp d in
  match err with
  | Some _ => ((None, trace.Wrap err), d)
  | None =>
  let '(certExists, err) := pathExists cp d in
  match err with
  | Some _ => ((None, trace.Wrap err), d)
  | None =>
  let '(err, d) :=
    if negb keyExists || negb certExists then generateKeys dataDir id d
    else (None, d) in
  match err with
  | Some _ => ((None, err), d)
  | None =>
  let '(i, err) := ReadIdentity dataDir id d in
  match err with
  | Some _ => ((None, trace.Wrap err), d)
  | None => ((i, None), d)
  end end end end.

End Code.

End auth.

(** *** A host and its disk *)

Definition hostID : auth.IdentityID :=
  {| auth.Role := "Admin"; auth.HostUUID := "a1b2" |}.

Definition emptyDisk : auth.Disk :=
  {| auth.Files := ∅; auth.StatErr := fun _ => None;
     auth.WriteErr := fun _ => None; auth.ReadErr := fun _ => None |}.

(** A key generator and a host authority: the certificate of a public key
    is a zero byte followed by the key, which [Samples.ParseAuthorizedKey]
    reads as a certificate. *)
Definition sampleKeyPair (pass : string) : result (bytes * bytes) :=
  Ok ([Byte.x01; Byte.x0a], [Byte.x02; Byte.x0b]).

Definition sampleHostCert (publicKey : bytes) (hostUUID domain role : string)
    (ttl : Z) : result bytes :=
  Ok (Byte.x00 :: publicKey).

(** [initKeys] of that host on a disk, the signer of a private key being
    its bytes. *)
Definition sampleInitKeys (d : auth.Disk)
    : (option (auth.Identity bytes) * option error) * auth.Disk :=
  auth.initKeys (tracelib := Samples.library) assetsJoin bytes
    Samples.ParseAuthorizedKey Ok (fun _ signer => Ok signer)
    sampleKeyPair sampleHostCert "example.com"
    (fun _ => "error") (fun _ => "ssh.PublicKey") (fun _ => "")
    "/var/lib/teleport" hostID d.

Definition sampleIdentity : auth.Identity bytes :=
  {| auth.KeyBytes := [Byte.x01; Byte.x0a];
     auth.CertBytes := [Byte.x00; Byte.x02; Byte.x0b];
     auth.KeySigner := [Byte.x01; Byte.x0a];
     auth.PubKey := ssh.Certificate [Byte.x00; Byte.x02; Byte.x0b]
                      (ssh.PlainKey [Byte.x02; Byte.x0b]);
     auth.Cert := ssh.Certificate [Byte.x00; Byte.x02; Byte.x0b]
                    (ssh.PlainKey [Byte.x02; Byte.x0b]) |}.

(** The disk after the first start. *)
Definition initialisedDisk : auth.Disk := (sampleInitKeys emptyDisk).2.

(** * Properties *)

(** ** Defaults *)

(** C5: the certificate-duration bounds are the defaults of the
    specification: one minute at least, thirty hours at most, twelve hours
    nominally (in nanoseconds), so a TTL clamped to
    [[MinCertDuration, MaxCertDuration]] lies between one minute and thirty
    hours. *)
Theorem cert_duration_bounds :
  defaults.MinCertDuration = (60 * 1000000000)%Z
  ∧ defaults.MaxCertDuration = (30 * 3600 * 1000000000)%Z
  ∧ defaults.CertDuration = (12 * 3600 * 1000000000)%Z
  ∧ ∀ ttl : Duration,
      (60 * 1000000000 ≤
         clamp ttl defaults.MinCertDuration defaults.MaxCertDuration
         ≤ 30 * 3600 * 1000000000)%Z.
Proof.
  assert (Hmin : defaults.MinCertDuration = (60 * 1000000000)%Z) by reflexivity.
  assert (Hmax : defaults.MaxCertDuration = (30 * 3600 * 1000000000)%Z) by reflexivity.
  repeat split; try reflexivity; unfold clamp; rewrite Hmin, Hmax; lia.
Qed.

(** ** Service configuration *)

(** C10: for every config and token, [ApplyToken] with a non-empty token
    returns true and yields the config in which [SSH.Token], [Proxy.Token]
    and [Auth.Token] hold the token and every other field is as before;
    with the empty token it returns false and the config is unchanged. *)
Theorem ApplyToken_frame (cfg : service.Config) (t : string) :
  (t ≠ "" → service.ApplyToken cfg t = (true, withTokens cfg t))
  ∧ service.ApplyToken cfg "" = (false, cfg).
Proof.
  split; [| reflexivity].
  intros Ht. unfold service.ApplyToken.
  destruct (String.eqb_spec t "") as [->|_]; [contradiction|].
  reflexivity.
Qed.

(** C10 at a concrete input. *)
Lemma ApplyToken_frame_witness :
  service.ApplyToken service.zeroConfig "join-token"
    = (true, withTokens service.zeroConfig "join-token")
  ∧ service.ApplyToken service.zeroConfig "" = (false, service.zeroConfig).
Proof.
  destruct (ApplyToken_frame service.zeroConfig "join-token") as [H1 H2].
  split; [apply H1; discriminate | exact H2].
Defined.

(** C8: the default listening ports are 3022 (node SSH), 3023 (proxy SSH),
    3024 (proxy reverse tunnel), 3025 (auth) and 3080 (proxy web UI), and
    [MakeDefaultConfig] enables the auth, proxy and SSH services, gives each
    the address [utils.ParseAddr] reads from [tcp://0.0.0.0:<its port>],
    sets [DataDir] to [/var/lib/teleport] and points the three bolt backends
    at [keys.db], [events.db] and [records.db] under it. *)
Theorem default_ports_and_config
    (ParseAddr : string → option utils.NetAddr)
    (hostname : string * option error)
    (auth proxy web tunnel node dial : utils.NetAddr) :
  ParseAddr "tcp://0.0.0.0:3025" = Some auth →
  ParseAddr "tcp://0.0.0.0:3023" = Some proxy →
  ParseAddr "tcp://0.0.0.0:3080" = Some web →
  ParseAddr "tcp://0.0.0.0:3024" = Some tunnel →
  ParseAddr "tcp://0.0.0.0:3022" = Some node →
  ParseAddr "tcp://127.0.0.1:3024" = Some dial →
  (defaults.SSHServerListenPort = 3022%Z
   ∧ defaults.SSHProxyListenPort = 3023%Z
   ∧ defaults.SSHProxyTunnelListenPort = 3024%Z
   ∧ defaults.AuthListenPort = 3025%Z
   ∧ defaults.HTTPListenPort = 3080%Z
   ∧ defaults.DataDir = "/var/lib/teleport")
  ∧ ∃ cfg : service.Config,
      service.MakeDefaultConfig ParseAddr hostname = Some cfg
      ∧ service.AuthConfig.Enabled (service.Auth cfg) = true
      ∧ service.AuthConfig.SSHAddr (service.Auth cfg) = auth
      ∧ service.AuthServers cfg = [auth]
      ∧ service.ProxyConfig.Enabled (service.Proxy cfg) = true
      ∧ service.ProxyConfig.SSHAddr (service.Proxy cfg) = proxy
      ∧ service.ProxyConfig.WebAddr (service.Proxy cfg) = web
      ∧ service.ProxyConfig.ReverseTunnelListenAddr (service.Proxy cfg) = tunnel
      ∧ service.SSHConfig.Enabled (service.SSH cfg) = true
      ∧ service.SSHConfig.Addr (service.SSH cfg) = node
      ∧ service.ReverseTunnelConfig.Enabled (service.ReverseTunnel cfg) = false
      ∧ service.DataDir cfg = "/var/lib/teleport"
      ∧ service.AuthConfig.KeysBackend (service.Auth cfg)
          = {| service.KB_Type := "bolt";
               service.KB_Params :=
                 "{" +:+ service.dquote +:+ "path" +:+ service.dquote +:+ ": "
                   +:+ service.dquote +:+ "/var/lib/teleport/keys.db"
                   +:+ service.dquote +:+ "}";
               service.KB_EncryptionKeys := [] |}
      ∧ service.AuthConfig.EventsBackend (service.Auth cfg)
          = {| service.B_Type := "bolt";
               service.B_Params :=
                 "{" +:+ service.dquote +:+ "path" +:+ service.dquote +:+ ": "
                   +:+ service.dquote +:+ "/var/lib/teleport/events.db"
                   +:+ service.dquote +:+ "}" |}
      ∧ service.AuthConfig.RecordsBackend (service.Auth cfg)
          = {| service.B_Type := "bolt";
               service.B_Params :=
                 "{" +:+ service.dquote +:+ "path" +:+ service.dquote +:+ ": "
                   +:+ service.dquote +:+ "/var/lib/teleport/records.db"
                   +:+ service.dquote +:+ "}" |}.
Proof.
  intros Hauth Hproxy Hweb Htunnel Hnode Hdial.
  split; [repeat split |].
  unfold service.MakeDefaultConfig, service.ApplyDefaults.
  change (defaults.AuthListenAddr ParseAddr) with (ParseAddr "tcp://0.0.0.0:3025").
  change (defaults.ProxyListenAddr ParseAddr) with (ParseAddr "tcp://0.0.0.0:3023").
  change (defaults.ProxyWebListenAddr ParseAddr) with (ParseAddr "tcp://0.0.0.0:3080").
  change (defaults.ReverseTunnellListenAddr ParseAddr)
    with (ParseAddr "tcp://0.0.0.0:3024").
  change (defaults.SSHServerListenAddr ParseAddr) with (ParseAddr "tcp://0.0.0.0:3022").
  change (defaults.ReverseTunnellConnectAddr ParseAddr)
    with (ParseAddr "tcp://127.0.0.1:3024").
  rewrite Hauth, Hproxy, Hweb, Htunnel, Hnode, Hdial. simpl.
  eexists. split; [reflexivity |].
  repeat split.
Qed.

(** C8 with an address parser that reads [tcp://host:port]. *)
Lemma default_ports_and_config_witness :
  ∃ cfg : service.Config,
    service.MakeDefaultConfig Samples.ParseAddr ("node-1", None) = Some cfg
    ∧ utils.Addr (service.AuthConfig.SSHAddr (service.Auth cfg)) = "0.0.0.0:3025"
    ∧ utils.Addr (service.ProxyConfig.SSHAddr (service.Proxy cfg)) = "0.0.0.0:3023"
    ∧ utils.Addr (service.ProxyConfig.WebAddr (service.Proxy cfg)) = "0.0.0.0:3080"
    ∧ utils.Addr (service.ProxyConfig.ReverseTunnelListenAddr (service.Proxy cfg))
        = "0.0.0.0:3024"
    ∧ utils.Addr (service.SSHConfig.Addr (service.SSH cfg)) = "0.0.0.0:3022".
Proof.
  destruct (default_ports_and_config Samples.ParseAddr ("node-1", None)
              _ _ _ _ _ _
              eq_refl eq_refl eq_refl eq_refl eq_refl eq_refl)
    as [_ (cfg & Hcfg & _ & Ha & _ & _ & Hp & Hw & Ht & _ & Hn & _)].
  exists cfg. rewrite Ha, Hp, Hw, Ht, Hn. repeat split; [exact Hcfg | ..]; reflexivity.
Defined.

(** ** applyFileConfig and the limiters *)

Lemma keepsLimiters_seq a b :
  keepsLimiters a → keepsLimiters b → keepsLimiters (main.seq a b).
Proof.
  intros Ha Hb s. unfold main.seq. specialize (Ha s).
  destruct (a s) as [[e|] s']; simpl in *; [exact Ha |].
  rewrite Hb. exact Ha.
Qed.

Lemma keepsLimiters_assign f :
  (∀ s, limitersOf (main.cfg (f s)) = limitersOf (main.cfg s)) →
  keepsLimiters (main.assign f).
Proof. intros H s. apply H. Qed.

Lemma keepsLimiters_cfg f :
  (∀ c, limitersOf (f c) = limitersOf c) →
  keepsLimiters (main.assign (main.upd_cfg f)).
Proof. intros H. apply keepsLimiters_assign. intros s. apply H. Qed.

Lemma keepsLimiters_fail e : keepsLimiters (main.fail e).
Proof. intros s. reflexivity. Qed.

Lemma keepsLimiters_id : keepsLimiters (main.assign id).
Proof. intros s. reflexivity. Qed.

Lemma keepsLimiters_when c a :
  keepsLimiters a → keepsLimiters (main.when c a).
Proof. destruct c; simpl; [auto | intros _; apply keepsLimiters_id]. Qed.

Ltac keeps_limiters :=
  repeat first
    [ apply keepsLimiters_seq
    | apply keepsLimiters_when
    | apply keepsLimiters_id
    | apply keepsLimiters_fail
    | apply keepsLimiters_cfg; intros ?; reflexivity
    | apply keepsLimiters_assign; intros ?; reflexivity ].

Section KeepsLimiters.
Context {tracelib : trace.Library}.
Variable ParseAddr : string → option utils.NetAddr.
Variable ParseHostPortAddr : string → Z → result utils.NetAddr.
Variable marshalEtcdConfig : list string → string → string * option error.
Variable fileExists : string → bool.
Variable os_Create : string → option error.
Variable ToLower : string → string.
Variables IsLoopback IsUnspecified IsMulticast : service.IP → bool.
Variable IP_String : service.IP → string.

Lemma limitersOf_ApplyToken c t :
  limitersOf (service.ApplyToken c t).2 = limitersOf c.
Proof. unfold service.ApplyToken. destruct (negb _); reflexivity. Qed.

Lemma limitersOf_ConfigureBolt c d :
  limitersOf (service.ConfigureBolt c d) = limitersOf c.
Proof.
  unfold service.ConfigureBolt.
  repeat match goal with |- context [if ?b then _ else _] => destruct b end;
    reflexivity.
Qed.

Lemma limitersOf_ConfigureETCD c d peers key :
  limitersOf (service.ConfigureETCD marshalEtcdConfig c d peers key).2
    = limitersOf c.
Proof.
  unfold service.ConfigureETCD, service.etcdParams.
  destruct (marshalEtcdConfig peers key) as [out [e|]]; reflexivity.
Qed.

Lemma keepsLimiters_authServers servers :
  keepsLimiters (main.authServers_range ParseAddr servers).
Proof.
  induction servers as [|a rest IH]; simpl; [apply keepsLimiters_id |].
  destruct (ParseAddr a); keeps_limiters. exact IH.
Qed.

Lemma limiters_range_id fc ls s : main.limiters_range fc ls s = s.
Proof. induction ls as [|l rest IH]; simpl; [reflexivity | exact IH]. Qed.

Lemma keepsLimiters_applyAddr spec port set :
  (∀ a c, limitersOf (set a c) = limitersOf c) →
  keepsLimiters (main.applyAddr ParseHostPortAddr spec port set).
Proof.
  intros H. unfold main.applyAddr. apply keepsLimiters_when.
  destruct (ParseHostPortAddr spec port); [| apply keepsLimiters_fail].
  apply keepsLimiters_cfg. intros c. apply H.
Qed.

Lemma keepsLimiters_applyPath path what set :
  (∀ a c, limitersOf (set a c) = limitersOf c) →
  keepsLimiters (main.applyPath fileExists path what set).
Proof.
  intros H. unfold main.applyPath. apply keepsLimiters_when.
  destruct (negb _); [apply keepsLimiters_fail |].
  apply keepsLimiters_cfg. intros c. apply H.
Qed.

Lemma keepsLimiters_applyRoles fc : keepsLimiters (main.applyRoles fc).
Proof. unfold main.applyRoles. keeps_limiters. Qed.

Lemma keepsLimiters_applyAdvertiseIP fc :
  keepsLimiters
    (main.applyAdvertiseIP IsLoopback IsUnspecified IsMulticast IP_String fc).
Proof.
  unfold main.applyAdvertiseIP.
  destruct (config.AdvertiseIP fc); [| apply keepsLimiters_id].
  destruct (main.validateAdvertiseIP _ _ _ _ _); keeps_limiters.
Qed.

Lemma keepsLimiters_applyAuthServers fc :
  keepsLimiters (main.applyAuthServers ParseAddr fc).
Proof.
  unfold main.applyAuthServers. apply keepsLimiters_when.
  apply keepsLimiters_seq; [keeps_limiters | apply keepsLimiters_authServers].
Qed.

Lemma keepsLimiters_applyTokenAndDomain fc :
  keepsLimiters (main.applyTokenAndDomain fc).
Proof.
  unfold main.applyTokenAndDomain. apply keepsLimiters_seq; [| keeps_limiters].
  apply keepsLimiters_cfg. intros c. apply limitersOf_ApplyToken.
Qed.

Lemma keepsLimiters_applyStorage fc :
  keepsLimiters (main.applyStorage marshalEtcdConfig fc).
Proof.
  unfold main.applyStorage.
  destruct (String.eqb _ teleport.BoltBackendType).
  { apply keepsLimiters_cfg. intros c. apply limitersOf_ConfigureBolt. }
  destruct (String.eqb _ teleport.ETCDBackendType).
  { intros s.
    pose proof (limitersOf_ConfigureETCD (main.cfg s)
      (config.DirName (config.Storage fc)) (config.Peers (config.Storage fc))
      (config.Prefix (config.Storage fc))) as H.
    destruct (service.ConfigureETCD _ _ _ _ _) as [[e|] c]; exact H. }
  destruct (String.eqb _ _); keeps_limiters.
Qed.

Lemma keepsLimiters_applyLogOutput fc :
  keepsLimiters (main.applyLogOutput os_Create fc).
Proof.
  unfold main.applyLogOutput.
  repeat match goal with |- context [if ?b then _ else _] => destruct b end;
    keeps_limiters.
  destruct (os_Create _); keeps_limiters.
Qed.

Lemma keepsLimiters_applyLogSeverity fc :
  keepsLimiters (main.applyLogSeverity ToLower fc).
Proof.
  unfold main.applyLogSeverity.
  repeat match goal with |- context [if ?b then _ else _] => destruct b end;
    keeps_limiters.
Qed.

Lemma keepsLimiters_applyLimits fc : keepsLimiters (main.applyLimits fc).
Proof.
  intros s. unfold main.applyLimits. rewrite limiters_range_id. reflexivity.
Qed.

Lemma keepsLimiters_applyProxy fc :
  keepsLimiters (main.applyProxy ParseHostPortAddr fileExists fc).
Proof.
  unfold main.applyProxy.
  apply keepsLimiters_seq; [apply keepsLimiters_applyAddr; reflexivity |].
  apply keepsLimiters_seq; [apply keepsLimiters_applyAddr; reflexivity |].
  apply keepsLimiters_seq; apply keepsLimiters_applyPath; reflexivity.
Qed.

Lemma keepsLimiters_applyAuth fc :
  keepsLimiters (main.applyAuth ParseHostPortAddr fc).
Proof. unfold main.applyAuth. apply keepsLimiters_applyAddr. reflexivity. Qed.

Lemma keepsLimiters_applySSH fc :
  keepsLimiters (main.applySSH ParseHostPortAddr fc).
Proof.
  unfold main.applySSH.
  apply keepsLimiters_seq; [apply keepsLimiters_applyAddr; reflexivity |].
  apply keepsLimiters_seq.
  - destruct (config.SSH.Labels _); keeps_limiters.
  - destruct (config.SSH.Commands _); keeps_limiters.
Qed.

(** Whatever the file configuration says, [applyFileConfig] leaves every
    limiter of the runtime configuration as it was. *)
Lemma applyFileConfig_keeps_limiters fc :
  keepsLimiters
    (main.applyFileConfig ParseAddr ParseHostPortAddr marshalEtcdConfig
       fileExists os_Create ToLower IsLoopback IsUnspecified IsMulticast
       IP_String fc).
Proof.
  destruct fc as [fc|]; [| apply keepsLimiters_fail].
  unfold main.applyFileConfig.
  apply keepsLimiters_seq; [apply keepsLimiters_applyRoles |].
  apply keepsLimiters_seq; [apply keepsLimiters_applyAdvertiseIP |].
  apply keepsLimiters_seq; [apply keepsLimiters_applyAuthServers |].
  apply keepsLimiters_seq; [apply keepsLimiters_applyTokenAndDomain |].
  apply keepsLimiters_seq; [apply keepsLimiters_applyStorage |].
  apply keepsLimiters_seq; [apply keepsLimiters_applyLogOutput |].
  apply keepsLimiters_seq; [apply keepsLimiters_applyLogSeverity |].
  apply keepsLimiters_seq; [apply keepsLimiters_applyLimits |].
  apply keepsLimiters_seq; [apply keepsLimiters_applyProxy |].
  apply keepsLimiters_seq; [apply keepsLimiters_applyAuth |].
  apply keepsLimiters_applySSH.
Qed.

End KeepsLimiters.

(** C7, on the code: [applyFileConfig] on a file configuration that allows
    5 connections, 7 users and one rate returns nil, and afterwards the SSH,
    Auth and Proxy limiters still hold the defaults (1000 connections, 250
    users) and no rate: the loop assigned to copies. *)
Theorem applyFileConfig_limits_not_applied `{!trace.Library} :
  let r := Inputs.applyFileConfig (Some Inputs.limitsFileConfig) Inputs.defaultState in
  let c := main.cfg r.2 in
  r.1 = None
  ∧ config.MaxConnections (config.Limits Inputs.limitsFileConfig) = 5%Z
  ∧ config.MaxUsers (config.Limits Inputs.limitsFileConfig) = 7%Z
  ∧ service.SSHConfig.Limiter (service.SSH c)
      = {| limiter.Rates := []; limiter.MaxConnections := 1000;
           limiter.MaxNumberOfUsers := 250 |}
  ∧ service.AuthConfig.Limiter (service.Auth c)
      = {| limiter.Rates := []; limiter.MaxConnections := 1000;
           limiter.MaxNumberOfUsers := 250 |}
  ∧ service.ProxyConfig.Limiter (service.Proxy c)
      = {| limiter.Rates := []; limiter.MaxConnections := 1000;
           limiter.MaxNumberOfUsers := 250 |}.
Proof. vm_compute. repeat split. Qed.

(** ** The host-signer trust cache *)

Lemma hostSigners_range_nil `{!trace.Library} hostSigners w :
  (client.hostSigners_range hostSigners w).1 = None
  ∨ (client.hostSigners_range hostSigners w).1 = trace.Wrap None.
Proof.
  revert w. induction hostSigners as [|ca rest IH]; intros w; [left; reflexivity |].
  simpl. unfold client.bind, client.UpsertCertAuthority.
  destruct (client.UpsertErr (client.Trust w) ca); [right; reflexivity | apply IH].
Qed.

(** No path of [AddHostSignersToCache] returns the failure it met: the
    result is nil, or what [trace.Wrap] makes of nil. *)
Lemma AddHostSignersToCache_nil `{!trace.Library} hostSigners w :
  (client.AddHostSignersToCache hostSigners w).1 = None
  ∨ (client.AddHostSignersToCache hostSigners w).1 = trace.Wrap None.
Proof.
  unfold client.AddHostSignersToCache, client.bind, client.boltbk_New.
  destruct (client.OpenErr (client.Trust w)); [right; reflexivity |].
  apply hostSigners_range_nil.
Qed.

(** C4, on the code: when the trust database cannot be opened, and when it
    opens but the upsert of the authority fails, [AddHostSignersToCache]
    returns what [trace.Wrap] makes of nil, the same for both failures, and
    the cache is as it was; with a [trace.Wrap] that passes nil through,
    the result is nil: the failure is not reported. *)
Theorem AddHostSignersToCache_hides_failure `{!trace.Library} :
  let locked := TrustInputs.world (TrustInputs.lockedCache []) in
  let readOnly := TrustInputs.world (TrustInputs.readOnlyCache []) in
  client.OpenErr (client.Trust locked)
    = Some (Failure "open hostsigners.db: permission denied")
  ∧ client.AddHostSignersToCache [TrustInputs.caA] locked
    = (trace.Wrap None, locked)
  ∧ client.UpsertErr (client.Trust readOnly) TrustInputs.caA
    = Some (Failure "database is read-only")
  ∧ client.AddHostSignersToCache [TrustInputs.caA] readOnly
    = (trace.Wrap None, readOnly)
  ∧ @client.AddHostSignersToCache Samples.library [TrustInputs.caA] locked
    = (None, locked)
  ∧ @client.AddHostSignersToCache Samples.library [TrustInputs.caA] readOnly
    = (None, readOnly).
Proof. repeat split. Qed.

Lemma checkers_range_true sig checkers :
  client.checkers_range sig checkers = true
  ↔ ∃ checker, checker ∈ checkers ∧ ssh.Marshal sig = ssh.Marshal checker.
Proof.
  induction checkers as [|c rest IH]; simpl.
  - split; [discriminate |]. intros (c & Hc & _). inversion Hc.
  - unfold sshutils.KeysEqual. case_bool_decide as Heq.
    + split; [| reflexivity]. intros _. exists c. split; [left | exact Heq].
    + rewrite IH. split.
      * intros (c' & Hc' & Hm). exists c'. split; [right; exact Hc' | exact Hm].
      * intros (c' & Hc' & Hm). inversion Hc'; subst; [contradiction |].
        exists c'. split; assumption.
Qed.

Section CheckHostSignature.
Context {tracelib : trace.Library}.
Variable ParseAuthorizedKey : bytes → result ssh.PublicKey.

Local Abbreviation signed := (signedBy ParseAuthorizedKey).
Local Abbreviation parse := (checkersParse ParseAuthorizedKey).

(** The loop over the authorities accepts exactly when it reaches an
    authority that signed the certificate before one whose checking keys
    do not parse. *)
Lemma cas_range_accepts sig cas :
  client.cas_range ParseAuthorizedKey sig cas = None
  ↔ ∃ i ca,
      cas !! i = Some ca ∧ signed sig ca
      ∧ ∀ j ca', j < i → cas !! j = Some ca' → parse ca'.
Proof.
  induction cas as [|ca rest IH]; simpl.
  - split; [discriminate |]. intros (i & ca & Hi & _). destruct i; discriminate.
  - destruct (client.Checkers ParseAuthorizedKey ca) as [checkers err] eqn:Hck.
    destruct err as [e|].
    + split; [discriminate |].
      intros (i & ca' & Hi & (cs & c & Hcs & _) & Hbefore).
      destruct i as [|i]; simpl in Hi.
      * injection Hi as <-. rewrite Hck in Hcs. discriminate.
      * specialize (Hbefore 0 ca ltac:(lia) eq_refl).
        unfold checkersParse in Hbefore. rewrite Hck in Hbefore.
        discriminate.
    + destruct (client.checkers_range sig checkers) eqn:Hrange.
      * split; [| reflexivity]. intros _. exists 0, ca.
        apply checkers_range_true in Hrange as (c & Hc & Hm).
        split; [reflexivity |]. split; [exists checkers, c; auto |].
        intros j ca' Hj. lia.
      * rewrite IH. split.
        -- intros (i & ca' & Hi & Hsig & Hbefore). exists (S i), ca'.
           split; [exact Hi |]. split; [exact Hsig |].
           intros [|j] ca'' Hj Hl; simpl in Hl.
           ++ injection Hl as <-. unfold checkersParse.
              rewrite Hck. reflexivity.
           ++ apply (Hbefore j); [lia | exact Hl].
        -- intros (i & ca' & Hi & Hsig & Hbefore).
           destruct i as [|i]; simpl in Hi.
           ++ injection Hi as <-. destruct Hsig as (cs & c & Hcs & Hc & Hm).
              rewrite Hck in Hcs. injection Hcs as <-.
              assert (client.checkers_range sig checkers = true) as Ht
                by (apply checkers_range_true; eauto).
              congruence.
           ++ exists i, ca'. split; [exact Hi |]. split; [exact Hsig |].
              intros j ca'' Hj Hl. apply (Hbefore (S j)); [lia | exact Hl].
Qed.

(** When no authority matches and all checking keys parse, the loop ends
    in the plain message error. *)
Lemma cas_range_rejects sig cas :
  (∀ ca, ca ∈ cas → parse ca ∧ ¬ signed sig ca) →
  client.cas_range ParseAuthorizedKey sig cas
    = Some (Errorf "no matching authority found").
Proof.
  induction cas as [|ca rest IH]; intros Hall; simpl; [reflexivity |].
  destruct (Hall ca ltac:(left)) as [Hparse Hnot].
  unfold checkersParse in Hparse.
  destruct (client.Checkers ParseAuthorizedKey ca) as [checkers err] eqn:Hck.
  simpl in Hparse. subst err.
  destruct (client.checkers_range sig checkers) eqn:Hrange.
  - exfalso. apply Hnot. apply checkers_range_true in Hrange as (c & Hc & Hm).
    exists checkers, c. auto.
  - apply IH. intros ca' Hin. apply Hall. right. exact Hin.
Qed.

(** C1, as amended: a host key that is not a certificate is refused with
    an error in every world, the world untouched (the trust cache is not
    consulted); for a certificate, when the trust cache opens and lists its
    host authorities, the result is nil exactly when one of them has a
    checking key byte-equal to the certificate's [SignatureKey], its
    checking keys and those of the authorities listed before it all
    parsing. *)
Theorem CheckHostSignature_accepts_iff (hostId remote : string)
    (key : ssh.PublicKey) (w : client.World) :
  (∀ blob, key = ssh.PlainKey blob →
     ∀ w', client.CheckHostSignature ParseAuthorizedKey hostId remote key w'
           = (Some (Errorf "expected certificate"), w'))
  ∧ (∀ blob sig, key = ssh.Certificate blob sig →
       client.OpenErr (client.Trust w) = None →
       client.ListErr (client.Trust w) = None →
       (client.CheckHostSignature ParseAuthorizedKey hostId remote key w).1 = None
       ↔ ∃ i ca,
           hostAuthorities w !! i = Some ca ∧ signed sig ca
           ∧ ∀ j ca', j < i → hostAuthorities w !! j = Some ca' →
               parse ca').
Proof.
  split.
  - intros blob -> w'. reflexivity.
  - intros blob sig -> Hopen Hlist.
    unfold client.CheckHostSignature, client.bind, client.boltbk_New,
      client.GetCertAuthorities, client.ret.
    rewrite Hopen, Hlist. simpl. apply cas_range_accepts.
Qed.

(** C3, as amended: for a certificate whose [SignatureKey] matches no
    checking key of any cached host authority, when the trust cache opens
    and lists its host authorities and their checking keys all parse, the
    error returned is the plain [trace.Errorf] message
    [no matching authority found], which carries no error kind. *)
Theorem CheckHostSignature_no_match (hostId remote : string)
    (blob : bytes) (sig : ssh.PublicKey) (w : client.World) :
  client.OpenErr (client.Trust w) = None →
  client.ListErr (client.Trust w) = None →
  (∀ ca, ca ∈ hostAuthorities w → parse ca ∧ ¬ signed sig ca) →
  client.CheckHostSignature ParseAuthorizedKey hostId remote
      (ssh.Certificate blob sig) w
    = (Some (Errorf "no matching authority found"), w)
  ∧ kindOf (Errorf "no matching authority found") = None.
Proof.
  intros Hopen Hlist Hnone. split; [| reflexivity].
  unfold client.CheckHostSignature, client.bind, client.boltbk_New,
    client.GetCertAuthorities, client.ret.
  rewrite Hopen, Hlist. simpl. f_equal. apply cas_range_rejects. exact Hnone.
Qed.

End CheckHostSignature.

(** Examples with the [trace] library of [Samples]. *)
Section TrustExamples.
#[local] Existing Instance Samples.library.

(** C1 at a concrete input: a cache holding the authorities of [keyA] and
    [keyB] accepts the certificate signed by [keyA] and refuses the bare
    key. *)
Lemma CheckHostSignature_accepts_iff_witness :
  let w := TrustInputs.world (TrustInputs.cache [TrustInputs.caA; TrustInputs.caB]) in
  (client.CheckHostSignature Samples.ParseAuthorizedKey "node" "10.0.0.7:3022"
     TrustInputs.certA w).1 = None
  ∧ client.CheckHostSignature Samples.ParseAuthorizedKey "node" "10.0.0.7:3022"
      (ssh.PlainKey TrustInputs.keyA) w
    = (Some (Errorf "expected certificate"), w).
Proof.
  intros w. split.
  - apply (proj2 (CheckHostSignature_accepts_iff Samples.ParseAuthorizedKey
                    "node" "10.0.0.7:3022" TrustInputs.certA w)
             (Byte.x00 :: TrustInputs.keyA) (ssh.PlainKey TrustInputs.keyA)
             eq_refl eq_refl eq_refl).
    exists 0, TrustInputs.caA. split; [reflexivity |]. split.
    + exists [ssh.PlainKey TrustInputs.keyA], (ssh.PlainKey TrustInputs.keyA).
      split; [reflexivity |]. split; [left | reflexivity].
    + intros j ca' Hj. lia.
  - apply (proj1 (CheckHostSignature_accepts_iff Samples.ParseAuthorizedKey
                    "node" "10.0.0.7:3022" (ssh.PlainKey TrustInputs.keyA) w)
             TrustInputs.keyA eq_refl).
Defined.

(** C1 as stated fails: the cache holds the authority of [keyA], whose
    checking key is byte-equal to the certificate's [SignatureKey], but an
    authority with an unreadable checking key is listed before it, and the
    certificate is refused with the parse error. *)
Lemma CheckHostSignature_accepts_iff_counterexample :
  trusted Samples.ParseAuthorizedKey (ssh.PlainKey TrustInputs.keyA)
    (TrustInputs.world
       (TrustInputs.cache [TrustInputs.caBroken; TrustInputs.caA]))
  ∧ (client.CheckHostSignature Samples.ParseAuthorizedKey "node" "10.0.0.7:3022"
       TrustInputs.certA
       (TrustInputs.world
          (TrustInputs.cache [TrustInputs.caBroken; TrustInputs.caA]))).1
    = Some (Traced (Traced (Failure "ssh: no key found"))).
Proof.
  split; [| reflexivity].
  exists TrustInputs.caA, TrustInputs.keyA, (ssh.PlainKey TrustInputs.keyA).
  split; [right; left |]. split; [left |]. split; reflexivity.
Qed.

(** C3 at a concrete input: a cache that holds only the authority of
    [keyB] refuses the certificate signed by [keyA] with the plain
    message. *)
Lemma CheckHostSignature_no_match_witness :
  client.CheckHostSignature Samples.ParseAuthorizedKey "node" "10.0.0.7:3022"
      TrustInputs.certA (TrustInputs.world (TrustInputs.cache [TrustInputs.caB]))
    = (Some (Errorf "no matching authority found"),
       TrustInputs.world (TrustInputs.cache [TrustInputs.caB]))
  ∧ kindOf (Errorf "no matching authority found") = None.
Proof.
  apply (CheckHostSignature_no_match Samples.ParseAuthorizedKey
           "node" "10.0.0.7:3022" (Byte.x00 :: TrustInputs.keyA)
           (ssh.PlainKey TrustInputs.keyA)
           (TrustInputs.world (TrustInputs.cache [TrustInputs.caB]))
           eq_refl eq_refl).
  intros ca Hin. inversion Hin as [|? ? ? Hin']; subst; [| inversion Hin'].
  split; [reflexivity |].
  intros (cs & c & Hcs & Hc & Hm). injection Hcs as <-.
  inversion Hc as [|? ? ? Hc']; subst; [discriminate Hm | inversion Hc'].
Defined.

(** C3 as stated fails: the error returned for a certificate of an
    unknown authority is a plain message; its kind is not
    unknown-authority, it has none. *)
Lemma CheckHostSignature_no_match_counterexample :
  let r := (client.CheckHostSignature Samples.ParseAuthorizedKey "node"
              "10.0.0.7:3022" TrustInputs.certA
              (TrustInputs.world (TrustInputs.cache [TrustInputs.caB]))).1 in
  r = Some (Errorf "no matching authority found")
  ∧ (r ≫= kindOf) = None
  ∧ (r ≫= kindOf) ≠ Some KindUnknownAuthority.
Proof. repeat split. discriminate. Qed.

End TrustExamples.

(** ** The key store *)

(** *** The directory listing *)

Lemma listing_names dir :
  client.Name <$> client.listing dir
  = (merge_sort client.name_le (map_to_list dir)).*1.
Proof.
  unfold client.listing. rewrite <- list_fmap_compose. reflexivity.
Qed.

Lemma listing_NoDup dir : NoDup (client.Name <$> client.listing dir).
Proof.
  rewrite listing_names. rewrite merge_sort_Permutation.
  apply NoDup_fst_map_to_list.
Qed.

Lemma listing_elem dir name f :
  dir !! name = Some f →
  {| client.Name := name; client.FileIsDir := client.IsDir f |}
    ∈ client.listing dir.
Proof.
  intros Hf. unfold client.listing. apply list_elem_of_fmap.
  exists (name, f). split; [reflexivity |].
  rewrite merge_sort_Permutation. apply elem_of_map_to_list. exact Hf.
Qed.

Lemma listing_inv dir file :
  file ∈ client.listing dir →
  ∃ f, dir !! client.Name file = Some f ∧ client.FileIsDir file = client.IsDir f.
Proof.
  unfold client.listing. intros Hin.
  apply list_elem_of_fmap in Hin as ([name f] & -> & Hin).
  rewrite merge_sort_Permutation in Hin. apply elem_of_map_to_list in Hin.
  exists f. split; [exact Hin | reflexivity].
Qed.

Section KeyStoreProofs.
Context {tracelib : trace.Library}.
Variable json_Unmarshal : bytes → result client.Key.

Local Abbreviation body := (client.loadAllKeys_body json_Unmarshal).
Local Abbreviation range := (client.loadAllKeys_range json_Unmarshal).
Local Abbreviation loadAllKeys := (client.loadAllKeys json_Unmarshal).

(** *** One round of the loop *)

(** One round leaves the clock itself and every other file alone, and is
    one of the three cases of [round]. *)
Lemma body_round file keys w :
  let r := body file keys w in
  client.Clock r.2 = client.Clock w
  ∧ (∀ n, n ≠ client.Name file → lookupFile r.2 n = lookupFile w n)
  ∧ round json_Unmarshal file keys w r.1 r.2.
Proof.
  unfold client.loadAllKeys_body.
  destruct (client.isKeyFile file) eqn:Hkey; simpl.
  2:{ split; [reflexivity |]. split; [reflexivity |].
      apply round_skip; [reflexivity | reflexivity | auto |]. left. exact Hkey. }
  unfold client.bind, client.loadKey, client.bind, client.ioutil_ReadFile.
  fold (lookupFile w (client.Name file)).
  destruct (lookupFile w (client.Name file)) as [f|] eqn:Hf; simpl.
  2:{ split; [reflexivity |]. split; [reflexivity |].
      apply round_skip; [reflexivity | reflexivity | by right |]. right.
      intros f' k Hf'. rewrite Hf in Hf'. discriminate. }
  destruct (client.ReadErr f) as [e|] eqn:Hread; simpl.
  { split; [reflexivity |]. split; [reflexivity |].
    apply round_skip; [reflexivity | reflexivity | by right |]. right.
    intros f' k Hf' [Hr _]. rewrite Hf in Hf'. congruence. }
  destruct (json_Unmarshal (client.Data f)) as [k|e] eqn:Hjson; simpl.
  2:{ split; [reflexivity |]. split; [reflexivity |].
      apply round_skip; [reflexivity | reflexivity | by right |]. right.
      intros f' k Hf' [_ Hj]. rewrite Hf in Hf'. congruence. }
  unfold time.Before.
  destruct (Z.ltb_spec (client.Clock w (client.Ticks w)) (client.Deadline k))
    as [Hlt|Hge]; simpl.
  { split; [reflexivity |]. split; [reflexivity |].
    eapply round_keep; eauto. split; assumption. }
  unfold client.os_Remove. simpl.
  pose proof Hf as Hf0. unfold lookupFile in Hf.
  destruct (client.KeysDir w) as [dir|] eqn:Hdir; [| discriminate].
  simpl in Hf. rewrite Hf.
  destruct (client.RemoveErr f) as [e|] eqn:Hrm; simpl.
  - split; [reflexivity |]. split; [reflexivity |].
    eapply round_prune; eauto; [split; assumption |].
    rewrite Hrm. split; [exact Hf0 | reflexivity].
  - split; [reflexivity |]. split.
    + intros n Hn. unfold lookupFile. simpl. rewrite Hdir. simpl.
      apply lookup_delete_ne. congruence.
    + eapply round_prune; eauto; [split; assumption |].
      rewrite Hrm. split; [| reflexivity].
      unfold lookupFile. simpl. apply lookup_delete_eq.
Qed.

(** A round reads the clock at most once, creates and changes no file and
    only adds to the log. *)
Lemma round_frame file keys w keys1 w1 :
  round json_Unmarshal file keys w keys1 w1 →
  client.Ticks w ≤ client.Ticks w1 ≤ S (client.Ticks w)
  ∧ (∀ f, lookupFile w1 (client.Name file) = Some f →
          lookupFile w (client.Name file) = Some f)
  ∧ (∀ e, e ∈ client.Log w → e ∈ client.Log w1).
Proof.
  intros [w1' Ht Hl Hlog _ | f k w1' _ Hf _ _ Ht Hl Hlog | f k w1' _ Hf _ _ Ht Hrm].
  - split; [lia |]. split; [| exact Hlog]. intros f. rewrite Hl. auto.
  - split; [lia |]. split; [| by rewrite Hlog]. intros f'. rewrite Hl, Hf. auto.
  - split; [lia |]. destruct (client.RemoveErr f) as [e|]; destruct Hrm as [Hl Hlog].
    + split; [by rewrite Hl, Hf |]. intros e' He'. rewrite Hlog. by right.
    + split; [by rewrite Hl |]. by rewrite Hlog.
Qed.

Lemma decodes_inj f k1 k2 :
  decodes json_Unmarshal f k1 → decodes json_Unmarshal f k2 → k1 = k2.
Proof. intros [_ H1] [_ H2]. congruence. Qed.

(** *** The loop *)

Lemma range_cons file rest keys w :
  range (file :: rest) keys w
  = range rest (body file keys w).1 (body file keys w).2.
Proof.
  simpl. unfold client.bind. destruct (body file keys w). reflexivity.
Qed.

(** The first round of the loop, then the rest of it. *)
Lemma range_step file rest keys w :
  ∃ keys1 w1,
    range (file :: rest) keys w = range rest keys1 w1
    ∧ client.Clock w1 = client.Clock w
    ∧ (∀ n, n ≠ client.Name file → lookupFile w1 n = lookupFile w n)
    ∧ round json_Unmarshal file keys w keys1 w1.
Proof.
  exists (body file keys w).1, (body file keys w).2.
  split; [apply range_cons | apply body_round].
Qed.

(** The loop leaves the clock alone, only reads it, only adds to the log,
    and neither creates nor changes a file; the files it was not given
    stay. *)
Lemma range_frame files keys w :
  let r := range files keys w in
  client.Clock r.2 = client.Clock w
  ∧ client.Ticks w ≤ client.Ticks r.2
  ∧ (∀ n f, lookupFile r.2 n = Some f → lookupFile w n = Some f)
  ∧ (∀ n, n ∉ client.Name <$> files → lookupFile r.2 n = lookupFile w n)
  ∧ (∀ e, e ∈ client.Log w → e ∈ client.Log r.2).
Proof.
  revert keys w. induction files as [|file rest IH]; intros keys w.
  { simpl. repeat split; auto. }
  destruct (range_step file rest keys w)
    as (keys1 & w1 & -> & Hclock & Hother & Hround).
  apply round_frame in Hround as (Hticks & Hsame & Hlog).
  destruct (IH keys1 w1) as (Hclock' & Hticks' & Hsame' & Hother' & Hlog').
  cbv zeta. repeat split.
  - congruence.
  - lia.
  - intros n f Hn. apply Hsame' in Hn.
    destruct (decide (n = client.Name file)) as [->|Hne]; [auto |].
    rewrite <- Hother; assumption.
  - intros n Hn. rewrite fmap_cons in Hn. apply not_elem_of_cons in Hn as [Hne Hn].
    rewrite Hother'; [| exact Hn]. apply Hother. exact Hne.
  - auto.
Qed.

(** A file that does not decode stays where it is. *)
Lemma range_keeps files keys w n f :
  lookupFile w n = Some f →
  (∀ k, ¬ decodes json_Unmarshal f k) →
  lookupFile (range files keys w).2 n = Some f.
Proof.
  revert keys w. induction files as [|file rest IH]; intros keys w Hf Hbad.
  { exact Hf. }
  destruct (range_step file rest keys w) as (keys1 & w1 & -> & _ & Hother & Hround).
  apply IH; [| exact Hbad].
  destruct (decide (n = client.Name file)) as [->|Hne]; [| rewrite Hother; auto].
  destruct Hround as [w1 _ Hl _ _ | f0 k w1 _ Hf0 Hdec _ _ _ _
                      | f0 k w1 _ Hf0 Hdec _ _ _].
  - rewrite Hl. exact Hf.
  - rewrite Hf in Hf0. injection Hf0 as <-. destruct (Hbad k Hdec).
  - rewrite Hf in Hf0. injection Hf0 as <-. destruct (Hbad k Hdec).
Qed.

(** Every key the loop adds was decoded from a key file it was given, and
    was read at a moment before its deadline. *)
Lemma range_added files keys w :
  ∃ added,
    (range files keys w).1 = keys ++ added
    ∧ ∀ k, k ∈ added →
        ∃ file f i,
          file ∈ files ∧ client.isKeyFile file = true
          ∧ lookupFile w (client.Name file) = Some f
          ∧ decodes json_Unmarshal f k
          ∧ client.Ticks w ≤ i < client.Ticks (range files keys w).2
          ∧ (client.Clock w i < client.Deadline k)%Z.
Proof.
  revert keys w. induction files as [|file rest IH]; intros keys w.
  { exists []. simpl. split; [by rewrite app_nil_r |]. intros k Hk. inversion Hk. }
  destruct (range_step file rest keys w)
    as (keys1 & w1 & -> & Hclock & Hother & Hround).
  pose proof (round_frame _ _ _ _ _ Hround) as (Hticks & Hsame & _).
  destruct (IH keys1 w1) as (added & Heq & Hadded).
  destruct (range_frame rest keys1 w1) as (_ & Hticks' & _). cbv zeta in Hticks'.
  assert (Hrest : ∀ k, k ∈ added →
            ∃ file0 f i,
              file0 ∈ file :: rest ∧ client.isKeyFile file0 = true
              ∧ lookupFile w (client.Name file0) = Some f
              ∧ decodes json_Unmarshal f k
              ∧ client.Ticks w ≤ i < client.Ticks (range rest keys1 w1).2
              ∧ (client.Clock w i < client.Deadline k)%Z).
  { intros k Hk.
    destruct (Hadded k Hk) as (file0 & f & i & Hin & Hkey & Hf & Hdec & Hi & Hlt).
    exists file0, f, i. split; [right; exact Hin |]. split; [exact Hkey |].
    split.
    - destruct (decide (client.Name file0 = client.Name file)) as [Heq0|Hne].
      + rewrite Heq0 in *. auto.
      + rewrite <- Hother; auto.
    - split; [exact Hdec |]. split; [lia |]. rewrite <- Hclock. exact Hlt. }
  rewrite Heq. clear Heq Hadded.
  destruct Hround as [w1 Ht Hl _ _ | f k w1 Hkey Hf Hdec Hlt Ht Hl _
                      | f k w1 _ _ _ _ _ _].
  - exists added. split; [reflexivity | exact Hrest].
  - exists (k :: added). split; [by rewrite <- app_assoc |].
    intros k' Hk'. apply elem_of_cons in Hk' as [->|Hk']; [| auto].
    exists file, f, (client.Ticks w). split; [left |].
    split; [exact Hkey |]. split; [exact Hf |]. split; [exact Hdec |].
    split; [lia | exact Hlt].
  - exists added. split; [reflexivity | exact Hrest].
Qed.

(** Every decodable key file the loop is given is examined at some reading
    of the clock: before its deadline the key is returned and the file
    stays, otherwise it is pruned. *)
Lemma range_each files keys w :
  NoDup (client.Name <$> files) →
  ∀ file f k,
    file ∈ files → client.isKeyFile file = true →
    lookupFile w (client.Name file) = Some f →
    decodes json_Unmarshal f k →
    ∃ i, client.Ticks w ≤ i < client.Ticks (range files keys w).2
      ∧ (((client.Clock w i < client.Deadline k)%Z
          ∧ k ∈ (range files keys w).1
          ∧ lookupFile (range files keys w).2 (client.Name file) = Some f)
         ∨ ((client.Deadline k ≤ client.Clock w i)%Z
            ∧ pruned f (client.Name file) (range files keys w).2)).
Proof.
  revert keys w. induction files as [|file0 rest IH];
    intros keys w Hnodup file f k Hin Hkey Hf Hdec.
  { inversion Hin. }
  rewrite fmap_cons in Hnodup. apply NoDup_cons in Hnodup as [Hfresh Hnodup].
  destruct (range_step file0 rest keys w)
    as (keys1 & w1 & -> & Hclock & Hother & Hround).
  pose proof (round_frame _ _ _ _ _ Hround) as (Hticks & Hsame & _).
  destruct (range_frame rest keys1 w1) as (_ & Hticks' & _ & Hout & Hlog).
  cbv zeta in Hticks', Hout, Hlog.
  apply elem_of_cons in Hin as [->|Hin].
  - (* the file examined in this round *)
    destruct (range_added rest keys1 w1) as (added & Heq & _).
    rewrite Heq. clear Heq.
    destruct Hround as [w1 Ht Hl _ Hskip | f1 k1 w1 _ Hf1 Hdec1 Hlt Ht Hl _
                        | f1 k1 w1 _ Hf1 Hdec1 Hge Ht Hrm].
    + destruct Hskip as [Hno|Hno]; [congruence | destruct (Hno f k Hf Hdec)].
    + rewrite Hf in Hf1. injection Hf1 as <-.
      rewrite (decodes_inj _ _ _ Hdec1 Hdec) in *.
      exists (client.Ticks w). split; [lia |]. left. split; [exact Hlt |]. split.
      * apply elem_of_app. left. apply elem_of_app. right. left.
      * rewrite Hout; auto.
    + rewrite Hf in Hf1. injection Hf1 as <-.
      rewrite (decodes_inj _ _ _ Hdec1 Hdec) in *.
      exists (client.Ticks w). split; [lia |]. right. split; [exact Hge |].
      unfold pruned. destruct (client.RemoveErr f) as [e|]; destruct Hrm as [Hl Hlg].
      * apply Hlog. rewrite Hlg. left.
      * rewrite Hout; [exact Hl | exact Hfresh].
  - (* a file examined later *)
    assert (Hne : client.Name file ≠ client.Name file0).
    { intros Heq. apply Hfresh. rewrite <- Heq. apply list_elem_of_fmap. eauto. }
    destruct (IH keys1 w1 Hnodup file f k Hin Hkey)
      as (i & Hi & Hcase); [rewrite Hother; auto | exact Hdec |].
    exists i. split; [lia |]. rewrite <- Hclock. exact Hcase.
Qed.

(** *** [loadAllKeys] *)

Lemma loadAllKeys_listed w dir :
  client.KeysDir w = Some dir → client.ReadDirErr w = None →
  loadAllKeys w
  = (((range (client.listing dir) [] w).1, None), (range (client.listing dir) [] w).2).
Proof.
  intros Hdir Herr.
  unfold client.loadAllKeys, client.bind, client.ioutil_ReadDir, client.ret.
  rewrite Hdir, Herr. destruct (range (client.listing dir) [] w). reflexivity.
Qed.

Lemma loadAllKeys_failed w :
  (loadAllKeys w).1.2 ≠ None →
  loadAllKeys w = (([], (loadAllKeys w).1.2), w).
Proof.
  unfold client.loadAllKeys, client.bind, client.ioutil_ReadDir, client.ret.
  destruct (client.KeysDir w) as [dir|]; [| reflexivity].
  destruct (client.ReadDirErr w) as [e|]; [reflexivity |].
  destruct (range (client.listing dir) [] w). simpl. congruence.
Qed.

Lemma loadAllKeys_nil_inv w :
  (loadAllKeys w).1.2 = None →
  ∃ dir, client.KeysDir w = Some dir ∧ client.ReadDirErr w = None.
Proof.
  unfold client.loadAllKeys, client.bind, client.ioutil_ReadDir, client.ret.
  destruct (client.KeysDir w) as [dir|]; [| discriminate].
  destruct (client.ReadDirErr w) as [e|]; [discriminate |]. eauto.
Qed.

(** Every returned key was read, at some moment of the call, before its
    deadline, from a key file of the directory. *)
Lemma loadAllKeys_returned w k :
  k ∈ (loadAllKeys w).1.1 →
  ∃ name f i,
    lookupFile w name = Some f ∧ keyFile name f ∧ decodes json_Unmarshal f k
    ∧ client.Ticks w ≤ i < client.Ticks (loadAllKeys w).2
    ∧ (client.Clock w i < client.Deadline k)%Z.
Proof.
  destruct ((loadAllKeys w).1.2) as [e|] eqn:Herr.
  { rewrite loadAllKeys_failed by congruence. intros Hk. inversion Hk. }
  destruct (loadAllKeys_nil_inv w Herr) as (dir & Hdir & Hread).
  rewrite (loadAllKeys_listed w dir Hdir Hread). simpl.
  destruct (range_added (client.listing dir) [] w) as (added & Heq & Hadded).
  rewrite Heq. simpl. intros Hk.
  destruct (Hadded k Hk) as (file & f & i & Hin & Hkey & Hf & Hdec & Hi & Hlt).
  exists (client.Name file), f, i. split; [exact Hf |]. split; [| auto].
  apply listing_inv in Hin as (f' & Hf' & Hisdir).
  unfold lookupFile in Hf. rewrite Hdir in Hf. simpl in Hf.
  rewrite Hf in Hf'. injection Hf' as <-.
  unfold keyFile. rewrite <- Hisdir. destruct file. exact Hkey.
Qed.

(** Every decodable key file of the directory is examined at some moment
    of the call: before its deadline the key is returned and the file stays,
    otherwise it is pruned. *)
Lemma loadAllKeys_examined w name f k :
  (loadAllKeys w).1.2 = None →
  lookupFile w name = Some f → keyFile name f → decodes json_Unmarshal f k →
  ∃ i, client.Ticks w ≤ i < client.Ticks (loadAllKeys w).2
    ∧ (((client.Clock w i < client.Deadline k)%Z
        ∧ k ∈ (loadAllKeys w).1.1
        ∧ lookupFile (loadAllKeys w).2 name = Some f)
       ∨ ((client.Deadline k ≤ client.Clock w i)%Z
          ∧ pruned f name (loadAllKeys w).2)).
Proof.
  intros Herr Hf Hkey Hdec.
  destruct (loadAllKeys_nil_inv w Herr) as (dir & Hdir & Hread).
  rewrite (loadAllKeys_listed w dir Hdir Hread). simpl.
  assert (Hin : dir !! name = Some f).
  { unfold lookupFile in Hf. rewrite Hdir in Hf. exact Hf. }
  apply (range_each (client.listing dir) [] w (listing_NoDup dir)
           {| client.Name := name; client.FileIsDir := client.IsDir f |} f k);
    [apply listing_elem; exact Hin | exact Hkey | exact Hf | exact Hdec].
Qed.

End KeyStoreProofs.

(** *** The agent *)

Section AgentProofs.
Context {tracelib : trace.Library}.
Variable json_Unmarshal : bytes → result client.Key.
Variable ParseAuthorizedKey : bytes → result ssh.PublicKey.
Variable ParseRawPrivateKey : bytes → result ssh.PrivateKey.
Variable keyring_AddErr : agent.AddedKey → option error.

Local Abbreviation loadAllKeys := (client.loadAllKeys json_Unmarshal).
Local Abbreviation addedKeys_range :=
  (client.addedKeys_range ParseAuthorizedKey ParseRawPrivateKey).
Local Abbreviation GetLocalAgentKeys :=
  (client.GetLocalAgentKeys json_Unmarshal ParseAuthorizedKey ParseRawPrivateKey).
Local Abbreviation GetLocalAgent :=
  (client.GetLocalAgent json_Unmarshal ParseAuthorizedKey ParseRawPrivateKey
     keyring_AddErr).
Local Abbreviation built := (builtFrom ParseAuthorizedKey ParseRawPrivateKey).
Local Abbreviation fit :=
  (usable ParseAuthorizedKey ParseRawPrivateKey keyring_AddErr).

(** The keys handed to the agent are built, in order, from the stored
    keys. *)
Lemma addedKeys_range_built keys acc aks :
  addedKeys_range keys acc = Returns (aks, None) →
  ∃ new, aks = acc ++ new ∧ Forall2 built keys new.
Proof.
  revert acc. induction keys as [|key rest IH]; intros acc; simpl.
  { intros [= <-]. exists []. split; [by rewrite app_nil_r | constructor]. }
  destruct (ParseAuthorizedKey (client.Cert key)) as [pcert|e] eqn:Hcert;
    [| discriminate].
  destruct (ParseRawPrivateKey (client.Priv key)) as [pk|e] eqn:Hpriv;
    [| discriminate].
  destruct pcert as [blob|blob sig]; [discriminate |].
  intros Hrest. apply IH in Hrest as (new & -> & Hbuilt).
  eexists (_ :: new). split; [by rewrite <- app_assoc |].
  constructor; [| exact Hbuilt]. repeat split; assumption.
Qed.

(** Stored keys that can go into the agent all do. *)
Lemma addedKeys_range_usable keys acc :
  (∀ k, k ∈ keys → fit k) →
  ∃ new,
    addedKeys_range keys acc = Returns (acc ++ new, None)
    ∧ ∀ ak, ak ∈ new → keyring_AddErr ak = None.
Proof.
  revert acc. induction keys as [|key rest IH]; intros acc Hfit; simpl.
  { exists []. split; [by rewrite app_nil_r |]. intros ak Hak. inversion Hak. }
  destruct (Hfit key ltac:(left)) as (blob & sig & pk & Hcert & Hpriv & Hadd).
  rewrite Hcert, Hpriv.
  destruct (IH (acc ++ [{| agent.PrivateKey := pk;
                           agent.Certificate := ssh.Certificate blob sig;
                           agent.Comment := ""; agent.LifetimeSecs := 0;
                           agent.ConfirmBeforeUse := false |}]))
    as (new & Heq & Hnew).
  { intros k Hk. apply Hfit. right. exact Hk. }
  eexists (_ :: new). split; [rewrite Heq, <- app_assoc; reflexivity |].
  intros ak Hak. apply elem_of_cons in Hak as [->|Hak]; auto.
Qed.

Lemma keyring_range_inv keys keyring result :
  client.keyring_range keyring_AddErr keys keyring = (Some result, None) →
  result = keyring ++ keys.
Proof.
  revert keyring. induction keys as [|key rest IH]; intros keyring; simpl.
  { intros [= <-]. by rewrite app_nil_r. }
  destruct (keyring_AddErr key); [discriminate |].
  intros H. apply IH in H. by rewrite <- app_assoc in H.
Qed.

Lemma keyring_range_ok keys keyring :
  (∀ ak, ak ∈ keys → keyring_AddErr ak = None) →
  client.keyring_range keyring_AddErr keys keyring = (Some (keyring ++ keys), None).
Proof.
  revert keyring. induction keys as [|key rest IH]; intros keyring Hok; simpl.
  { by rewrite app_nil_r. }
  rewrite (Hok key) by left. rewrite IH; [by rewrite <- app_assoc |].
  intros ak Hak. apply Hok. right. exact Hak.
Qed.

(** [initKeysDir] either fails, or leaves a world with the same clock in
    which the directory exists: the one that was there, or a new empty
    one. *)
Lemma initKeysDir_cases w :
  let r := client.initKeysDir w in
  (r.1 ≠ None ∧ r.2 = w)
  ∨ (r.1 = None ∧ r.2 = w ∧ client.KeysDir w ≠ None ∧ client.StatErr w = None)
  ∨ (r.1 = None ∧ client.KeysDir w = None
     ∧ r.2 = client.with_KeysDir (Some ∅) w).
Proof.
  unfold client.initKeysDir.
  destruct (client.KeysDir w) as [dir|] eqn:Hdir.
  - destruct (client.StatErr w); simpl; [left | right; left]; auto.
  - destruct (client.MkdirErr w); simpl; [left | right; right]; auto.
Qed.

(** In a directory that was just created there is nothing to load. *)
Lemma loadAllKeys_empty w :
  client.KeysDir w = None →
  (loadAllKeys (client.with_KeysDir (Some ∅) w)).1.1 = [].
Proof.
  intros _.
  unfold client.loadAllKeys, client.bind, client.ioutil_ReadDir, client.ret.
  simpl. destruct (client.ReadDirErr w); reflexivity.
Qed.

(** [GetLocalAgentKeys] returns keys only when the directory is there or
    could be made; they are built from the keys [loadAllKeys] returns. *)
Lemma GetLocalAgentKeys_inv w aks :
  (GetLocalAgentKeys w).1 = Returns (aks, None) →
  ∃ w0 keys w1,
    client.initKeysDir w = (None, w0)
    ∧ loadAllKeys w0 = ((keys, None), w1)
    ∧ Forall2 built keys aks.
Proof.
  unfold client.GetLocalAgentKeys, client.bind, client.ret.
  destruct (client.initKeysDir w) as [[e|] w0]; [discriminate |].
  destruct (client.loadAllKeys json_Unmarshal w0) as [[keys [e|]] w1] eqn:Hload;
    [discriminate |].
  simpl. intros Hadded. apply addedKeys_range_built in Hadded as (new & -> & Hb).
  exists w0, keys, w1. auto.
Qed.

Lemma GetLocalAgent_inv w keyring :
  (GetLocalAgent w).1 = Returns (Some keyring, None) →
  (GetLocalAgentKeys w).1 = Returns (keyring, None).
Proof.
  unfold client.GetLocalAgent, client.bind, client.ret.
  destruct (client.GetLocalAgentKeys _ _ _ w) as [[[aks [e|]]|] w1]; simpl;
    [discriminate | | discriminate].
  intros [= H]. apply keyring_range_inv in H. subst. reflexivity.
Qed.

(** Stored keys that are past their deadline when a call starts, under a
    clock that never runs backwards, are past it at every reading of the
    call. *)
Lemma monotone_from w i :
  monotone (client.Clock w) → client.Ticks w ≤ i →
  (client.Clock w (client.Ticks w) ≤ client.Clock w i)%Z.
Proof. intros Hmono Hi. apply Hmono. exact Hi. Qed.

Lemma loadAllKeys_fresh w k :
  monotone (client.Clock w) →
  k ∈ (loadAllKeys w).1.1 →
  (client.Clock w (client.Ticks w) < client.Deadline k)%Z.
Proof.
  intros Hmono Hk.
  apply loadAllKeys_returned in Hk as (name & f & i & _ & _ & _ & Hi & Hlt).
  pose proof (monotone_from w i Hmono ltac:(lia)). lia.
Qed.

Lemma initKeysDir_clock w :
  client.Clock (client.initKeysDir w).2 = client.Clock w
  ∧ client.Ticks (client.initKeysDir w).2 = client.Ticks w.
Proof.
  unfold client.initKeysDir.
  destruct (client.KeysDir w), (client.StatErr w), (client.MkdirErr w); auto.
Qed.

(** Under a clock that never runs backwards, every key [loadAllKeys]
    returns is stored and fresh at the time the call starts. *)
Lemma loadAllKeys_storedFresh w k :
  monotone (client.Clock w) →
  k ∈ (loadAllKeys w).1.1 →
  storedFresh json_Unmarshal w (client.Clock w (client.Ticks w)) k.
Proof.
  intros Hmono Hk.
  apply loadAllKeys_returned in Hk as (name & f & i & Hf & Hkey & Hdec & Hi & Hlt).
  exists name, f. split; [exact Hf |]. split; [exact Hkey |].
  split; [exact Hdec |].
  pose proof (monotone_from w i Hmono ltac:(lia)). lia.
Qed.

(** The keys [GetLocalAgentKeys] returns are built, one for one and in
    order, from stored keys whose deadline is after the time the call
    started. *)
Lemma GetLocalAgentKeys_fresh w aks :
  monotone (client.Clock w) →
  (GetLocalAgentKeys w).1 = Returns (aks, None) →
  ∃ keys,
    Forall2 built keys aks
    ∧ ∀ k, k ∈ keys →
        storedFresh json_Unmarshal w (client.Clock w (client.Ticks w)) k.
Proof.
  intros Hmono Haks.
  apply GetLocalAgentKeys_inv in Haks as (w0 & keys & w1 & Hinit & Hload & Hbuilt).
  exists keys. split; [exact Hbuilt |]. intros k Hk.
  destruct (initKeysDir_cases w) as [[Hfail _] | [(_ & Hsame & _) | (_ & Hnone & Hnew)]];
    cbv zeta in *; rewrite Hinit in *; simpl in *.
  - congruence.
  - subst w0. apply loadAllKeys_storedFresh; [exact Hmono |].
    rewrite Hload. exact Hk.
  - subst w0. pose proof (loadAllKeys_empty w Hnone) as Hempty.
    rewrite Hload in Hempty. simpl in Hempty. subst keys. inversion Hk.
Qed.

(** C2, as amended: under a clock that never runs backwards, with "now"
    the time at which the call starts, every call of [loadAllKeys] that
    lists the key directory prunes every decodable key file whose deadline
    is not after now ([os.Remove] takes it from the directory, or fails with
    an error that is logged and leaves it) and does not return its key;
    every key returned has a deadline strictly after now; and the keys of
    [GetLocalAgentKeys] and of the keyring of [GetLocalAgent] are built,
    one for one and in order, from keys that key files of the directory
    decode to and whose deadline is strictly after now. *)
Theorem loadAllKeys_prunes_expired (w : client.World) :
  monotone (client.Clock w) →
  let now := client.Clock w (client.Ticks w) in
  let r := loadAllKeys w in
  (r.1.2 = None →
   ∀ name f k,
     lookupFile w name = Some f → keyFile name f → decodes json_Unmarshal f k →
     (client.Deadline k ≤ now)%Z →
     pruned f name r.2 ∧ k ∉ r.1.1)
  ∧ (∀ k, k ∈ r.1.1 → (now < client.Deadline k)%Z)
  ∧ (∀ aks, (GetLocalAgentKeys w).1 = Returns (aks, None) →
       ∃ keys,
         Forall2 built keys aks
         ∧ ∀ k, k ∈ keys → storedFresh json_Unmarshal w now k)
  ∧ (∀ keyring, (GetLocalAgent w).1 = Returns (Some keyring, None) →
       ∃ keys,
         Forall2 built keys keyring
         ∧ ∀ k, k ∈ keys → storedFresh json_Unmarshal w now k).
Proof.
  intros Hmono now r. split; [| split; [| split]].
  - intros Herr name f k Hf Hkey Hdec Hpast. split.
    + destruct (loadAllKeys_examined json_Unmarshal w name f k Herr Hf Hkey Hdec)
        as (i & Hi & [(Hlt & _) | (_ & Hpruned)]); [| exact Hpruned].
      pose proof (monotone_from w i Hmono ltac:(lia)). subst now. lia.
    + intros Hin. apply (loadAllKeys_fresh w k Hmono) in Hin. subst now. lia.
  - intros k Hk. apply loadAllKeys_fresh; assumption.
  - intros aks Haks. apply GetLocalAgentKeys_fresh; assumption.
  - intros keyring Hring. apply GetLocalAgent_inv in Hring.
    apply GetLocalAgentKeys_fresh; assumption.
Qed.

(** C9: when a key file of the directory fails to read or to decode, and
    the directory can be listed, [loadAllKeys] returns a nil error, leaves
    that file on disk, and returns the key of every decodable key file that
    stays before its deadline throughout the call; and when the stored keys
    that do decode can go into the agent, [GetLocalAgentKeys] and
    [GetLocalAgent] succeed, whatever the corrupt file holds. *)
Theorem loadAllKeys_skips_corrupt (w : client.World)
    (dir : gmap string client.File) (name : string) (f : client.File) :
  client.KeysDir w = Some dir →
  client.ReadDirErr w = None →
  dir !! name = Some f →
  keyFile name f →
  corrupt json_Unmarshal f →
  let r := loadAllKeys w in
  r.1.2 = None
  ∧ lookupFile r.2 name = Some f
  ∧ (∀ name' f' k,
       lookupFile w name' = Some f' → keyFile name' f' →
       decodes json_Unmarshal f' k →
       (∀ i, client.Ticks w ≤ i → (client.Clock w i < client.Deadline k)%Z) →
       k ∈ r.1.1)
  ∧ (client.StatErr w = None →
     (∀ name' f' k,
        lookupFile w name' = Some f' → keyFile name' f' →
        decodes json_Unmarshal f' k → fit k) →
     (∃ aks, (GetLocalAgentKeys w).1 = Returns (aks, None))
     ∧ (∃ keyring, (GetLocalAgent w).1 = Returns (Some keyring, None))).
Proof.
  intros Hdir Hread Hf Hkey Hbad r.
  assert (Herr : r.1.2 = None).
  { subst r. rewrite (loadAllKeys_listed json_Unmarshal w dir Hdir Hread). reflexivity. }
  assert (Hlook : lookupFile w name = Some f).
  { unfold lookupFile. rewrite Hdir. exact Hf. }
  split; [exact Herr |]. split; [| split].
  - subst r. rewrite (loadAllKeys_listed json_Unmarshal w dir Hdir Hread). simpl.
    apply range_keeps; [exact Hlook |].
    intros k [Hr Hj]. destruct Hbad as [Hbad | [e Hbad]]; congruence.
  - intros name' f' k Hf' Hkey' Hdec Hfresh.
    destruct (loadAllKeys_examined json_Unmarshal w name' f' k Herr Hf' Hkey' Hdec)
      as (i & Hi & [(_ & Hin & _) | (Hpast & _)]); [exact Hin |].
    specialize (Hfresh i ltac:(lia)). lia.
  - intros Hstat Hfit.
    assert (Hall : ∀ k, k ∈ r.1.1 → fit k).
    { intros k Hk.
      apply loadAllKeys_returned in Hk as (n & f' & i & Hf' & Hkey' & Hdec & _).
      eapply Hfit; eauto. }
    destruct (addedKeys_range_usable r.1.1 [] Hall) as (new & Hnew & Hadd).
    assert (Hkeys : (GetLocalAgentKeys w).1 = Returns (new, None)).
    { unfold client.GetLocalAgentKeys, client.bind, client.ret, client.initKeysDir.
      rewrite Hdir, Hstat. fold r.
      destruct r as [[keys err] w1] eqn:Hr. simpl in *. subst err. exact Hnew. }
    split; [eauto |].
    exists new. unfold client.GetLocalAgent, client.bind, client.ret.
    fold (GetLocalAgentKeys w).
    destruct (GetLocalAgentKeys w) as [res w2]. simpl in Hkeys. subst res.
    rewrite (keyring_range_ok new [] Hadd). reflexivity.
Qed.

End AgentProofs.

(** Examples with the [trace] library of [Samples]. *)
Section KeyStoreExamples.
#[local] Existing Instance Samples.library.

(** C2 at a concrete input: at 10 seconds, with a key that expired at 5
    seconds and one good until 200 seconds in the directory, the expired
    file is pruned, its key is not returned, what is returned is not
    expired, and the keys of the agent are built from stored keys that are
    not expired. *)
Lemma loadAllKeys_prunes_expired_witness :
  let w := KeyInputs.world KeyInputs.twoKeys in
  let r := client.loadAllKeys Samples.json_Unmarshal w in
  monotone (client.Clock w)
  ∧ pruned KeyInputs.oldFile "teleport_old.tkey" r.2
  ∧ (KeyInputs.oldKey ∉ r.1.1)
  ∧ (∀ k, k ∈ r.1.1 → (client.Clock w (client.Ticks w) < client.Deadline k)%Z)
  ∧ ∃ aks keys,
      (client.GetLocalAgentKeys Samples.json_Unmarshal Samples.ParseAuthorizedKey
         Samples.ParseRawPrivateKey w).1 = Returns (aks, None)
      ∧ Forall2 (builtFrom Samples.ParseAuthorizedKey Samples.ParseRawPrivateKey)
          keys aks
      ∧ ∀ k, k ∈ keys →
          storedFresh Samples.json_Unmarshal w (client.Clock w (client.Ticks w)) k.
Proof.
  assert (Hmono : monotone (client.Clock (KeyInputs.world KeyInputs.twoKeys))).
  { intros i j _. simpl. lia. }
  destruct (loadAllKeys_prunes_expired Samples.json_Unmarshal
              Samples.ParseAuthorizedKey Samples.ParseRawPrivateKey (fun _ => None)
              (KeyInputs.world KeyInputs.twoKeys) Hmono)
    as (Hprune & Hfresh & Hagent & _).
  split; [exact Hmono |].
  destruct (Hprune eq_refl "teleport_old.tkey" KeyInputs.oldFile KeyInputs.oldKey)
    as [Hgone Hout].
  - vm_compute. reflexivity.
  - vm_compute. reflexivity.
  - split; reflexivity.
  - vm_compute. discriminate.
  - split; [exact Hgone |]. split; [exact Hout |]. split; [exact Hfresh |].
    destruct (client.GetLocalAgentKeys Samples.json_Unmarshal
                Samples.ParseAuthorizedKey Samples.ParseRawPrivateKey
                (KeyInputs.world KeyInputs.twoKeys)).1
      as [[aks [e|]]|] eqn:Haks.
    + vm_compute in Haks. discriminate Haks.
    + destruct (Hagent aks eq_refl) as (keys & Hbuilt & Hstored).
      exists aks, keys. split; [reflexivity |]. split; assumption.
    + vm_compute in Haks. discriminate Haks.
Defined.

(** C2 as stated fails: the key file expired at 5 seconds, it is 10
    seconds, [loadAllKeys] returns no key and a nil error, but [os.Remove]
    was refused and the file is still on disk; the refusal is in the log. *)
Lemma loadAllKeys_prunes_expired_counterexample :
  let w := KeyInputs.world KeyInputs.stickyKey in
  let r := client.loadAllKeys Samples.json_Unmarshal w in
  lookupFile w "teleport_old.tkey" = Some KeyInputs.stickyFile
  ∧ keyFile "teleport_old.tkey" KeyInputs.stickyFile
  ∧ decodes Samples.json_Unmarshal KeyInputs.stickyFile KeyInputs.oldKey
  ∧ (client.Deadline KeyInputs.oldKey ≤ client.Clock w (client.Ticks w))%Z
  ∧ r.1 = ([], None)
  ∧ lookupFile r.2 "teleport_old.tkey" = Some KeyInputs.stickyFile
  ∧ client.Log r.2
    = [Failure "remove teleport_old.tkey: operation not permitted"].
Proof.
  vm_compute. repeat split. discriminate.
Qed.

(** C9 at a concrete input: an empty key file next to a good one; the
    call succeeds, the empty file stays, the good key is returned and the
    agent is built. *)
Lemma loadAllKeys_skips_corrupt_witness :
  let w := KeyInputs.world KeyInputs.corruptAndNew in
  let r := client.loadAllKeys Samples.json_Unmarshal w in
  r.1.2 = None
  ∧ lookupFile r.2 "teleport_bad.tkey" = Some KeyInputs.emptyFile
  ∧ KeyInputs.newKey ∈ r.1.1
  ∧ (∃ aks,
       (client.GetLocalAgentKeys Samples.json_Unmarshal Samples.ParseAuthorizedKey
          Samples.ParseRawPrivateKey w).1 = Returns (aks, None))
  ∧ (∃ keyring,
       (client.GetLocalAgent Samples.json_Unmarshal Samples.ParseAuthorizedKey
          Samples.ParseRawPrivateKey (fun _ => None) w).1
         = Returns (Some keyring, None)).
Proof.
  destruct (loadAllKeys_skips_corrupt Samples.json_Unmarshal
              Samples.ParseAuthorizedKey Samples.ParseRawPrivateKey (fun _ => None)
              (KeyInputs.world KeyInputs.corruptAndNew) KeyInputs.corruptAndNew
              "teleport_bad.tkey" KeyInputs.emptyFile)
    as (Hnil & Hstays & Hreturned & Hagent).
  - reflexivity.
  - reflexivity.
  - vm_compute. reflexivity.
  - vm_compute. reflexivity.
  - right. exists (Failure "unexpected end of JSON input"). reflexivity.
  - split; [exact Hnil |]. split; [exact Hstays |]. split.
    + apply (Hreturned "teleport_new.tkey" KeyInputs.newFile KeyInputs.newKey).
      * vm_compute. reflexivity.
      * vm_compute. reflexivity.
      * split; reflexivity.
      * intros i _. vm_compute. reflexivity.
    + apply Hagent; [reflexivity |].
      intros name' f' k Hf' _ [_ Hdec]. unfold lookupFile in Hf'. simpl in Hf'.
      unfold KeyInputs.corruptAndNew in Hf'.
      apply lookup_insert_Some in Hf' as [[_ <-] | [_ Hf']].
      { discriminate Hdec. }
      apply lookup_insert_Some in Hf' as [[_ <-] | [_ Hf']].
      2:{ rewrite lookup_empty in Hf'. discriminate. }
      injection Hdec as <-.
      exists [Byte.x00; Byte.x02; Byte.x0b], (ssh.PlainKey [Byte.x02; Byte.x0b]),
        (ssh.RawPrivateKey [Byte.x22]).
      repeat split.
Defined.

End KeyStoreExamples.

(** ** Command labels *)

(** *** Bytes and slices *)

Lemma len_app (a b : string) : len (a +:+ b) = len a + len b.
Proof. induction a as [|c a IH]; simpl; [reflexivity | by rewrite IH]. Qed.

Lemma get_app_len (s : string) c t :
  String.get (len s) (s +:+ String c t) = Some c.
Proof. induction s as [|b s IH]; simpl; [reflexivity | exact IH]. Qed.

Lemma lastByte_snoc (s : string) c : lastByte (s +:+ String c "") = Some c.
Proof.
  unfold lastByte, byte_at. rewrite len_app. simpl.
  replace (len s + 1 - 1) with (len s) by lia. apply get_app_len.
Qed.

Lemma lastByte_cons c (s : string) :
  s ≠ "" → lastByte (String c s) = lastByte s.
Proof.
  unfold lastByte, byte_at. destruct s as [|b s]; [congruence |]. intros _.
  simpl. rewrite Nat.sub_0_r. reflexivity.
Qed.

Lemma lastByte_app (a b : string) : b ≠ "" → lastByte (a +:+ b) = lastByte b.
Proof.
  intros Hb. induction a as [|c a IH]; [reflexivity |].
  change (String c a +:+ b) with (String c (a +:+ b)).
  rewrite lastByte_cons; [exact IH |]. destruct a; simpl; [exact Hb | discriminate].
Qed.

Lemma firstByte_app (a b : string) :
  firstByte (a +:+ b) = match a with EmptyString => firstByte b | _ => firstByte a end.
Proof. destruct a; reflexivity. Qed.

Lemma slice_to_app (a b : string) : slice_to (a +:+ b) (len a) = a.
Proof. induction a as [|c a IH]; simpl; [by destruct b | by rewrite IH]. Qed.

Lemma slice_from_app (a b : string) : slice_from (a +:+ b) (len a) = b.
Proof. induction a as [|c a IH]; simpl; [by destruct b | exact IH]. Qed.

Lemma slice_from_app_cons (a : string) c (b : string) :
  slice_from (a +:+ String c b) (len a + 1) = b.
Proof.
  induction a as [|c' a IH]; simpl; [by destruct b | exact IH].
Qed.

Lemma hasByte_app c (a b : string) :
  hasByte c (a +:+ b) = hasByte c a || hasByte c b.
Proof.
  induction a as [|c' a IH]; simpl; [reflexivity |].
  rewrite IH. by rewrite orb_assoc.
Qed.

(** *** [strings.IndexRune] and [strings.Trim] *)

Lemma IndexByteFrom_absent i (s : string) c :
  hasByte c s = false → gostrings.IndexByteFrom i s c = (-1)%Z.
Proof.
  revert i. induction s as [|b s IH]; intros i; simpl; [reflexivity |].
  intros H. apply orb_false_iff in H as [-> H]. by apply IH.
Qed.

Lemma IndexByteFrom_first i (a : string) c (b : string) :
  hasByte c a = false →
  gostrings.IndexByteFrom i (a +:+ String c b) c = (i + Z.of_nat (len a))%Z.
Proof.
  revert i. induction a as [|c' a IH]; intros i; simpl.
  - intros _. rewrite Ascii.eqb_refl. lia.
  - intros H. apply orb_false_iff in H as [-> H]. rewrite IH by exact H. lia.
Qed.

Lemma TrimLeft_id (s : string) :
  isBracket (firstByte s) = false → gostrings.TrimLeft s "[]" = s.
Proof. destruct s as [|c s]; simpl; [reflexivity |]. intros ->. reflexivity. Qed.

Lemma TrimRight_snoc (s : string) c cutset :
  gostrings.inCutset c cutset = true →
  gostrings.TrimRight (s +:+ String c "") cutset = gostrings.TrimRight s cutset.
Proof.
  intros Hc. induction s as [|b s IH]; simpl; [by rewrite Hc |].
  by rewrite IH.
Qed.

Lemma TrimRight_id (s : string) :
  isBracket (lastByte s) = false → gostrings.TrimRight s "[]" = s.
Proof.
  induction s as [|c s IH]; [reflexivity |].
  destruct s as [|b s].
  - simpl. intros ->. reflexivity.
  - intros H. rewrite lastByte_cons in H by discriminate.
    change (gostrings.TrimRight (String c (String b s)) "[]")
      with (match gostrings.TrimRight (String b s) "[]" with
            | EmptyString =>
                if gostrings.inCutset c "[]" then EmptyString else String c EmptyString
            | kept => String c kept
            end).
    rewrite IH by exact H. reflexivity.
Qed.

Lemma hasByte_TrimLeft c (s : string) cutset :
  hasByte c s = false → hasByte c (gostrings.TrimLeft s cutset) = false.
Proof.
  induction s as [|b s IH]; simpl; [reflexivity |].
  intros H. destruct (gostrings.inCutset b cutset); [| exact H].
  apply orb_false_iff in H as [_ H]. by apply IH.
Qed.

Lemma hasByte_TrimRight c (s : string) cutset :
  hasByte c s = false → hasByte c (gostrings.TrimRight s cutset) = false.
Proof.
  induction s as [|b s IH]; simpl; [reflexivity |].
  intros H. apply orb_false_iff in H as [Hb H]. specialize (IH H).
  destruct (gostrings.TrimRight s cutset) as [|b' kept].
  - destruct (gostrings.inCutset b cutset); simpl; [reflexivity |].
    by rewrite Hb.
  - simpl in *. by rewrite Hb.
Qed.

(** A bracketed value loses exactly its first and last bracket when what
    is between them neither starts nor ends with one. *)
Lemma Trim_bracketed (body : string) :
  isBracket (firstByte body) = false → isBracket (lastByte body) = false →
  gostrings.Trim ("[" +:+ body +:+ "]") "[]" = body.
Proof.
  intros Hfirst Hlast. destruct body as [|c body]; [reflexivity |].
  unfold gostrings.Trim.
  change (gostrings.TrimLeft ("[" +:+ String c body +:+ "]") "[]")
    with (gostrings.TrimLeft (String c body +:+ "]") "[]").
  rewrite TrimLeft_id by exact Hfirst.
  rewrite TrimRight_snoc by reflexivity. by apply TrimRight_id.
Qed.

(** *** [strings.FieldsFunc] with the quote-aware separator *)

(** A rune of a string that is not empty takes at least one byte. *)
Lemma DecodeRuneInString_width c (s : string) :
  1 ≤ (utf8.DecodeRuneInString (String c s)).2.
Proof.
  unfold utf8.DecodeRuneInString.
  repeat match goal with
         | |- context [if ?b then _ else _] => destruct b
         | |- context [match ?x with _ => _ end] => destruct x
         end; simpl; lia.
Qed.

Lemma rangeFrom_decode c (s : string) :
  ∃ r w,
    1 ≤ w
    ∧ utf8.rangeFrom 0 (String c s)
      = (r, slice_to (String c s) w) :: utf8.rangeFrom (w - 1) s.
Proof.
  pose proof (DecodeRuneInString_width c s) as Hw.
  change (utf8.rangeFrom 0 (String c s))
    with (let '(r, w) := utf8.DecodeRuneInString (String c s) in
          (r, slice_to (String c s) w) :: utf8.rangeFrom (w - 1) s).
  destruct (utf8.DecodeRuneInString (String c s)) as [r w].
  exists r, w. split; [exact Hw | reflexivity].
Qed.

Lemma rangeFrom_nonempty skip (s : string) r enc :
  (r, enc) ∈ utf8.rangeFrom skip s → enc ≠ "".
Proof.
  revert skip r enc. induction s as [|c s IH]; intros skip r enc.
  { intros H. inversion H. }
  destruct skip as [|k]; [| apply IH].
  destruct (rangeFrom_decode c s) as (r0 & w & Hw & ->).
  intros H. apply elem_of_cons in H as [Heq|H]; [| eapply IH; exact H].
  injection Heq as _ ->.
  destruct w; [lia |]. discriminate.
Qed.

(** One reading of the runes with the closure of [isCmdLabelSpec] cuts
    where the specification's two steps cut; [piece] is the field being
    read. *)
Lemma fieldsLoop_cutAt openQuote piece rs :
  (∀ r enc, (r, enc) ∈ rs → enc ≠ "") →
  piece ≠ Some "" →
  fieldsLoop main.quoteAwareSpace openQuote piece rs
  = cutAt (default "" piece) (markCuts openQuote rs).
Proof.
  revert openQuote piece. induction rs as [|[r enc] rs IH];
    intros openQuote piece Hne Hpiece; simpl.
  { destruct piece as [p|]; simpl; [| reflexivity].
    destruct (String.eqb_spec p ""); [congruence | reflexivity]. }
  assert (Henc : enc ≠ "") by (eapply Hne; left).
  assert (Hrest : ∀ r' enc', (r', enc') ∈ rs → enc' ≠ "").
  { intros r' enc' H. eapply Hne. right. exact H. }
  assert (Hgrow : ∀ p : string, p +:+ enc ≠ "").
  { intros p. destruct p; simpl; [exact Henc | discriminate]. }
  unfold main.quoteAwareSpace at 1.
  destruct (r =? 34)%Z eqn:Hq.
  - (* a double quote: never white space *)
    apply Z.eqb_eq in Hq. subst r. simpl.
    destruct openQuote; simpl.
    + rewrite IH; [| exact Hrest |].
      * destruct piece; reflexivity.
      * destruct piece; simpl; intros [= H]; [eapply Hgrow; exact H | congruence].
    + rewrite IH; [| exact Hrest |].
      * destruct piece; reflexivity.
      * destruct piece; simpl; intros [= H]; [eapply Hgrow; exact H | congruence].
  - destruct (unicode.IsSpace r && negb openQuote) eqn:Hsep.
    + destruct piece as [p|]; simpl.
      * destruct (String.eqb_spec p ""); [congruence |].
        rewrite IH; [reflexivity | exact Hrest | discriminate].
      * rewrite IH; [reflexivity | exact Hrest | discriminate].
    + rewrite IH; [| exact Hrest |].
      * destruct piece; reflexivity.
      * destruct piece; simpl; intros [= H]; [eapply Hgrow; exact H | congruence].
Qed.

(** The first pass counts the fields of one reading, and leaves the
    predicate in the state it has after every rune. *)
Lemma countFields_fieldsLoop {St : Type} (f : St → Z → bool * St) st cur n rs :
  (gostrings.countFields f st (bool_decide (is_Some cur)) n rs).1
    + match cur with Some _ => 1 | None => 0 end
  = n + length (fieldsLoop f st cur rs)
  ∧ (gostrings.countFields f st (bool_decide (is_Some cur)) n rs).2
    = stateAfter f st rs.
Proof.
  revert st cur n. induction rs as [|[r enc] rs IH]; intros st cur n.
  { destruct cur; simpl; split; (lia || reflexivity). }
  simpl. destruct (f st r) as [sep st'] eqn:Hf. simpl.
  destruct sep; simpl.
  - destruct (IH st' None n) as [Hn Hst].
    rewrite bool_decide_eq_false_2 in Hn, Hst by (intros [? [=]]).
    destruct cur; simpl; (split; [lia | exact Hst]).
  - destruct cur as [w|].
    + rewrite bool_decide_eq_true_2 by eauto. simpl.
      destruct (IH st' (Some (w +:+ enc)) n) as [Hn Hst].
      rewrite bool_decide_eq_true_2 in Hn, Hst by eauto.
      split; [lia | exact Hst].
    + rewrite bool_decide_eq_false_2 by (intros [? [=]]). simpl.
      destruct (IH st' (Some enc) (S n)) as [Hn Hst].
      rewrite bool_decide_eq_true_2 in Hn, Hst by eauto.
      split; [lia | exact Hst].
Qed.

Lemma store_Some a na w :
  na < length a → gostrings.store a na w = Some (<[na := w]> a).
Proof.
  intros Hlt. unfold gostrings.store.
  by rewrite (proj2 (Nat.ltb_lt _ _) Hlt).
Qed.

(** The second pass, with an array that has room for exactly the fields
    still to come, stores the fields of one reading. *)
Lemma cutFields_fieldsLoop {St : Type} (f : St → Z → bool * St) st a na cur rs :
  length a = na + length (fieldsLoop f st cur rs) →
  gostrings.cutFields f st a na cur rs
  = Returns (take na a ++ fieldsLoop f st cur rs).
Proof.
  revert st a na cur. induction rs as [|[r enc] rs IH]; intros st a na cur Hlen.
  - destruct cur as [w|]; simpl in *.
    + rewrite store_Some by lia. f_equal.
      rewrite insert_take_drop by lia. rewrite (drop_ge a (S na)) by lia.
      reflexivity.
    + f_equal. rewrite take_ge by lia. by rewrite app_nil_r.
  - simpl in *. destruct (f st r) as [sep st'] eqn:Hf.
    destruct sep.
    + destruct cur as [w|]; simpl in *.
      * rewrite store_Some by lia.
        rewrite IH by (rewrite length_insert; lia). f_equal.
        rewrite (take_S_r _ _ w) by (apply list_lookup_insert_eq; lia).
        rewrite take_insert_ge by lia. by rewrite <- app_assoc.
      * apply IH. exact Hlen.
    + apply IH. exact Hlen.
Qed.

(** When the calls of the first pass leave the predicate in the state it
    started in, the two passes agree and the result is the fields of one
    reading. *)
Lemma FieldsFunc_fieldsLoop {St : Type} (s : string) (f : St → Z → bool * St) st :
  stateAfter f st (utf8.range s) = st →
  gostrings.FieldsFunc s f st = Returns (fieldsLoop f st None (utf8.range s)).
Proof.
  intros Hst. unfold gostrings.FieldsFunc.
  destruct (countFields_fieldsLoop f st None 0 (utf8.range s)) as [Hn Hst1].
  rewrite bool_decide_eq_false_2 in Hn, Hst1 by (intros [? [=]]).
  destruct (gostrings.countFields f st false 0 (utf8.range s)) as [n st1].
  simpl in Hn, Hst1. rewrite Hst1, Hst.
  rewrite cutFields_fieldsLoop by (rewrite length_replicate; lia).
  reflexivity.
Qed.

(** The closure of [isCmdLabelSpec] ends with [openQuote] as it was when
    the number of quotes is even, and flipped when it is odd. *)
Lemma stateAfter_quotes openQuote rs :
  stateAfter main.quoteAwareSpace openQuote rs
  = if Nat.even (quoteCount rs) then openQuote else negb openQuote.
Proof.
  revert openQuote. induction rs as [|[r enc] rs IH]; intros openQuote.
  { reflexivity. }
  unfold quoteCount in *. simpl. rewrite IH. rewrite filter_cons. simpl.
  destruct (Z.eqb_spec r 34) as [->|Hne].
  - rewrite decide_True by reflexivity.
    cbn [length]. rewrite Nat.even_succ, <- Nat.negb_even.
    destruct (Nat.even _), openQuote; reflexivity.
  - rewrite decide_False by exact Hne. reflexivity.
Qed.

(** The command of a label that holds an even number of double quotes is
    the list of shell tokens of its command part. *)
Lemma FieldsFunc_shellTokens (cmd : string) :
  evenQuotes cmd →
  gostrings.FieldsFunc cmd main.quoteAwareSpace false
  = Returns (shellTokens cmd).
Proof.
  intros Heven. unfold shellTokens.
  rewrite FieldsFunc_fieldsLoop.
  - rewrite fieldsLoop_cutAt; [reflexivity | | discriminate].
    intros r enc. apply rangeFrom_nonempty.
  - rewrite stateAfter_quotes. unfold evenQuotes in Heven. by rewrite Heven.
Qed.

(** *** [isCmdLabelSpec] *)

Lemma append_assoc (a b c : string) : (a +:+ b) +:+ c = a +:+ b +:+ c.
Proof.
  induction a as [|x a IH]; [reflexivity |].
  change (String x ((a +:+ b) +:+ c) = String x (a +:+ b +:+ c)).
  by rewrite IH.
Qed.

Lemma bracketed_enclosed d cmd : enclosed (bracketed d cmd).
Proof.
  split; [reflexivity |]. unfold bracketed.
  change ("[" +:+ d +:+ ":" +:+ cmd +:+ "]")
    with (String "[" (d +:+ String ":" (cmd +:+ "]"))).
  rewrite lastByte_cons by (destruct d; discriminate).
  rewrite lastByte_app by discriminate.
  rewrite lastByte_cons by (destruct cmd; discriminate).
  destruct cmd as [|c cmd]; [reflexivity |].
  apply (lastByte_snoc (String c cmd)).
Qed.

Section CmdLabel.
Context {tracelib : trace.Library}.
Variable ParseDuration : string → option Duration.

Local Abbreviation isCmdLabelSpec := (main.isCmdLabelSpec ParseDuration).

Lemma invalidSpec_badParameter spec :
  badParameter (Returns (None, invalidSpec spec)).
Proof. eexists. split; reflexivity. Qed.

(** The guard of [isCmdLabelSpec]. *)
Lemma guard_enclosed spec :
  (5 <? len spec)%nat
  && bool_decide (byte_at spec 0 = Some "["%char)
  && bool_decide (byte_at spec (len spec - 1) = Some "]"%char) = true
  ↔ 5 < len spec ∧ enclosed spec.
Proof.
  rewrite !andb_true_iff, !bool_decide_eq_true, Nat.ltb_lt.
  unfold enclosed, firstByte, lastByte. tauto.
Qed.

(** What [isCmdLabelSpec] does with [[d:cmd]] when [d] has no colon and no
    bracket in front and [cmd] no bracket at the end. *)
Lemma isCmdLabelSpec_bracketed d cmd :
  5 < len (bracketed d cmd) →
  hasByte ":" d = false →
  isBracket (firstByte d) = false →
  isBracket (lastByte cmd) = false →
  isCmdLabelSpec (bracketed d cmd)
  = match ParseDuration d with
    | None => Returns (None, invalidSpec (bracketed d cmd))
    | Some period =>
        if String.eqb cmd ""
        then Returns (None, invalidSpec (bracketed d cmd))
        else
          match gostrings.FieldsFunc cmd main.quoteAwareSpace false with
          | Panics => Panics
          | Returns command =>
              Returns (Some {| services.Period := period;
                               services.Command := command;
                               services.Result := "" |}, None)
          end
    end.
Proof.
  intros Hlen Hcolon Hfirst Hlast. unfold main.isCmdLabelSpec.
  rewrite (proj2 (guard_enclosed (bracketed d cmd)))
    by (split; [exact Hlen | apply bracketed_enclosed]).
  assert (Htrim : gostrings.Trim (bracketed d cmd) "[]" = d +:+ String ":" cmd).
  { replace (bracketed d cmd) with ("[" +:+ (d +:+ String ":" cmd) +:+ "]")
      by (unfold bracketed; rewrite (append_assoc d (String ":" cmd) "]");
          reflexivity).
    apply Trim_bracketed.
    - rewrite firstByte_app. destruct d; [reflexivity | exact Hfirst].
    - rewrite lastByte_app by discriminate.
      destruct cmd as [|c cmd]; [reflexivity |].
      rewrite lastByte_cons by discriminate. exact Hlast. }
  rewrite Htrim.
  assert (Hidx : gostrings.IndexRune (d +:+ String ":" cmd) 58 = Z.of_nat (len d)).
  { unfold gostrings.IndexRune, gostrings.IndexByte. simpl.
    rewrite IndexByteFrom_first by exact Hcolon. lia. }
  rewrite Hidx.
  replace (Z.of_nat (len d) <? 0)%Z with false by (symmetry; apply Z.ltb_ge; lia).
  rewrite Nat2Z.id, slice_to_app.
  replace (Z.to_nat (Z.of_nat (len d) + 1)) with (len d + 1) by lia.
  rewrite slice_from_app_cons.
  destruct (ParseDuration d) as [period|]; [| reflexivity].
  destruct cmd; reflexivity.
Qed.

(** C6, as amended.  For a label value [[d:cmd]] of more than 5 bytes in
    which [d] holds no colon and starts with no bracket and [cmd] ends with
    no bracket: when [d] parses as a duration and [cmd] is not empty and
    holds an even number of double quotes, [isCmdLabelSpec] returns the
    label whose period is that duration and whose command is the list of
    shell tokens of [cmd], and no error; when [d] does not parse or [cmd]
    is empty it returns a bad-parameter error.  A value of more than 5
    bytes enclosed in brackets that holds no colon yields a bad-parameter
    error.  A value that is not enclosed in brackets, or has at most 5
    bytes, yields neither a label nor an error. *)
Theorem isCmdLabelSpec_cases :
  (∀ d cmd period,
     5 < len (bracketed d cmd) →
     hasByte ":" d = false →
     isBracket (firstByte d) = false →
     isBracket (lastByte cmd) = false →
     ParseDuration d = Some period → cmd ≠ "" → evenQuotes cmd →
     isCmdLabelSpec (bracketed d cmd)
     = Returns (Some {| services.Period := period;
                        services.Command := shellTokens cmd;
                        services.Result := "" |}, None))
  ∧ (∀ d cmd,
       5 < len (bracketed d cmd) →
       hasByte ":" d = false →
       isBracket (firstByte d) = false →
       isBracket (lastByte cmd) = false →
       ParseDuration d = None ∨ cmd = "" →
       badParameter (isCmdLabelSpec (bracketed d cmd)))
  ∧ (∀ spec,
       5 < len spec → enclosed spec → hasByte ":" spec = false →
       badParameter (isCmdLabelSpec spec))
  ∧ (∀ spec, ¬ enclosed spec → isCmdLabelSpec spec = Returns (None, None))
  ∧ (∀ spec, len spec ≤ 5 → isCmdLabelSpec spec = Returns (None, None)).
Proof.
  split; [| split; [| split; [| split]]].
  - intros d cmd period Hlen Hcolon Hfirst Hlast Hparse Hcmd Heven.
    rewrite isCmdLabelSpec_bracketed by assumption. rewrite Hparse.
    destruct (String.eqb_spec cmd ""); [contradiction |].
    by rewrite FieldsFunc_shellTokens.
  - intros d cmd Hlen Hcolon Hfirst Hlast Hbad.
    rewrite isCmdLabelSpec_bracketed by assumption.
    destruct (ParseDuration d) as [period|]; [| apply invalidSpec_badParameter].
    destruct Hbad as [Hbad | ->]; [discriminate | apply invalidSpec_badParameter].
  - intros spec Hlen Henc Hcolon. unfold main.isCmdLabelSpec.
    rewrite (proj2 (guard_enclosed spec)) by (split; assumption).
    assert (Hidx : gostrings.IndexRune (gostrings.Trim spec "[]") 58 = (-1)%Z).
    { unfold gostrings.IndexRune, gostrings.IndexByte. simpl.
      apply IndexByteFrom_absent. unfold gostrings.Trim.
      apply hasByte_TrimRight, hasByte_TrimLeft. exact Hcolon. }
    rewrite Hidx. apply invalidSpec_badParameter.
  - intros spec Hnot. unfold main.isCmdLabelSpec.
    destruct (_ && _ && _) eqn:Hguard; [| reflexivity].
    apply guard_enclosed in Hguard as [_ Henc]. contradiction.
  - intros spec Hlen. unfold main.isCmdLabelSpec.
    destruct (_ && _ && _) eqn:Hguard; [| reflexivity].
    apply guard_enclosed in Hguard as [Hlt _]. lia.
Qed.

End CmdLabel.

(** Examples with the [trace] library of [Samples]. *)
Section CmdLabelExamples.
#[local] Existing Instance Samples.library.

(** C6 at concrete inputs, with a parser for whole-number durations: the
    example of the source comment, a unit that does not exist, a value
    without a colon, and a value without brackets. *)
Lemma isCmdLabelSpec_cases_witness :
  main.isCmdLabelSpec Samples.ParseDuration "[1h:/bin/uname -m]"
    = Returns (Some {| services.Period := 3600000000000%Z;
                       services.Command := ["/bin/uname"; "-m"];
                       services.Result := "" |}, None)
  ∧ badParameter (main.isCmdLabelSpec Samples.ParseDuration "[1x:/bin/uname -m]")
  ∧ badParameter (main.isCmdLabelSpec Samples.ParseDuration "[uname -m]")
  ∧ main.isCmdLabelSpec Samples.ParseDuration "1h:/bin/uname -m"
    = Returns (None, None)
  ∧ main.isCmdLabelSpec Samples.ParseDuration "[1:a]" = Returns (None, None).
Proof.
  destruct (isCmdLabelSpec_cases Samples.ParseDuration)
    as (Hlabel & Hbad & Hcolon & Hplain & Hshort).
  split; [| split; [| split; [| split]]].
  - apply (Hlabel "1h" "/bin/uname -m" 3600000000000%Z);
      [vm_compute; lia | reflexivity | reflexivity | reflexivity | reflexivity
      | discriminate | reflexivity].
  - apply (Hbad "1x" "/bin/uname -m");
      [vm_compute; lia | reflexivity | reflexivity | reflexivity
      | left; reflexivity].
  - apply (Hcolon "[uname -m]"); [vm_compute; lia | split; reflexivity | reflexivity].
  - apply (Hplain "1h:/bin/uname -m"). intros [Hfirst _]. discriminate Hfirst.
  - apply (Hshort "[1:a]"). vm_compute. lia.
Defined.

(** C6 as stated fails on short values and on a command that ends with a
    bracket: ["0"] parses as a duration and ["a"] is a command, but
    [[0:a]] has 5 bytes and is taken for a plain label; [[abc]] is
    enclosed in brackets and has no colon, but yields no error; and the
    command of [[1h:ls ]]] is [ls ]], of which only [ls] is left. *)
Lemma isCmdLabelSpec_cases_counterexample :
  (Samples.ParseDuration "0" = Some 0%Z
   ∧ main.isCmdLabelSpec Samples.ParseDuration (bracketed "0" "a")
     = Returns (None, None))
  ∧ (enclosed "[abc]" ∧ hasByte ":" "[abc]" = false
     ∧ main.isCmdLabelSpec Samples.ParseDuration "[abc]" = Returns (None, None))
  ∧ (shellTokens "ls ]" = ["ls"; "]"]
     ∧ main.isCmdLabelSpec Samples.ParseDuration (bracketed "1h" "ls ]")
       = Returns (Some {| services.Period := 3600000000000%Z;
                          services.Command := ["ls"];
                          services.Result := "" |}, None)).
Proof. repeat split. Qed.

(** A command with a quote that is never closed: the second pass of
    [strings.FieldsFunc] starts with [openQuote] set and cuts elsewhere
    than the first pass counted.  With [q] the double quote, the command
    [a qb c] comes out as [a qb] and [c], and for the command [qa b c]
    the array is too short and the call panics. *)
Lemma isCmdLabelSpec_open_quote :
  let q := service.dquote in
  main.isCmdLabelSpec Samples.ParseDuration (bracketed "1h" ("a " +:+ q +:+ "b c"))
    = Returns (Some {| services.Period := 3600000000000%Z;
                       services.Command := ["a " +:+ q +:+ "b"; "c"];
                       services.Result := "" |}, None)
  ∧ main.isCmdLabelSpec Samples.ParseDuration (bracketed "1h" (q +:+ "a b c"))
    = Panics.
Proof. split; reflexivity. Qed.

End CmdLabelExamples.

(** ** The storage back-ends *)


(** ** The defaults *)

(** The addresses [ApplyDefaults] asks for. *)
Ltac default_addrs ParseAddr :=
  change (defaults.AuthListenAddr ParseAddr) with (ParseAddr "tcp://0.0.0.0:3025") in *;
  change (defaults.ProxyListenAddr ParseAddr) with (ParseAddr "tcp://0.0.0.0:3023") in *;
  change (defaults.ProxyWebListenAddr ParseAddr) with (ParseAddr "tcp://0.0.0.0:3080") in *;
  change (defaults.ReverseTunnellConnectAddr ParseAddr)
    with (ParseAddr "tcp://127.0.0.1:3024") in *;
  change (defaults.ReverseTunnellListenAddr ParseAddr)
    with (ParseAddr "tcp://0.0.0.0:3024") in *;
  change (defaults.SSHServerListenAddr ParseAddr) with (ParseAddr "tcp://0.0.0.0:3022") in *.

(** [ApplyDefaults] returns exactly when the six addresses parse. *)
Lemma ApplyDefaults_Some ParseAddr hostname cfg :
  is_Some (service.ApplyDefaults ParseAddr hostname cfg)
  ↔ Forall (fun spec => is_Some (ParseAddr spec)) defaultAddrSpecs.
Proof.
  unfold service.ApplyDefaults, defaultAddrSpecs. default_addrs ParseAddr.
  rewrite !Forall_cons, Forall_nil.
  destruct (ParseAddr "tcp://0.0.0.0:3025"); simpl;
    [| split; [intros [? [=]] | intros [[? [=]] _]]].
  destruct (ParseAddr "tcp://0.0.0.0:3023"); simpl;
    [| split; [intros [? [=]] | intros (_ & [? [=]] & _)]].
  destruct (ParseAddr "tcp://0.0.0.0:3080"); simpl;
    [| split; [intros [? [=]] | intros (_ & _ & [? [=]] & _)]].
  destruct (ParseAddr "tcp://127.0.0.1:3024"); simpl;
    [| split; [intros [? [=]] | intros (_ & _ & _ & [? [=]] & _)]].
  destruct (ParseAddr "tcp://0.0.0.0:3024"); simpl;
    [| split; [intros [? [=]] | intros (_ & _ & _ & _ & [? [=]] & _)]].
  destruct (ParseAddr "tcp://0.0.0.0:3022"); simpl;
    [| split; [intros [? [=]] | intros (_ & _ & _ & _ & _ & [? [=]] & _)]].
  split; [intros _; repeat split; eauto | intros _; eauto].
Qed.

(** From [ApplyDefaults ... = Some c]: the six addresses, and [c]
    itself. *)
Ltac defaults_inv H ParseAddr :=
  unfold service.MakeDefaultConfig, service.ApplyDefaults in H;
  default_addrs ParseAddr;
  destruct (ParseAddr "tcp://0.0.0.0:3025") as [authAddr|] eqn:Hauth;
    [| discriminate H];
  destruct (ParseAddr "tcp://0.0.0.0:3023") as [proxyAddr|] eqn:Hproxy;
    [| discriminate H];
  destruct (ParseAddr "tcp://0.0.0.0:3080") as [webAddr|] eqn:Hweb;
    [| discriminate H];
  destruct (ParseAddr "tcp://127.0.0.1:3024") as [dialAddr|] eqn:Hdial;
    [| discriminate H];
  destruct (ParseAddr "tcp://0.0.0.0:3024") as [tunnelAddr|] eqn:Htunnel;
    [| discriminate H];
  destruct (ParseAddr "tcp://0.0.0.0:3022") as [nodeAddr|] eqn:Hnode;
    [| discriminate H];
  simpl in H; injection H as <-.

(** X2: [ApplyDefaults] panics exactly when [utils.ParseAddr] rejects one
    of the six default addresses, whatever the configuration it is given;
    when it returns, the host name is that of the machine, or [localhost]
    when [os.Hostname] fails, the one auth server is the auth service's own
    address, and the console is the standard output. *)
Theorem ApplyDefaults_panics_iff (ParseAddr : string → option utils.NetAddr)
    (hostname : string * option error) (cfg : service.Config) :
  (service.ApplyDefaults ParseAddr hostname cfg = None
   ↔ ∃ spec, spec ∈ defaultAddrSpecs ∧ ParseAddr spec = None)
  ∧ ∀ c, service.ApplyDefaults ParseAddr hostname cfg = Some c →
      service.Hostname c
        = match hostname.2 with Some _ => "localhost" | None => hostname.1 end
      ∧ service.AuthServers c = [service.AuthConfig.SSHAddr (service.Auth c)]
      ∧ service.Console c = service.Stdout.
Proof.
  split.
  - rewrite eq_None_not_Some, ApplyDefaults_Some. split.
    + intros Hnot. apply not_Forall_Exists in Hnot; [| intros spec; apply _].
      apply Exists_exists in Hnot as (spec & Hin & Hspec).
      exists spec. split; [exact Hin |]. by apply eq_None_not_Some.
    + intros (spec & Hin & Hspec) Hall.
      rewrite Forall_forall in Hall. specialize (Hall spec Hin).
      rewrite Hspec in Hall. by destruct Hall.
  - intros c H. defaults_inv H ParseAddr. repeat split.
Qed.

(** A configuration taken apart into its fields. *)
Ltac destruct_config cfg :=
  destruct cfg as [? ? ? ? [? ? ? ? [? ? ?] ? ?]
                     [? ? ? ? ? ? ? ? ? [? ? ?] [? ?] [? ?] [? ? ?]]
                     [? ? ? [? ? ?]] [? ? ? ? ? ? ? ? [? ? ?]] ? ?].

(** X3: [ApplyDefaults] applied to its own result changes nothing, and it
    keeps what it has no default for. *)
Theorem ApplyDefaults_idempotent (ParseAddr : string → option utils.NetAddr)
    (hostname : string * option error) (cfg c : service.Config) :
  service.ApplyDefaults ParseAddr hostname cfg = Some c →
  service.ApplyDefaults ParseAddr hostname c = Some c
  ∧ keptByDefaults c = keptByDefaults cfg.
Proof.
  intros H. destruct_config cfg. defaults_inv H ParseAddr.
  split; [| vm_compute; reflexivity].
  unfold service.ApplyDefaults. default_addrs ParseAddr.
  rewrite Hauth, Hproxy, Hweb, Hdial, Htunnel, Hnode.
  vm_compute. reflexivity.
Qed.

(** X3 at the zero configuration, with an address parser that reads
    [tcp://host:port]. *)
Lemma ApplyDefaults_idempotent_witness :
  service.ApplyDefaults Samples.ParseAddr ("node-1", None) Inputs.defaultConfig
    = Some Inputs.defaultConfig
  ∧ keptByDefaults Inputs.defaultConfig = keptByDefaults service.zeroConfig.
Proof.
  apply (ApplyDefaults_idempotent Samples.ParseAddr ("node-1", None)
           service.zeroConfig).
  vm_compute. reflexivity.
Defined.



(** X5: when [utils.ParseAddr] reads different addresses from different
    default address strings, the five services of the default configuration
    listen on five different addresses. *)
Theorem default_listen_addrs_distinct (ParseAddr : string → option utils.NetAddr)
    (hostname : string * option error) (cfg : service.Config) :
  (∀ a b, a ∈ defaultAddrSpecs → b ∈ defaultAddrSpecs →
          ParseAddr a = ParseAddr b → a = b) →
  service.MakeDefaultConfig ParseAddr hostname = Some cfg →
  NoDup (listenAddrs cfg).
Proof.
  intros Hinj H. defaults_inv H ParseAddr.
  assert (Hne : ∀ a b x y, a ∈ defaultAddrSpecs → b ∈ defaultAddrSpecs →
            ParseAddr a = Some x → ParseAddr b = Some y → a ≠ b → x ≠ y).
  { intros a b x y Ha Hb Hx Hy Hab ->. apply Hab, Hinj; congruence. }
  assert (Hin : ∀ spec, In spec defaultAddrSpecs → spec ∈ defaultAddrSpecs).
  { intros spec. apply list_elem_of_In. }
  change (NoDup [authAddr; proxyAddr; webAddr; tunnelAddr; nodeAddr]).
  repeat apply NoDup_cons_2; try apply NoDup_nil_2;
    rewrite ?not_elem_of_cons; repeat split; try apply not_elem_of_nil;
    (eapply Hne; [| | eassumption | eassumption | discriminate];
     apply Hin; simpl; tauto).
Qed.

Lemma default_listen_addrs_distinct_witness :
  NoDup (listenAddrs Inputs.defaultConfig).
Proof.
  apply (default_listen_addrs_distinct Samples.ParseAddr ("node-1", None)).
  - intros a b Ha Hb. unfold defaultAddrSpecs in Ha, Hb.
    rewrite !elem_of_cons, elem_of_nil in Ha, Hb.
    destruct Ha as [->|[->|[->|[->|[->|[->|[]]]]]]];
      destruct Hb as [->|[->|[->|[->|[->|[->|[]]]]]]];
      vm_compute; congruence.
  - vm_compute. reflexivity.
Defined.


(** X7: [NetAddrSlice.Set] replaces the slice by the addresses of the
    list, in order, when the value decodes to a list of strings that all
    parse; otherwise it returns an error and leaves the slice as it
    was. *)
Theorem NetAddrSlice_Set_all_or_nothing `{!trace.Library}
    (json_Unmarshal_strings : string → result (list string))
    (ParseAddrErr : string → result utils.NetAddr)
    (s : service.NetAddrSlice) (val : string) :
  let r := service.NetAddrSlice_Set json_Unmarshal_strings ParseAddrErr s val in
  (r.1 = None
   ↔ ∃ values,
       json_Unmarshal_strings val = Ok values
       ∧ Forall2 (fun v a => ParseAddrErr v = Ok a) values r.2)
  ∧ (r.1 ≠ None → r.2 = s).
Proof.
  cbv zeta. unfold service.NetAddrSlice_Set.
  assert (Hrange : ∀ values out,
    let q := service.Set_range ParseAddrErr values out in
    (q.1 = None → ∃ new, q.2 = out ++ new
                    ∧ Forall2 (fun v a => ParseAddrErr v = Ok a) values new)
    ∧ (∀ new, Forall2 (fun v a => ParseAddrErr v = Ok a) values new →
              q = (None, out ++ new))
    ∧ (q.1 ≠ None → ∃ e, q.1 = Some e)).
  { induction values as [|v rest IH]; intros out; simpl.
    - split; [| split].
      + intros _. exists []. split; [by rewrite app_nil_r | constructor].
      + intros new Hnew. inversion Hnew. by rewrite app_nil_r.
      + congruence.
    - destruct (ParseAddrErr v) as [a|e] eqn:Hv; simpl.
      + destruct (IH (out ++ [a])) as (Hnil & Hall & Herr). split; [| split].
        * intros Hq. destruct (Hnil Hq) as (new & Heq & Hnew).
          exists (a :: new). split; [by rewrite Heq, <- app_assoc |].
          by constructor.
        * intros new Hnew. inversion Hnew as [|? a' ? new' Ha Hrest]; subst.
          rewrite Hv in Ha. injection Ha as <-.
          rewrite (Hall new' Hrest). by rewrite <- app_assoc.
        * exact Herr.
      + split; [discriminate |]. split; [| eauto].
        intros new Hnew. inversion Hnew as [|? a' ? new' Ha Hrest]; subst.
        congruence. }
  destruct (json_Unmarshal_strings val) as [values|e] eqn:Hjson; simpl.
  2:{ split; [| reflexivity]. split; [discriminate |]. intros (? & [=] & _). }
  destruct (Hrange values []) as (Hnil & Hall & Herr). cbv zeta in *.
  destruct (service.Set_range ParseAddrErr values []) as [[e|] out] eqn:Hq; simpl in *.
  - split; [| reflexivity]. split; [discriminate |].
    intros (values' & [= <-] & Hnew). specialize (Hall _ Hnew). discriminate.
  - destruct (Hnil eq_refl) as (new & -> & Hnew). split; [| congruence].
    split; [| reflexivity]. intros _. exists values. split; [reflexivity | exact Hnew].
Qed.

(** ** More on the trust cache and the key store *)


Section FirstUse.
Context {tracelib : trace.Library}.
Variable json_Unmarshal : bytes → result client.Key.
Variable ParseAuthorizedKey : bytes → result ssh.PublicKey.
Variable ParseRawPrivateKey : bytes → result ssh.PrivateKey.
Variable keyring_AddErr : agent.AddedKey → option error.

(** X9: on first use, when the keys directory does not exist yet,
    [GetLocalAgent] creates it and returns an agent with no key and no
    error (also when the new directory cannot be listed it holds no key,
    and then the error is returned); when the directory cannot be created
    the error comes back wrapped and the world is as it was. *)
Theorem GetLocalAgent_first_use (w : client.World) :
  client.KeysDir w = None →
  let r := client.GetLocalAgent json_Unmarshal ParseAuthorizedKey
             ParseRawPrivateKey keyring_AddErr w in
  match client.MkdirErr w, client.ReadDirErr w with
  | Some e, _ => r = (Returns (None, Some (Traced (Traced (Traced e)))), w)
  | None, None =>
      r = (Returns (Some [], None), client.with_KeysDir (Some ∅) w)
  | None, Some e =>
      r = (Returns (None, Some (Traced (Traced (Traced e)))),
           client.with_KeysDir (Some ∅) w)
  end.
Proof.
  intros Hdir.
  unfold client.GetLocalAgent, client.GetLocalAgentKeys, client.initKeysDir,
    client.loadAllKeys, client.ioutil_ReadDir, client.bind, client.ret.
  rewrite Hdir.
  destruct (client.MkdirErr w) as [e|]; [reflexivity |]. simpl.
  destruct (client.ReadDirErr w) as [e|]; reflexivity.
Qed.

End FirstUse.

(** X9 in a world without a keys directory. *)
Lemma GetLocalAgent_first_use_witness :
  let w := client.with_KeysDir None (KeyInputs.world ∅) in
  @client.GetLocalAgent Samples.library Samples.json_Unmarshal
    Samples.ParseAuthorizedKey Samples.ParseRawPrivateKey (fun _ => None) w
  = (Returns (Some [], None), client.with_KeysDir (Some ∅) w).
Proof.
  exact (@GetLocalAgent_first_use Samples.library Samples.json_Unmarshal
           Samples.ParseAuthorizedKey Samples.ParseRawPrivateKey (fun _ => None)
           (client.with_KeysDir None (KeyInputs.world ∅)) eq_refl).
Defined.

(** *** Key file names *)

Lemma prefix_app (p s : string) :
  String.prefix p s = true ↔ ∃ rest, s = p +:+ rest.
Proof.
  revert s. induction p as [|c p IH]; intros s.
  { split; [intros _; by exists s | intros _; by destruct s]. }
  destruct s as [|d s]; simpl; [split; [discriminate | intros [? [=]]] |].
  destruct (Ascii.ascii_dec c d) as [->|Hne].
  - rewrite IH. split; intros [rest Hrest]; exists rest.
    + simpl. by rewrite Hrest.
    + simpl in Hrest. by injection Hrest.
  - split; [discriminate |]. intros [rest Hrest]. simpl in Hrest.
    injection Hrest as Hd _. congruence.
Qed.

Lemma slice_to_from (s : string) n : slice_to s n +:+ slice_from s n = s.
Proof.
  revert n. induction s as [|c s IH]; intros [|n]; try reflexivity.
  change (String c (slice_to s n +:+ slice_from s n) = String c s).
  by rewrite IH.
Qed.

Lemma len_slice_from (s : string) n : len (slice_from s n) = len s - n.
Proof.
  revert n. induction s as [|c s IH]; intros [|n]; simpl; try reflexivity.
  apply IH.
Qed.

Lemma HasSuffix_app (s suffix : string) :
  gostrings.HasSuffix s suffix = true ↔ ∃ front, s = front +:+ suffix.
Proof.
  unfold gostrings.HasSuffix. rewrite andb_true_iff, Nat.leb_le, String.eqb_eq.
  split.
  - intros [_ Heq]. exists (slice_to s (len s - len suffix)).
    pose proof (slice_to_from s (len s - len suffix)) as H.
    rewrite Heq in H. by symmetry.
  - intros [front ->]. rewrite len_app. split; [lia |].
    replace (len front + len suffix - len suffix) with (len front) by lia.
    apply slice_from_app.
Qed.

(** A name that starts with [teleport_] and ends with [.tkey] has a
    middle between the two: they do not overlap. *)
Lemma key_name_middle (rest front : string) :
  "teleport_" +:+ rest = front +:+ ".tkey" → ∃ mid, rest = mid +:+ ".tkey".
Proof.
  intros Heq.
  assert (Hlen : 9 + len rest = len front + 5).
  { apply (f_equal len) in Heq. rewrite !len_app in Heq. exact Heq. }
  destruct (decide (5 ≤ len rest)) as [Hge|Hlt].
  - exists (slice_to rest (len rest - 5)).
    apply (f_equal (fun s => slice_from s (len front))) in Heq.
    rewrite slice_from_app in Heq.
    replace (len front) with (len "teleport_" + (len rest - 5)) in Heq
      by (simpl; lia).
    change (slice_from rest (len rest - 5) = ".tkey") in Heq.
    rewrite <- Heq. symmetry. apply slice_to_from.
  - exfalso.
    destruct rest as [|a [|b [|c [|d [|e rest]]]]]; simpl in Hlen, Hlt; [| | | | | lia];
      repeat (destruct front as [|? front]; simpl in Hlen; try lia);
      cbv in Heq; congruence.
Qed.

(** X10: the key files of the keys directory are exactly the entries
    that are no directories and are called [teleport_<middle>.tkey], for
    any middle, the empty one included. *)
Theorem isKeyFile_iff (file : client.FileInfo) :
  client.isKeyFile file = true
  ↔ client.FileIsDir file = false
    ∧ ∃ mid, client.Name file = "teleport_" +:+ mid +:+ ".tkey".
Proof.
  unfold client.isKeyFile, gostrings.HasPrefix.
  rewrite !andb_true_iff, negb_true_iff, prefix_app, HasSuffix_app.
  change client.KeyFilePrefix with "teleport_".
  change client.KeyFileSuffix with ".tkey".
  split.
  - intros [[Hdir [rest Hrest]] [front Hfront]]. split; [exact Hdir |].
    rewrite Hrest in Hfront. apply key_name_middle in Hfront as [mid ->].
    by exists mid.
  - intros [Hdir [mid Hmid]]. split; [split; [exact Hdir |] |].
    + by exists (mid +:+ ".tkey").
    + exists ("teleport_" +:+ mid). rewrite Hmid. by rewrite append_assoc.
Qed.

(** *** What [loadAllKeys] removes *)

Section KeyStoreFrame.
Context {tracelib : trace.Library}.
Variable json_Unmarshal : bytes → result client.Key.

Local Abbreviation range := (client.loadAllKeys_range json_Unmarshal).
Local Abbreviation loadAllKeys := (client.loadAllKeys json_Unmarshal).

(** A file that is gone after the loop was removed in the round of an
    entry of its name: it decoded to a key that was past its deadline at
    the reading of the clock of that round. *)
Lemma range_removed files keys w n f :
  lookupFile w n = Some f →
  lookupFile (range files keys w).2 n = None →
  ∃ file k i,
    file ∈ files ∧ client.Name file = n ∧ client.isKeyFile file = true
    ∧ decodes json_Unmarshal f k ∧ client.RemoveErr f = None
    ∧ client.Ticks w ≤ i < client.Ticks (range files keys w).2
    ∧ (client.Deadline k ≤ client.Clock w i)%Z.
Proof.
  revert keys w. induction files as [|file rest IH]; intros keys w Hf Hgone.
  { simpl in Hgone. congruence. }
  destruct (range_step json_Unmarshal file rest keys w)
    as (keys1 & w1 & Heq & Hclock & Hother & Hround).
  rewrite Heq in Hgone |- *.
  pose proof (round_frame _ _ _ _ _ _ Hround) as (Hticks & _ & _).
  destruct (range_frame json_Unmarshal rest keys1 w1) as (_ & Hticks' & _).
  cbv zeta in Hticks'.
  assert (Hlater : lookupFile w1 n = Some f →
            ∃ file0 k i,
              file0 ∈ file :: rest ∧ client.Name file0 = n
              ∧ client.isKeyFile file0 = true
              ∧ decodes json_Unmarshal f k ∧ client.RemoveErr f = None
              ∧ client.Ticks w ≤ i < client.Ticks (range rest keys1 w1).2
              ∧ (client.Deadline k ≤ client.Clock w i)%Z).
  { intros Hf1.
    destruct (IH keys1 w1 Hf1 Hgone)
      as (file0 & k & i & Hin & Hname & Hkey & Hdec & Hrm & Hi & Hpast).
    exists file0, k, i. split; [right; exact Hin |].
    repeat (split; [assumption |]). split; [lia |].
    rewrite <- Hclock. exact Hpast. }
  destruct (decide (n = client.Name file)) as [->|Hne];
    [| apply Hlater; rewrite Hother; auto].
  destruct Hround as [w1 _ Hl _ _ | f0 k w1 _ Hf0 _ _ _ Hl _
                      | f0 k w1 Hkey Hf0 Hdec Hpast Ht Hrm].
  - apply Hlater. rewrite Hl. exact Hf.
  - apply Hlater. rewrite Hl. congruence.
  - rewrite Hf in Hf0. injection Hf0 as <-.
    destruct (client.RemoveErr f) as [e|] eqn:Hrmf; destruct Hrm as [Hl _].
    + apply Hlater. exact Hl.
    + exists file, k, (client.Ticks w). split; [left |].
      split; [reflexivity |]. split; [exact Hkey |]. split; [exact Hdec |].
      split; [reflexivity |]. split; [lia | exact Hpast].
Qed.

(** X11: [loadAllKeys] creates and changes no file of the keys directory,
    and the only files it removes are key files that decode to a key whose
    deadline had passed at some reading of the clock during the call: files
    that are no key files, key files that do not decode and keys that are
    still good all stay. *)
Theorem loadAllKeys_removes_only_expired (w : client.World) :
  let r := loadAllKeys w in
  (∀ n f, lookupFile r.2 n = Some f → lookupFile w n = Some f)
  ∧ (∀ n f, lookupFile w n = Some f → lookupFile r.2 n = None →
       keyFile n f ∧ client.RemoveErr f = None
       ∧ ∃ k i, decodes json_Unmarshal f k
           ∧ client.Ticks w ≤ i < client.Ticks r.2
           ∧ (client.Deadline k ≤ client.Clock w i)%Z).
Proof.
  cbv zeta. destruct ((loadAllKeys w).1.2) as [e|] eqn:Herr.
  { rewrite loadAllKeys_failed by congruence. simpl.
    split; [auto |]. intros n f Hf Hgone. congruence. }
  destruct (loadAllKeys_nil_inv json_Unmarshal w Herr) as (dir & Hdir & Hread).
  rewrite (loadAllKeys_listed json_Unmarshal w dir Hdir Hread). simpl.
  destruct (range_frame json_Unmarshal (client.listing dir) [] w)
    as (_ & _ & Hsame & _).
  split; [exact Hsame |]. intros n f Hf Hgone.
  destruct (range_removed _ _ _ _ _ Hf Hgone)
    as (file & k & i & Hin & Hname & Hkey & Hdec & Hrm & Hi & Hpast).
  split; [| split; [exact Hrm | eauto]].
  apply listing_inv in Hin as (f' & Hf' & Hisdir).
  unfold lookupFile in Hf. rewrite Hdir in Hf. simpl in Hf.
  rewrite Hname, Hf in Hf'. injection Hf' as <-.
  unfold keyFile. rewrite <- Hisdir, <- Hname. destruct file. exact Hkey.
Qed.

End KeyStoreFrame.

(** *** What the agent needs *)

Section AgentNeeds.
Context {tracelib : trace.Library}.
Variable json_Unmarshal : bytes → result client.Key.
Variable ParseAuthorizedKey : bytes → result ssh.PublicKey.
Variable ParseRawPrivateKey : bytes → result ssh.PrivateKey.
Variable keyring_AddErr : agent.AddedKey → option error.

Local Abbreviation loadAllKeys := (client.loadAllKeys json_Unmarshal).
Local Abbreviation addedKeys_range :=
  (client.addedKeys_range ParseAuthorizedKey ParseRawPrivateKey).
Local Abbreviation GetLocalAgentKeys :=
  (client.GetLocalAgentKeys json_Unmarshal ParseAuthorizedKey ParseRawPrivateKey).
Local Abbreviation GetLocalAgent :=
  (client.GetLocalAgent json_Unmarshal ParseAuthorizedKey ParseRawPrivateKey
     keyring_AddErr).

(** When the loop of [GetLocalAgentKeys] returns keys, every stored key
    parsed, its certificate as a certificate, and its agent key is among
    them, as are the keys that were there before. *)
Lemma addedKeys_range_all keys acc aks :
  addedKeys_range keys acc = Returns (aks, None) →
  (∀ ak, ak ∈ acc → ak ∈ aks)
  ∧ ∀ k, k ∈ keys →
      ∃ blob sig pk,
        ParseAuthorizedKey (client.Cert k) = Ok (ssh.Certificate blob sig)
        ∧ ParseRawPrivateKey (client.Priv k) = Ok pk
        ∧ agentKey pk (ssh.Certificate blob sig) ∈ aks.
Proof.
  revert acc. induction keys as [|key rest IH]; intros acc; simpl.
  { intros [= <-]. split; [auto |]. intros k Hk. inversion Hk. }
  destruct (ParseAuthorizedKey (client.Cert key)) as [pcert|e] eqn:Hcert;
    [| discriminate].
  destruct (ParseRawPrivateKey (client.Priv key)) as [pk|e] eqn:Hpriv;
    [| discriminate].
  destruct pcert as [blob|blob sig]; [discriminate |].
  intros Hrest. apply IH in Hrest as [Hacc Hall]. split.
  - intros ak Hak. apply Hacc. apply elem_of_app. by left.
  - intros k Hk. apply elem_of_cons in Hk as [->|Hk]; [| by apply Hall].
    exists blob, sig, pk. split; [exact Hcert |]. split; [exact Hpriv |].
    apply Hacc. apply elem_of_app. right. left.
Qed.

(** X12: when [GetLocalAgentKeys] returns keys and no error, every stored
    key file that decodes and stays before its deadline throughout the call
    is among them: its certificate parsed as a certificate and its private
    key parsed.  So one good key file whose certificate or private key does
    not parse, or whose certificate is a plain public key, makes the whole
    call fail. *)
Theorem GetLocalAgentKeys_needs_every_key (w : client.World)
    (aks : list agent.AddedKey) (name : string) (f : client.File)
    (k : client.Key) :
  (GetLocalAgentKeys w).1 = Returns (aks, None) →
  lookupFile w name = Some f → keyFile name f → decodes json_Unmarshal f k →
  (∀ i, client.Ticks w ≤ i → (client.Clock w i < client.Deadline k)%Z) →
  ∃ blob sig pk,
    ParseAuthorizedKey (client.Cert k) = Ok (ssh.Certificate blob sig)
    ∧ ParseRawPrivateKey (client.Priv k) = Ok pk
    ∧ agentKey pk (ssh.Certificate blob sig) ∈ aks.
Proof.
  intros Haks Hf Hkey Hdec Hfresh.
  unfold client.GetLocalAgentKeys, client.bind, client.ret in Haks.
  assert (Hinit : client.initKeysDir w = ((client.initKeysDir w).1, w)).
  { unfold client.initKeysDir. unfold lookupFile in Hf.
    destruct (client.KeysDir w); [| discriminate].
    destruct (client.StatErr w); reflexivity. }
  rewrite Hinit in Haks.
  destruct ((client.initKeysDir w).1) as [e|]; [discriminate |].
  destruct (loadAllKeys w) as [[keys err] w1] eqn:Hload.
  destruct err as [e|]; [discriminate |]. simpl in Haks.
  apply addedKeys_range_all in Haks as [_ Hall]. apply Hall.
  destruct (loadAllKeys_examined json_Unmarshal w name f k) as (i & Hi & Hcase);
    [by rewrite Hload | exact Hf | exact Hkey | exact Hdec |].
  rewrite Hload in Hcase. simpl in Hcase.
  destruct Hcase as [(_ & Hin & _) | (Hpast & _)]; [exact Hin |].
  specialize (Hfresh i ltac:(lia)). lia.
Qed.

Lemma keyring_range_accepts keys keyring result :
  client.keyring_range keyring_AddErr keys keyring = (Some result, None) →
  ∀ ak, ak ∈ keys → keyring_AddErr ak = None.
Proof.
  revert keyring. induction keys as [|key rest IH]; intros keyring; simpl.
  { intros _ ak Hak. inversion Hak. }
  destruct (keyring_AddErr key) eqn:Hadd; [discriminate |].
  intros H ak Hak. apply elem_of_cons in Hak as [->|Hak]; [exact Hadd |].
  eapply IH; eauto.
Qed.

(** X13: [GetLocalAgent] leaves the world as [GetLocalAgentKeys] leaves
    it, panics exactly when that panics, and returns a keyring exactly
    when that returns keys which [keyring.Add] all accepts; the keyring
    then holds those keys, all of them and in their order. *)
Theorem GetLocalAgent_keyring (w : client.World) :
  (GetLocalAgent w).2 = (GetLocalAgentKeys w).2
  ∧ ((GetLocalAgent w).1 = Panics ↔ (GetLocalAgentKeys w).1 = Panics)
  ∧ ∀ keyring,
      (GetLocalAgent w).1 = Returns (Some keyring, None)
      ↔ (GetLocalAgentKeys w).1 = Returns (keyring, None)
        ∧ ∀ ak, ak ∈ keyring → keyring_AddErr ak = None.
Proof.
  unfold client.GetLocalAgent, client.bind, client.ret.
  destruct (GetLocalAgentKeys w) as [[[aks [e|]]|] w1]; simpl.
  - split; [reflexivity |]. split; [split; discriminate |].
    intros keyring. split; [discriminate | intros [[=] _]].
  - split; [reflexivity |]. split; [split; discriminate |].
    intros keyring. split.
    + intros [= H]. pose proof (keyring_range_accepts _ _ _ H) as Hok.
      apply keyring_range_inv in H. simpl in H. subst keyring. auto.
    + intros [[= <-] Hok]. by rewrite keyring_range_ok.
  - split; [reflexivity |]. split; [tauto |].
    intros keyring. split; [discriminate | intros [[=] _]].
Qed.

End AgentNeeds.

(** *** Saving a key and loading it again *)

Section SaveKeyProofs.
Context {tracelib : trace.Library}.
Variable json_Marshal : client.Key → result bytes.
Variable json_Unmarshal : bytes → result client.Key.
Variable WriteErr : string → option error.

Local Abbreviation saveKey := (client.saveKey json_Marshal WriteErr).
Local Abbreviation loadKey := (client.loadKey json_Unmarshal).
Local Abbreviation loadAllKeys := (client.loadAllKeys json_Unmarshal).

(** What a successful [saveKey] leaves: the directory, made if it was not
    there, with the encoding of the key written to the file. *)
Lemma saveKey_inv key name w :
  (saveKey key name w).1 = None →
  let dir := default ∅ (client.KeysDir w) in
  ∃ data,
    json_Marshal key = Ok data
    ∧ (saveKey key name w).2
      = client.with_KeysDir (Some (<[name := written data (dir !! name)]> dir)) w.
Proof.
  unfold client.saveKey, client.bind, client.ret, client.initKeysDir.
  destruct (client.KeysDir w) as [dir|] eqn:Hd; simpl.
  - destruct (client.StatErr w); [discriminate |].
    destruct (json_Marshal key) as [data|e]; [| discriminate].
    unfold client.ioutil_WriteFile. rewrite Hd.
    destruct (WriteErr name); [discriminate |].
    destruct (dir !! name) as [f|] eqn:Hf.
    + destruct (client.IsDir f); [discriminate |]. intros _.
      exists data. split; reflexivity.
    + intros _. exists data. split; reflexivity.
  - destruct (client.MkdirErr w); [discriminate |].
    destruct (json_Marshal key) as [data|e]; [| discriminate].
    unfold client.ioutil_WriteFile. simpl.
    destruct (WriteErr name); [discriminate |].
    rewrite lookup_empty. intros _. exists data. split; reflexivity.
Qed.


End SaveKeyProofs.

(** Examples with the [trace] library of [Samples]. *)
Section KeyStoreMoreExamples.
#[local] Existing Instance Samples.library.

(** X12 at a concrete input: the good key of a directory with an expired
    and a good key file is among the keys of the agent. *)
Lemma GetLocalAgentKeys_needs_every_key_witness :
  let w := KeyInputs.world KeyInputs.twoKeys in
  let ak := agentKey (ssh.RawPrivateKey [Byte.x22])
              (ssh.Certificate [Byte.x00; Byte.x02; Byte.x0b]
                 (ssh.PlainKey [Byte.x02; Byte.x0b])) in
  (client.GetLocalAgentKeys Samples.json_Unmarshal Samples.ParseAuthorizedKey
     Samples.ParseRawPrivateKey w).1 = Returns ([ak], None)
  ∧ ∃ blob sig pk,
      Samples.ParseAuthorizedKey (client.Cert KeyInputs.newKey)
        = Ok (ssh.Certificate blob sig)
      ∧ Samples.ParseRawPrivateKey (client.Priv KeyInputs.newKey) = Ok pk
      ∧ agentKey pk (ssh.Certificate blob sig) ∈ [ak].
Proof.
  intros w ak.
  assert (Haks : (client.GetLocalAgentKeys Samples.json_Unmarshal
                    Samples.ParseAuthorizedKey Samples.ParseRawPrivateKey w).1
                 = Returns ([ak], None)) by (vm_compute; reflexivity).
  split; [exact Haks |].
  apply (GetLocalAgentKeys_needs_every_key Samples.json_Unmarshal
           Samples.ParseAuthorizedKey Samples.ParseRawPrivateKey w [ak]
           "teleport_new.tkey" KeyInputs.newFile KeyInputs.newKey Haks).
  - vm_compute. reflexivity.
  - vm_compute. reflexivity.
  - split; reflexivity.
  - intros i _. vm_compute. reflexivity.
Defined.


End KeyStoreMoreExamples.

(** ** The command line flags *)

(** *** The roles *)

Lemma Split_nonempty (s : string) sep : gostrings.Split s sep ≠ [].
Proof.
  destruct s as [|b s]; simpl; [discriminate |].
  destruct (Ascii.eqb b sep); [discriminate |].
  destruct (gostrings.Split s sep); discriminate.
Qed.

(** A byte of the string that is not the separator is in one of the
    pieces. *)
Lemma Split_hasByte c sep (s : string) :
  c ≠ sep → hasByte c s = true →
  ∃ piece, piece ∈ gostrings.Split s sep ∧ hasByte c piece = true.
Proof.
  intros Hsep. induction s as [|b s IH]; simpl; [discriminate |].
  intros Hc. destruct (Ascii.eqb_spec b sep) as [->|Hb].
  - destruct (Ascii.eqb_spec sep c) as [Heq|_]; [congruence |]. simpl in Hc.
    destruct (IH Hc) as (piece & Hin & Hpiece). exists piece.
    split; [by right | exact Hpiece].
  - destruct (gostrings.Split s sep) as [|piece0 pieces] eqn:Hsplit.
    { by destruct (Split_nonempty s sep). }
    destruct (Ascii.eqb_spec b c) as [->|Hbc]; simpl in Hc.
    + exists (String c piece0). split; [left |]. simpl.
      by rewrite Ascii.eqb_refl.
    + destruct (IH Hc) as (piece & Hin & Hpiece).
      apply elem_of_cons in Hin as [->|Hin].
      * exists (String b piece0). split; [left |]. simpl.
        rewrite Hpiece. apply orb_true_r.
      * exists piece. split; [by right | exact Hpiece].
Qed.

(** The first piece begins the string. *)
Lemma Split_first (s : string) sep piece pieces :
  gostrings.Split s sep = piece :: pieces → ∃ back, s = piece +:+ back.
Proof.
  revert piece pieces. induction s as [|b s IH]; intros piece pieces; simpl.
  { intros [= <- _]. by exists "". }
  destruct (Ascii.eqb b sep).
  { intros [= <- _]. by exists (String b s). }
  destruct (gostrings.Split s sep) as [|piece0 pieces0] eqn:Hsplit.
  { by destruct (Split_nonempty s sep). }
  intros [= <- _]. destruct (IH _ _ eq_refl) as [back ->]. by exists back.
Qed.

(** Every piece is a part of the string. *)
Lemma Split_part (s : string) sep piece :
  piece ∈ gostrings.Split s sep → ∃ front back, s = front +:+ piece +:+ back.
Proof.
  revert piece. induction s as [|b s IH]; intros piece; simpl.
  { intros ->%list_elem_of_singleton. by exists "", "". }
  destruct (Ascii.eqb b sep).
  { intros [->|Hin]%elem_of_cons; [by exists "", (String b s) |].
    destruct (IH _ Hin) as (front & back & ->). by exists (String b front), back. }
  destruct (gostrings.Split s sep) as [|piece0 pieces0] eqn:Hsplit.
  { by destruct (Split_nonempty s sep). }
  intros [->|Hin]%elem_of_cons.
  - destruct (Split_first s sep _ _ Hsplit) as [back ->]. by exists "", back.
  - destruct (IH piece) as (front & back & ->); [by right |].
    by exists (String b front), back.
Qed.

Lemma IndexFrom_eq i (s substr : string) :
  gostrings.IndexFrom i s substr
  = if String.prefix substr s then i
    else match s with
         | "" => (-1)%Z
         | String _ rest => gostrings.IndexFrom (i + 1)%Z rest substr
         end.
Proof. by destruct s. Qed.

(** [strings.Index] finds a part of the string, and only a part. *)
Lemma IndexFrom_part i (s substr : string) :
  (0 ≤ i)%Z →
  gostrings.IndexFrom i s substr ≠ (-1)%Z
  ↔ ∃ front back, s = front +:+ substr +:+ back.
Proof.
  revert i. induction s as [|b s IH]; intros i Hi; rewrite IndexFrom_eq;
    destruct (String.prefix substr _) eqn:Hp.
  - split; [| intros _; lia]. intros _. apply prefix_app in Hp as [back Hback].
    by exists "", back.
  - split; [congruence |]. intros (front & back & Heq).
    destruct front; [| discriminate]. simpl in Heq.
    assert (String.prefix substr "" = true) by (apply prefix_app; eauto).
    congruence.
  - split; [| intros _; lia]. intros _. apply prefix_app in Hp as [back Hback].
    by exists "", back.
  - rewrite IH by lia. split.
    + intros (front & back & ->). by exists (String b front), back.
    + intros (front & back & Heq). destruct front as [|c front].
      * simpl in Heq.
        assert (String.prefix substr (String b s) = true)
          by (apply prefix_app; eauto).
        congruence.
      * simpl in Heq. injection Heq as _ ->. eauto.
Qed.

Lemma oneOf_elem (s : string) l : main.oneOf s l = true ↔ s ∈ l.
Proof.
  unfold main.oneOf. rewrite existsb_exists. split.
  - intros (x & Hin & ->%String.eqb_eq). by apply list_elem_of_In.
  - intros Hin. exists s. split; [by apply list_elem_of_In | apply String.eqb_refl].
Qed.

Lemma validateRoles_range_nil roles :
  main.validateRoles_range roles = None ↔ Forall (.∈ roleNames) roles.
Proof.
  induction roles as [|role rest IH]; cbn [main.validateRoles_range];
    [by split |].
  rewrite Forall_cons, <- (oneOf_elem role roleNames). unfold roleNames.
  destruct (main.oneOf role _).
  - rewrite IH. tauto.
  - split; [discriminate |]. by intros [? _].
Qed.

Lemma validateRoles_range_first roles err :
  main.validateRoles_range roles = Some err →
  ∃ front role back, roles = front ++ role :: back
    ∧ Forall (.∈ roleNames) front ∧ (role ∉ roleNames)
    ∧ err = Errorf ("unknown role: " +:+ main.quoted role).
Proof.
  induction roles as [|role rest IH]; cbn [main.validateRoles_range];
    [discriminate |].
  pose proof (oneOf_elem role roleNames) as Hrole. unfold roleNames in Hrole at 1.
  destruct (main.oneOf role _).
  - intros (front & bad & back & -> & Hfront & Hbad & ->)%IH.
    exists (role :: front), bad, back. split; [done |].
    split; [constructor; [by apply Hrole | done] | done].
  - intros [= <-]. exists [], role, rest. split; [done |].
    split; [constructor |]. split; [| done]. intros Hin%Hrole. discriminate.
Qed.

(** X15: [validateRoles] accepts exactly the values whose comma-separated
    elements are each [auth], [node] or [proxy]; otherwise its error names
    the first element that is none of them.  So the empty value is
    refused, as is a value with an empty element (a comma at the end) or
    with a blank beside a name. *)
Theorem validateRoles_accepts_iff (roles : string) :
  (main.validateRoles roles = None
   ↔ Forall (.∈ roleNames) (gostrings.Split roles ","%char))
  ∧ (∀ err, main.validateRoles roles = Some err →
       ∃ front role back,
         gostrings.Split roles ","%char = front ++ role :: back
         ∧ Forall (.∈ roleNames) front ∧ (role ∉ roleNames)
         ∧ err = Errorf ("unknown role: '" +:+ role +:+ "'"))
  ∧ main.validateRoles "" = Some (Errorf "unknown role: ''").
Proof.
  split; [apply validateRoles_range_nil |].
  split; [| reflexivity]. intros err. apply validateRoles_range_first.
Qed.

(** Among the elements of a valid value, a role that is a part of the value
    is one of the elements: the names of the roles do not overlap. *)
Lemma part_listed (roles role : string) :
  Forall (.∈ roleNames) (gostrings.Split roles ","%char) →
  role ∈ roleNames →
  (∃ front back, roles = front +:+ role +:+ back) →
  role ∈ gostrings.Split roles ","%char.
Proof.
  intros Hvalid Hrole (front & back & ->).
  (* a byte that only [role] has among the names of the roles *)
  assert (∃ c, c ≠ ","%char ∧ hasByte c role = true
               ∧ ∀ r, r ∈ roleNames → hasByte c r = true → r = role)
    as (c & Hsep & Hc & Honly).
  { unfold roleNames in *. rewrite !elem_of_cons, elem_of_nil in Hrole.
    destruct Hrole as [->|[->|[->|[]]]];
      [exists "a"%char | exists "n"%char | exists "p"%char];
      (split; [discriminate |]); (split; [reflexivity |]);
      intros r Hr; rewrite !elem_of_cons, elem_of_nil in Hr;
      destruct Hr as [->|[->|[->|[]]]]; simpl; congruence. }
  destruct (Split_hasByte c ","%char (front +:+ role +:+ back) Hsep)
    as (piece & Hin & Hpiece).
  { rewrite !hasByte_app, Hc. by rewrite orb_true_r. }
  rewrite Forall_forall in Hvalid.
  pose proof (Honly piece (Hvalid piece Hin) Hpiece) as <-. exact Hin.
Qed.

Lemma named_part (roles role : string) :
  main.named roles role = true ↔ ∃ front back, roles = front +:+ role +:+ back.
Proof.
  unfold main.named, gostrings.Index.
  rewrite negb_true_iff, Z.eqb_neq. by apply IndexFrom_part.
Qed.

(** X16: for a value [validateRoles] accepts, a role is found in it by
    [strings.Index], which is how [configure] looks for it, exactly when
    the role is one of its comma-separated elements. *)
Theorem roles_named_iff_listed (roles role : string) :
  main.validateRoles roles = None →
  role ∈ roleNames →
  main.named roles role = true ↔ role ∈ gostrings.Split roles ","%char.
Proof.
  intros Hvalid Hrole. apply validateRoles_range_nil in Hvalid.
  rewrite named_part. split.
  - by apply part_listed.
  - apply Split_part.
Qed.

Lemma roles_named_iff_listed_witness :
  main.named "node,proxy" "node" = true
  ↔ "node" ∈ gostrings.Split "node,proxy" ","%char.
Proof.
  apply roles_named_iff_listed; [reflexivity |].
  unfold roleNames. right. left.
Defined.
(** *** The web assets *)

Section WebAssets.
Context {tracelib : trace.Library}.
Variable os_Stat : string → option error.
Variable os_IsNotExist : error → bool.
Variable exeDir : result string.
Variable Join : string → string → string.

Local Abbreviation fileExists := (main.fileExists os_Stat os_IsNotExist).
Local Abbreviation locateAssets := (main.locateAssets os_Stat os_IsNotExist Join).
Local Abbreviation assetDirs_range := (main.assetDirs_range os_Stat os_IsNotExist Join).
Local Abbreviation locateWebAssets := (main.locateWebAssets os_Stat os_IsNotExist exeDir Join).

Lemma fileExists_iff path :
  fileExists path = true
  ↔ ∀ err, os_Stat path = Some err → os_IsNotExist err = false.
Proof.
  unfold main.fileExists. destruct (os_Stat path) as [e|]; [| by split].
  destruct (os_IsNotExist e) eqn:He.
  - split; [discriminate |]. intros H. specialize (H e eq_refl). congruence.
  - split; [| done]. by intros _ ? [= <-].
Qed.

Lemma locateAssets_all dir assets :
  locateAssets dir assets = true
  ↔ Forall (λ af, fileExists (Join dir af) = true) assets.
Proof.
  induction assets as [|af rest IH]; simpl; [by split |].
  rewrite Forall_cons, <- IH. destruct (fileExists _); simpl; [tauto |].
  split; [discriminate | by intros [? _]].
Qed.

Lemma assetDirs_range_first dirs assets :
  match assetDirs_range dirs assets with
  | Some dir =>
      ∃ front back, dirs = front ++ dir :: back
        ∧ Forall (λ d, locateAssets d assets = false) front
        ∧ locateAssets dir assets = true
  | None => Forall (λ d, locateAssets d assets = false) dirs
  end.
Proof.
  induction dirs as [|d rest IH]; simpl; [constructor |].
  destruct (locateAssets d assets) eqn:Hd.
  - by exists [], rest.
  - destruct (assetDirs_range rest assets) as [dir|].
    + destruct IH as (front & back & -> & Hfront & Hdir).
      exists (d :: front), back. split; [done |]. split; [by constructor | done].
    + by constructor.
Qed.

(** X17: [locateWebAssets] walks the directory of the executable and then
    [/usr/local/share/teleport], [/usr/share/teleport] and [/opt/teleport],
    in this order, and returns the first in which neither [index.html] nor
    [/app/app.js] is reported as not existing by [os.Stat] (a file that
    [os.Stat] fails on for another reason counts as there); it returns an
    error exactly when no directory of the four is such. *)
Theorem locateWebAssets_first (exe : string) :
  exeDir = Ok exe →
  let there dir :=
    (∀ err, os_Stat (Join dir "index.html") = Some err → os_IsNotExist err = false)
    ∧ (∀ err, os_Stat (Join dir "/app/app.js") = Some err → os_IsNotExist err = false) in
  let dirs := exe :: main.DirsToLookForWebAssets in
  (∀ dir, locateWebAssets = (dir, None)
     ↔ ∃ front back, dirs = front ++ dir :: back
         ∧ Forall (λ d, ¬ there d) front ∧ there dir)
  ∧ (locateWebAssets.2 ≠ None ↔ Forall (λ d, ¬ there d) dirs).
Proof.
  intros Hexe there dirs.
  set (assets := ["index.html"; "/app/app.js"]).
  assert (Hthere : ∀ d, locateAssets d assets = true ↔ there d).
  { intros d. rewrite locateAssets_all. unfold assets, there.
    rewrite !Forall_cons, Forall_nil, !fileExists_iff. tauto. }
  assert (Hnot : ∀ l, Forall (λ d, locateAssets d assets = false) l
                      ↔ Forall (λ d, ¬ there d) l).
  { intros l. apply Forall_iff. intros d. rewrite <- Hthere.
    by destruct (locateAssets d assets). }
  assert (Hrun : locateWebAssets
                 = match assetDirs_range dirs assets with
                   | Some dir => (dir, None)
                   | None => ("", trace.Errorf
                       ("Cannot find web assets. Unable to locate "
                          +:+ Join exe "index.html"))
                   end).
  { unfold main.locateWebAssets. rewrite Hexe. fold assets.
    unfold dirs. cbn [main.assetDirs_range].
    by destruct (locateAssets exe assets). }
  rewrite Hrun. pose proof (assetDirs_range_first dirs assets) as Hfirst.
  destruct (assetDirs_range dirs assets) as [found|].
  - destruct Hfirst as (front & back & Hdirs & Hfront & Hfound). split.
    + intros dir. split.
      * intros [= <-]. exists front, back.
        by rewrite <- Hnot, <- Hthere.
      * intros (front' & back' & Hdirs' & Hfront' & Hdir).
        f_equal. rewrite Hdirs in Hdirs'.
        apply Hnot in Hfront'. apply Hthere in Hdir.
        clear -Hdirs' Hfront Hfront' Hfound Hdir.
        revert front' Hdirs' Hfront'.
        induction Hfront as [|d front Hd Hfront IH]; intros front' Hdirs' Hfront'.
        -- destruct Hfront' as [|d' front' Hd' _]; simpl in Hdirs'; [congruence |].
           injection Hdirs' as -> _. congruence.
        -- destruct Hfront' as [|d' front' Hd' Hfront']; simpl in Hdirs'.
           ++ injection Hdirs' as -> _. congruence.
           ++ injection Hdirs' as _ Hdirs'. eauto.
    + simpl. split; [done |]. rewrite <- Hnot, Hdirs, Forall_app, Forall_cons.
      intros (_ & Hno & _). congruence.
  - split.
    + intros dir. split; [discriminate |].
      intros (front & back & Hdirs & _ & Hdir).
      rewrite <- Hthere in Hdir. rewrite Forall_forall in Hfirst.
      rewrite (Hfirst dir) in Hdir; [discriminate |].
      rewrite Hdirs. apply elem_of_app. right. left.
    + simpl. by rewrite <- Hnot.
Qed.

End WebAssets.

Section WebAssetsExample.
#[local] Existing Instance Samples.library.

Lemma locateWebAssets_first_witness :
  main.locateWebAssets assetsStat (λ _, true) (Ok "/usr/bin") assetsJoin
  = ("/usr/share/teleport", None).
Proof.
  apply (locateWebAssets_first assetsStat (λ _, true) (Ok "/usr/bin")
           assetsJoin "/usr/bin" eq_refl).
  exists ["/usr/bin"; "/usr/local/share/teleport"], ["/opt/teleport"].
  split; [reflexivity |]. split.
  - repeat constructor; intros [H _]; by specialize (H _ eq_refl).
  - split; intros err; vm_compute; discriminate.
Defined.

End WebAssetsExample.
(** *** The listen IP *)

Section ListenIP.
Variable IP_String : service.IP → string.
Variable SplitHostPort : string → string * string * option error.
Variable JoinHostPort : string → string → string.

Local Abbreviation replaceHost := (main.replaceHost SplitHostPort JoinHostPort).
Local Abbreviation applyListenIP :=
  (main.applyListenIP IP_String SplitHostPort JoinHostPort).

Local Abbreviation port := (portOf SplitHostPort).

(** X18: when [net.SplitHostPort] reads back the port that
    [net.JoinHostPort] wrote, for the ports of the listen addresses and
    the IPs at hand, [applyListenIP] gives each of the five listen
    addresses (auth, proxy SSH, proxy web, reverse tunnel, node) the new
    host and keeps its port and its network, and changes nothing else of
    the configuration, [AuthServers] included; applying it for one IP and
    then for another is as applying it for the second alone.  The
    assumption is needed because the auth address is in the list of
    [applyListenIP] twice: its host is replaced twice. *)
Theorem applyListenIP_last_wins (ip1 ip2 : service.IP) (c : service.Config) :
  (∀ a ip, a ∈ listenAddrs c → ip ∈ [ip1; ip2] →
     (SplitHostPort (JoinHostPort (IP_String ip) (port a))).1.2 = port a) →
  applyListenIP ip1 c
    = withListenAddrs
        (map (λ a, {| utils.AddrNetwork := utils.AddrNetwork a;
                      utils.Addr := JoinHostPort (IP_String ip1) (port a) |})
             (listenAddrs c)) c
  ∧ applyListenIP ip2 (applyListenIP ip1 c) = applyListenIP ip2 c.
Proof.
  intros Hport.
  assert (Hreplace : ∀ a h,
    replaceHost a h = {| utils.AddrNetwork := utils.AddrNetwork a;
                         utils.Addr := JoinHostPort h (port a) |}).
  { intros a h. unfold main.replaceHost, portOf.
    by destruct (SplitHostPort (utils.Addr a)) as [[? ?] ?]. }
  assert (Hback : ∀ a ipa ipb, a ∈ listenAddrs c → ipa ∈ [ip1; ip2] →
    replaceHost (replaceHost a (IP_String ipa)) ipb
    = replaceHost a ipb).
  { intros a ipa ipb Ha Hip. rewrite !Hreplace. cbn [utils.AddrNetwork].
    f_equal. f_equal. unfold portOf at 1. cbn [utils.Addr]. by apply Hport. }
  assert (Hrun : ∀ ip c, applyListenIP ip c
    = withListenAddrs
        [ replaceHost (replaceHost (service.AuthConfig.SSHAddr (service.Auth c))
                         (IP_String ip)) (IP_String ip);
          replaceHost (service.ProxyConfig.SSHAddr (service.Proxy c)) (IP_String ip);
          replaceHost (service.ProxyConfig.WebAddr (service.Proxy c)) (IP_String ip);
          replaceHost (service.ProxyConfig.ReverseTunnelListenAddr (service.Proxy c))
            (IP_String ip);
          replaceHost (service.SSHConfig.Addr (service.SSH c)) (IP_String ip) ] c).
  { intros ip c0. destruct_config c0. reflexivity. }
  assert (Hset : ∀ a' p' w' t' n' a p w t n c0,
    withListenAddrs [a'; p'; w'; t'; n'] (withListenAddrs [a; p; w; t; n] c0)
    = withListenAddrs [a'; p'; w'; t'; n'] c0).
  { intros a' p' w' t' n' a p w t n c0. by destruct_config c0. }
  assert (Hget : ∀ a p w t n c0,
    let c' := withListenAddrs [a; p; w; t; n] c0 in
    service.AuthConfig.SSHAddr (service.Auth c') = a
    ∧ service.ProxyConfig.SSHAddr (service.Proxy c') = p
    ∧ service.ProxyConfig.WebAddr (service.Proxy c') = w
    ∧ service.ProxyConfig.ReverseTunnelListenAddr (service.Proxy c') = t
    ∧ service.SSHConfig.Addr (service.SSH c') = n).
  { intros a p w t n c0. by destruct_config c0. }
  assert (Hin : Forall (λ a, a ∈ listenAddrs c) (listenAddrs c))
    by (apply Forall_forall; auto).
  unfold listenAddrs in Hin at 2. rewrite !Forall_cons in Hin.
  destruct Hin as (Hauth & Hproxy & Hweb & Htunnel & Hnode & _).
  assert (H1 : ip1 ∈ [ip1; ip2]) by left.
  assert (H2 : ip2 ∈ [ip1; ip2]) by (right; left).
  assert (Hfirst : applyListenIP ip1 c
    = withListenAddrs
        (map (λ a, replaceHost a (IP_String ip1)) (listenAddrs c)) c).
  { rewrite Hrun, Hback by assumption. reflexivity. }
  split.
  - rewrite Hfirst. cbn [map listenAddrs]. by rewrite !Hreplace.
  - rewrite (Hrun ip2 (applyListenIP ip1 c)), Hfirst.
    cbn [map listenAddrs].
    match goal with
    | |- context [withListenAddrs [?a; ?p; ?w; ?t; ?n] c] =>
        destruct (Hget a p w t n c) as (-> & -> & -> & -> & ->)
    end.
    rewrite (Hback _ _ _ Hauth H1), (Hback _ _ _ Hauth H2),
      (Hback _ _ _ Hproxy H1), (Hback _ _ _ Hweb H1),
      (Hback _ _ _ Htunnel H1), (Hback _ _ _ Hnode H1), Hset.
    rewrite Hrun, (Hback _ _ _ Hauth H2). reflexivity.
Qed.

End ListenIP.

Section ListenIPExample.

Lemma applyListenIP_last_wins_witness :
  main.applyListenIP dotted cutHostPort glueHostPort (Some "10.0.0.2")
    (main.applyListenIP dotted cutHostPort glueHostPort (Some "10.0.0.1")
       Inputs.defaultConfig)
  = main.applyListenIP dotted cutHostPort glueHostPort (Some "10.0.0.2")
      Inputs.defaultConfig.
Proof.
  apply (applyListenIP_last_wins dotted cutHostPort glueHostPort
           (Some "10.0.0.1") (Some "10.0.0.2") Inputs.defaultConfig).
  intros a ip Ha Hip.
  repeat (apply elem_of_cons in Hip as [->|Hip]);
    [| | by apply elem_of_nil in Hip];
    repeat (apply elem_of_cons in Ha as [->|Ha]);
    try (by apply elem_of_nil in Ha); vm_compute; reflexivity.
Defined.

End ListenIPExample.
(** *** The labels *)

Section Labels.
Context {tracelib : trace.Library}.
Variable ParseDuration : string → option Duration.
Variable ParseLabelSpec : string → result (gmap string string).

Local Abbreviation isCmdLabelSpec := (main.isCmdLabelSpec ParseDuration).
Local Abbreviation labels_range := (main.labels_range ParseDuration).
Local Abbreviation parseLabels := (main.parseLabels ParseDuration ParseLabelSpec).
Local Abbreviation plain := (plainValue ParseDuration).
Local Abbreviation command := (commandValue ParseDuration).
Local Abbreviation labelsOf s := (default ∅ (service.SSHConfig.Labels s)).
Local Abbreviation cmdLabelsOf s := (default ∅ (service.SSHConfig.CmdLabels s)).

(** One round of the loop that goes on to the next. *)
Lemma labels_range_cons key value rest s s' :
  labels_range ((key, value) :: rest) s = Returns (None, s') →
  (plain value
   ∧ labels_range rest
       (service.SSHConfig.with_Labels (Some (<[key := value]> (labelsOf s))) s)
     = Returns (None, s'))
  ∨ (∃ cl, command value cl
     ∧ labels_range rest
         (service.SSHConfig.with_CmdLabels (Some (<[key := cl]> (cmdLabelsOf s))) s)
       = Returns (None, s')).
Proof.
  cbn [main.labels_range]. unfold plainValue, commandValue.
  destruct (isCmdLabelSpec value) as [[[cl|] [err|]]|];
    try discriminate; eauto.
Qed.

Lemma plain_not_command value cl : plain value → command value cl → False.
Proof. unfold plainValue, commandValue. congruence. Qed.

Lemma command_inj value cl cl' : command value cl → command value cl' → cl = cl'.
Proof. unfold commandValue. congruence. Qed.

(** What the loop leaves in the two maps and in the other fields. *)
Lemma labels_range_maps l s s' :
  NoDup l.*1 →
  labels_range l s = Returns (None, s') →
  (∀ key value, labelsOf s' !! key = Some value
     ↔ ((key, value) ∈ l ∧ plain value)
       ∨ ((∀ v, (key, v) ∈ l → ¬ plain v) ∧ labelsOf s !! key = Some value))
  ∧ (∀ key cl, cmdLabelsOf s' !! key = Some cl
     ↔ (∃ value, (key, value) ∈ l ∧ command value cl)
       ∨ ((∀ v c, (key, v) ∈ l → ¬ command v c)
          ∧ cmdLabelsOf s !! key = Some cl))
  ∧ ((is_Some (service.SSHConfig.Labels s) →
        is_Some (service.SSHConfig.Labels s'))
     ∧ (is_Some (service.SSHConfig.CmdLabels s) →
        is_Some (service.SSHConfig.CmdLabels s')))
  ∧ service.SSHConfig.with_Labels None (service.SSHConfig.with_CmdLabels None s')
    = service.SSHConfig.with_Labels None (service.SSHConfig.with_CmdLabels None s).
Proof.
  revert s. induction l as [|[k v] rest IH]; intros s Hnodup.
  { intros [= <-]. split; [| split; [| split]]; [| | done | done].
    - intros key value. split; [intros ?; right; split; [| done] | ].
      + by intros ? ?%elem_of_nil.
      + by intros [[?%elem_of_nil _]|[_ ?]].
    - intros key cl. split; [intros ?; right; split; [| done] | ].
      + by intros ? ? ?%elem_of_nil.
      + by intros [(? & ?%elem_of_nil & _)|[_ ?]]. }
  apply NoDup_cons in Hnodup as [Hk Hnodup].
  assert (Hfresh : ∀ x, (k, x) ∉ rest).
  { intros x Hin. apply Hk. apply list_elem_of_fmap. by exists (k, x). }
  intros [[Hv Hrest]|(c & Hv & Hrest)]%labels_range_cons;
    destruct (IH _ Hnodup Hrest) as (Hlabels & Hcmds & Hsome & Hframe);
    clear IH Hrest; (split; [| split; [| split]]).
  - intros key value. rewrite Hlabels. cbn [service.SSHConfig.with_Labels
      service.SSHConfig.Labels default id].
    destruct (decide (key = k)) as [->|Hne].
    + rewrite lookup_insert_eq. split.
      * intros [[Hin _]|[_ [= <-]]]; [by destruct (Hfresh value) |].
        left. split; [left | done].
      * intros [[[[= <-]|Hin]%elem_of_cons _]|[Hno _]].
        -- right. split; [| done]. intros x Hin. by destruct (Hfresh x).
        -- by destruct (Hfresh value).
        -- destruct (Hno v); [left | done].
    + rewrite lookup_insert_ne by done. split.
      * intros [[Hin Hp]|[Hno Hold]]; [left; split; [by right | done] |].
        right. split; [| done].
        intros x [[= ? ?]|Hin]%elem_of_cons; [done | by apply Hno].
      * intros [[[[= ? ?]|Hin]%elem_of_cons Hp]|[Hno Hold]]; [done | by left |].
        right. split; [| done]. intros x Hin. apply Hno. by right.
  - intros key cl. rewrite Hcmds. cbn [service.SSHConfig.with_Labels
      service.SSHConfig.CmdLabels]. split.
    + intros [(value & Hin & Hc)|[Hno Hold]].
      * left. exists value. split; [by right | done].
      * right. split; [| done].
        intros x c' [[= -> ->]|Hin]%elem_of_cons;
          [intros ?; by eapply plain_not_command | by apply Hno].
    + intros [(value & [[= -> ->]|Hin]%elem_of_cons & Hc)|[Hno Hold]].
      * by destruct (plain_not_command v cl).
      * left. by exists value.
      * right. split; [| done]. intros x c' Hin. apply Hno. by right.
  - split; intros Hs; apply Hsome; by destruct s.
  - rewrite Hframe. by destruct s.
  - intros key value. rewrite Hlabels. cbn [service.SSHConfig.with_CmdLabels
      service.SSHConfig.Labels]. split.
    + intros [[Hin Hp]|[Hno Hold]]; [left; split; [by right | done] |].
      right. split; [| done].
      intros x [[= -> ->]|Hin]%elem_of_cons;
        [intros ?; by eapply plain_not_command | by apply Hno].
    + intros [[[[= -> ->]|Hin]%elem_of_cons Hp]|[Hno Hold]].
      * by destruct (plain_not_command v c).
      * by left.
      * right. split; [| done]. intros x Hin. apply Hno. by right.
  - intros key cl. rewrite Hcmds. cbn [service.SSHConfig.with_CmdLabels
      service.SSHConfig.CmdLabels default id].
    destruct (decide (key = k)) as [->|Hne].
    + rewrite lookup_insert_eq. split.
      * intros [(value & Hin & _)|[_ [= <-]]]; [by destruct (Hfresh value) |].
        left. exists v. split; [left | done].
      * intros [(value & [[= <-]|Hin]%elem_of_cons & Hc)|[Hno _]].
        -- right. split; [| by rewrite (command_inj _ _ _ Hv Hc)].
           intros x ? Hin. by destruct (Hfresh x).
        -- by destruct (Hfresh value).
        -- destruct (Hno v c); [left | done].
    + rewrite lookup_insert_ne by done. split.
      * intros [(value & Hin & Hc)|[Hno Hold]].
        -- left. exists value. split; [by right | done].
        -- right. split; [| done].
           intros x c' [[= ? ?]|Hin]%elem_of_cons; [done | by apply Hno].
      * intros [(value & [[= ? ?]|Hin]%elem_of_cons & Hc)|[Hno Hold]];
          [done | left; by exists value |].
        right. split; [| done]. intros x c' Hin. apply Hno. by right.
  - split; intros Hs; apply Hsome; by destruct s.
  - rewrite Hframe. by destruct s.
Qed.

Lemma labels_range_plain key value rest s :
  plain value →
  labels_range ((key, value) :: rest) s
  = labels_range rest
      (service.SSHConfig.with_Labels (Some (<[key := value]> (labelsOf s))) s).
Proof. unfold plainValue. cbn [main.labels_range]. by intros ->. Qed.

Lemma labels_range_command key value cl rest s :
  command value cl →
  labels_range ((key, value) :: rest) s
  = labels_range rest
      (service.SSHConfig.with_CmdLabels (Some (<[key := cl]> (cmdLabelsOf s))) s).
Proof. unfold commandValue. cbn [main.labels_range]. by intros ->. Qed.

Lemma labels_range_perm l1 l2 s s' :
  l1 ≡ₚ l2 → NoDup l1.*1 →
  labels_range l1 s = Returns (None, s') →
  labels_range l2 s = Returns (None, s').
Proof.
  intros Hperm. revert s.
  induction Hperm as [|[k v] l1 l2 Hperm IH|[k1 v1] [k2 v2] l|l1 l2 l3 H12 IH12 H23 IH23];
    intros s Hnodup.
  - done.
  - apply NoDup_cons in Hnodup as [_ Hnodup].
    intros [[Hv Hrest]|(c & Hv & Hrest)]%labels_range_cons.
    + rewrite (labels_range_plain _ _ _ _ Hv). by apply IH.
    + rewrite (labels_range_command _ _ _ _ _ Hv). by apply IH.
  - assert (k1 ≠ k2) as Hne.
    { apply NoDup_cons in Hnodup as [Hk _]. intros ->. apply Hk. left. }
    intros [[Hv2 Hrest]|(c2 & Hv2 & Hrest)]%labels_range_cons;
      apply labels_range_cons in Hrest as [[Hv1 Hrest]|(c1 & Hv1 & Hrest)];
      rewrite <- Hrest;
      rewrite ?(labels_range_plain _ _ _ _ Hv1),
        ?(labels_range_command _ _ _ _ _ Hv1);
      rewrite ?(labels_range_plain _ _ _ _ Hv2),
        ?(labels_range_command _ _ _ _ _ Hv2);
      f_equal; destruct s;
      cbv [service.SSHConfig.with_Labels service.SSHConfig.with_CmdLabels
           service.SSHConfig.Labels service.SSHConfig.CmdLabels
           service.SSHConfig.Enabled service.SSHConfig.Token
           service.SSHConfig.Addr service.SSHConfig.Shell
           service.SSHConfig.Limiter];
      try reflexivity; f_equal; f_equal; apply insert_insert_ne; congruence.
  - intros H1. apply IH23; [| by apply IH12].
    by rewrite <- (fmap_Permutation _ _ _ H12).
Qed.

(** [parseLabels] writes to the two maps only. *)
Lemma parseLabels_frame spec s s' :
  parseLabels spec s = Returns (None, s') →
  service.SSHConfig.with_Labels None (service.SSHConfig.with_CmdLabels None s')
  = service.SSHConfig.with_Labels None (service.SSHConfig.with_CmdLabels None s).
Proof.
  unfold main.parseLabels. destruct (String.eqb spec ""); [by intros [= <-] |].
  destruct (ParseLabelSpec spec) as [lmap|err]; [| discriminate].
  intros Hrun.
  pose proof (labels_range_maps _ _ _ (NoDup_fst_map_to_list lmap) Hrun)
    as (_ & _ & _ & ->).
  destruct (0 <? size lmap)%nat; by destruct s.
Qed.

(** X19: the maps of Go are walked in no fixed order, and it does not
    matter to [parseLabels]: if the loop over the labels returns nil for
    one order of the keys, it returns nil for every other order as well,
    with the same labels and command labels. *)
Theorem labels_range_any_order (l1 l2 : list (string * string))
    (s s' : service.SSHConfig.t) :
  l1 ≡ₚ l2 → NoDup l1.*1 →
  labels_range l1 s = Returns (None, s')
  ↔ labels_range l2 s = Returns (None, s').
Proof.
  intros Hperm Hnodup. split.
  - by apply labels_range_perm.
  - apply labels_range_perm; [done |].
    by rewrite <- (fmap_Permutation _ _ _ Hperm).
Qed.

(** X20: when [parseLabels] returns nil for a spec that is not empty and
    that [client.ParseLabelSpec] reads a map from, the labels of the spec
    are split over [Labels] and [CmdLabels] of the SSH configuration: a
    key is in [CmdLabels] exactly when [isCmdLabelSpec] reads its value as
    a command label, and in [Labels], with its value, exactly when it does
    not; what the two maps held before is gone, and no other field
    changes.  If the map read from the spec is empty, nothing changes. *)
Theorem parseLabels_partition (spec : string) (lmap : gmap string string)
    (s s' : service.SSHConfig.t) :
  spec ≠ "" →
  ParseLabelSpec spec = Ok lmap →
  parseLabels spec s = Returns (None, s') →
  (lmap = ∅ → s' = s)
  ∧ (lmap ≠ ∅ →
     ∃ labels cmds,
       service.SSHConfig.Labels s' = Some labels
       ∧ service.SSHConfig.CmdLabels s' = Some cmds
       ∧ (∀ key value, labels !! key = Some value
            ↔ lmap !! key = Some value ∧ plain value)
       ∧ (∀ key cl, cmds !! key = Some cl
            ↔ ∃ value, lmap !! key = Some value ∧ command value cl))
  ∧ service.SSHConfig.with_Labels None (service.SSHConfig.with_CmdLabels None s')
    = service.SSHConfig.with_Labels None (service.SSHConfig.with_CmdLabels None s).
Proof.
  intros Hspec Hparse. unfold main.parseLabels.
  apply String.eqb_neq in Hspec. rewrite Hspec, Hparse.
  destruct (decide (lmap = ∅)) as [->|Hne].
  { rewrite map_to_list_empty. intros [= <-]. by repeat split. }
  assert ((0 <? size lmap)%nat = true) as ->.
  { apply Nat.ltb_lt. apply map_size_non_empty_iff in Hne. lia. }
  intros Hrun.
  pose proof (labels_range_maps _ _ _ (NoDup_fst_map_to_list lmap) Hrun)
    as (Hlabels & Hcmds & [Hl Hc] & Hframe).
  split; [done |]. split; [| by rewrite Hframe; destruct s].
  intros _. destruct Hl as [labels Hl]; [by eexists |].
  destruct Hc as [cmds Hc]; [by eexists |].
  exists labels, cmds. split; [done |]. split; [done |].
  rewrite Hl in Hlabels. rewrite Hc in Hcmds. split.
  - intros key value. rewrite (Hlabels key value), elem_of_map_to_list.
    cbn. rewrite lookup_empty. split; [| by left].
    by intros [?|[_ [=]]].
  - intros key cl. rewrite (Hcmds key cl). cbn. rewrite lookup_empty. split.
    + intros [(value & Hin%elem_of_map_to_list & Hcl)|[_ [=]]]. by exists value.
    + intros (value & Hin & Hcl). left. exists value.
      by rewrite elem_of_map_to_list.
Qed.

End Labels.

Section LabelsExample.
#[local] Existing Instance Samples.library.

Lemma labels_range_any_order_witness :
  main.labels_range Samples.ParseDuration
    [("role", "db"); ("uptime", "[1m:uptime -p]")] sampleSSH
  = Returns (None, sampleLabelled)
  ↔ main.labels_range Samples.ParseDuration
      [("uptime", "[1m:uptime -p]"); ("role", "db")] sampleSSH
    = Returns (None, sampleLabelled).
Proof.
  apply labels_range_any_order.
  - apply perm_swap.
  - cbn. apply NoDup_cons. split; [| apply NoDup_singleton].
    intros ?%list_elem_of_singleton. discriminate.
Defined.

Lemma parseLabels_partition_witness :
  service.SSHConfig.with_Labels None
    (service.SSHConfig.with_CmdLabels None sampleLabelled)
  = service.SSHConfig.with_Labels None
      (service.SSHConfig.with_CmdLabels None sampleSSH).
Proof.
  apply (parseLabels_partition Samples.ParseDuration sampleLabelSpec
           "role=db,uptime=[1m:uptime -p]" sampleLabelMap
           sampleSSH sampleLabelled).
  - discriminate.
  - reflexivity.
  - vm_compute. reflexivity.
Defined.

End LabelsExample.
(** *** [configure] *)

Section ConfigureProofs.
Context {tracelib : trace.Library}.
Variable ParseDuration : string → option Duration.
Variable ParseAddr : string → option utils.NetAddr.
Variable ParseHostPortAddr : string → Z → result utils.NetAddr.
Variable ParseLabelSpec : string → result (gmap string string).
Variable marshalEtcdConfig : list string → string → string * option error.
Variable os_Stat : string → option error.
Variable os_IsNotExist : error → bool.
Variable os_Create : string → option error.
Variable os_Hostname : string * option error.
Variable ToLower : string → string.
Variables IsLoopback IsUnspecified IsMulticast : service.IP → bool.
Variable IP_String : service.IP → string.
Variable ReadFromFile : string → option config.FileConfig * option error.
Variable InitLoggerDebug : main.LogOutput * main.LogLevel → main.LogOutput * main.LogLevel.
Variable SplitHostPort : string → string * string * option error.
Variable JoinHostPort : string → string → string.
Variable exeDir : result string.
Variable Join : string → string → string.

Local Abbreviation configure :=
  (main.configure ParseDuration ParseAddr ParseHostPortAddr ParseLabelSpec
     marshalEtcdConfig os_Stat os_IsNotExist os_Create os_Hostname ToLower
     IsLoopback IsUnspecified IsMulticast IP_String ReadFromFile
     InitLoggerDebug SplitHostPort JoinHostPort exeDir Join).
Local Abbreviation applyFileConfig :=
  (main.applyFileConfig ParseAddr ParseHostPortAddr marshalEtcdConfig
     (main.fileExists os_Stat os_IsNotExist) os_Create ToLower
     IsLoopback IsUnspecified IsMulticast IP_String).
Local Abbreviation readConfigFile :=
  (main.readConfigFile os_Stat os_IsNotExist ReadFromFile).
Local Abbreviation applyDebug := (main.applyDebug InitLoggerDebug).
Local Abbreviation applyAuthServerFlag := (main.applyAuthServerFlag ParseHostPortAddr).
Local Abbreviation applyNameTokenListenIP :=
  (main.applyNameTokenListenIP IP_String SplitHostPort JoinHostPort).
Local Abbreviation applyAdvertiseIPFlag :=
  (main.applyAdvertiseIPFlag IsLoopback IsUnspecified IsMulticast IP_String).
Local Abbreviation validateAdvertiseIP :=
  (main.validateAdvertiseIP IsLoopback IsUnspecified IsMulticast IP_String).
Local Abbreviation parseLabels := (main.parseLabels ParseDuration ParseLabelSpec).
Local Abbreviation applyWebAssets :=
  (main.applyWebAssets os_Stat os_IsNotExist exeDir Join).
Local Abbreviation locateWebAssets :=
  (main.locateWebAssets os_Stat os_IsNotExist exeDir Join).

(** The steps of a run of [configure] that returns a configuration and no
    error. *)
Lemma configure_steps clf output level c s :
  configure clf output level = Returns ((Some c, None), s) →
  ∃ c0 fileConf s1 s2 s3 sshConf,
    service.MakeDefaultConfig ParseAddr os_Hostname = Some c0
    ∧ readConfigFile (main.ConfigFile clf) = (fileConf, None)
    ∧ applyFileConfig fileConf
        {| main.cfg := c0; main.logOutput := output; main.logLevel := level |}
      = (None, s1)
    ∧ main.seq (main.applyRolesFlag clf) (applyAuthServerFlag clf)
        (applyDebug clf s1) = (None, s2)
    ∧ applyAdvertiseIPFlag clf
        (main.upd_cfg (applyNameTokenListenIP clf) s2) = (None, s3)
    ∧ parseLabels (main.Labels clf) (service.SSH (main.cfg s3))
      = Returns (None, sshConf)
    ∧ applyWebAssets (main.upd_cfg (service.with_SSH sshConf) s3) = (None, s)
    ∧ c = main.cfg s.
Proof.
  unfold main.configure.
  destruct (service.MakeDefaultConfig _ _) as [c0|] eqn:Hdefault; [| discriminate].
  destruct (main.readConfigFile _ _ _ _) as [fileConf [e|]] eqn:Hread;
    [discriminate |].
  destruct (main.applyFileConfig _ _ _ _ _ _ _ _ _ _ _ _) as [[e|] s1] eqn:Hfile;
    [discriminate |].
  destruct (main.seq _ _ _) as [[e|] s2] eqn:Hflags; [discriminate |].
  destruct (main.applyAdvertiseIPFlag _ _ _ _ _ _) as [[e|] s3] eqn:Hadv;
    [discriminate |].
  destruct (main.parseLabels _ _ _ _) as [[[e|] sshConf]|] eqn:Hlabels;
    [| | discriminate].
  { destruct (trace.Wrap (Some e)) eqn:Hwrap; discriminate. }
  destruct (main.applyWebAssets _ _ _ _ _) as [[e|] s4] eqn:Hweb;
    [discriminate |].
  intros [= Hc Hs]. subst. exists c0, fileConf, s1, s2, s3, sshConf.
  repeat split; assumption || reflexivity.
Qed.

(** What [configure] does after the [--auth-server] flag, when it goes
    through: the name, the token and the listen IP, the advertise IP, the
    labels and the web assets. *)
Lemma configure_tail clf s2 s3 sshConf s :
  applyAdvertiseIPFlag clf
    (main.upd_cfg (applyNameTokenListenIP clf) s2) = (None, s3) →
  parseLabels (main.Labels clf) (service.SSH (main.cfg s3))
    = Returns (None, sshConf) →
  applyWebAssets (main.upd_cfg (service.with_SSH sshConf) s3) = (None, s) →
  ∃ adv labels cmds dir,
    main.cfg s
    = service.upd_Proxy (service.ProxyConfig.with_AssetsDir dir)
        (service.upd_SSH
           (λ c, service.SSHConfig.with_Labels labels
                   (service.SSHConfig.with_CmdLabels cmds c))
           (service.with_AdvertiseIP adv
              (applyNameTokenListenIP clf (main.cfg s2))))
    ∧ main.logOutput s = main.logOutput s2
    ∧ main.logLevel s = main.logLevel s2
    ∧ (main.AdvertiseIP clf ≠ None →
         adv = main.AdvertiseIP clf
         ∧ validateAdvertiseIP (main.AdvertiseIP clf) = None)
    ∧ (service.ProxyConfig.Enabled (service.Proxy (main.cfg s2)) = true →
         locateWebAssets = (dir, None)).
Proof.
  intros Hadv Hlabels Hweb.
  set (c2 := applyNameTokenListenIP clf (main.cfg s2)) in *.
  assert (Henabled : service.ProxyConfig.Enabled (service.Proxy c2)
                     = service.ProxyConfig.Enabled (service.Proxy (main.cfg s2))).
  { unfold c2, main.applyNameTokenListenIP, service.ApplyToken.
    destruct (main.cfg s2) as [? ? ? ? ? ? ? [? ? ? ? ? ? ? ? ?] ? ?].
    by destruct (negb (String.eqb (main.NodeName clf) "")),
      (negb (String.eqb (main.AuthToken clf) "")), (main.ListenIP clf). }
  assert (∃ adv, s3 = main.upd_cfg (λ _, service.with_AdvertiseIP adv c2) s2
                 ∧ (main.AdvertiseIP clf ≠ None →
                      adv = main.AdvertiseIP clf
                      ∧ validateAdvertiseIP (main.AdvertiseIP clf) = None))
    as (adv & -> & Hadvertise).
  { unfold main.applyAdvertiseIPFlag in Hadv.
    destruct (main.AdvertiseIP clf) as [ip|] eqn:Hip.
    - destruct (main.validateAdvertiseIP _ _ _ _ _) eqn:Hvalid.
      + unfold main.fail in Hadv. cbn [trace.Wrap] in Hadv. discriminate.
      + injection Hadv as <-. exists (Some ip). split; [reflexivity |].
        intros _. split; reflexivity.
    - injection Hadv as <-. exists (service.AdvertiseIP c2).
      split; [| done]. unfold main.upd_cfg, main.with_cfg, main.assign. cbn.
      f_equal. change (c2 = service.with_AdvertiseIP (service.AdvertiseIP c2) c2).
      clearbody c2. by destruct c2. }
  apply (parseLabels_frame ParseDuration ParseLabelSpec) in Hlabels.
  exists adv, (service.SSHConfig.Labels sshConf),
    (service.SSHConfig.CmdLabels sshConf).
  unfold main.applyWebAssets in Hweb. cbn in Hweb. rewrite Henabled in Hweb.
  assert (Hssh : service.with_SSH sshConf (service.with_AdvertiseIP adv c2)
    = service.upd_SSH
        (λ c, service.SSHConfig.with_Labels (service.SSHConfig.Labels sshConf)
                (service.SSHConfig.with_CmdLabels
                   (service.SSHConfig.CmdLabels sshConf) c))
        (service.with_AdvertiseIP adv c2)).
  { cbn in Hlabels. destruct sshConf, c2 as [? ? ? ? [] ? ? ? ? ?].
    cbn in *. by injection Hlabels as -> -> -> -> ->. }
  destruct (service.ProxyConfig.Enabled (service.Proxy (main.cfg s2))).
  - destruct locateWebAssets as [dir [err|]] eqn:Hlocate.
    { cbn [trace.Wrap] in Hweb. discriminate. }
    injection Hweb as <-. exists dir. cbn. by rewrite Hssh.
  - injection Hweb as <-.
    exists (service.ProxyConfig.AssetsDir (service.Proxy c2)).
    cbn. rewrite Hssh. split; [| done].
    by destruct c2 as [? ? ? ? ? ? ? [] ? ?].
Qed.


(** The fields of the configuration after these last steps. *)
Lemma configure_tail_fields clf c2 adv labels cmds dir :
  let c :=
    service.upd_Proxy (service.ProxyConfig.with_AssetsDir dir)
      (service.upd_SSH
         (λ c, service.SSHConfig.with_Labels labels
                 (service.SSHConfig.with_CmdLabels cmds c))
         (service.with_AdvertiseIP adv (applyNameTokenListenIP clf c2))) in
  enabledServices c = enabledServices c2
  ∧ service.AuthServers c = service.AuthServers c2
  ∧ service.Console c = service.Console c2
  ∧ service.AdvertiseIP c = adv
  ∧ service.ProxyConfig.AssetsDir (service.Proxy c) = dir
  ∧ (main.NodeName clf ≠ "" → service.Hostname c = main.NodeName clf)
  ∧ (main.AuthToken clf ≠ "" →
       service.SSHConfig.Token (service.SSH c) = main.AuthToken clf
       ∧ service.ProxyConfig.Token (service.Proxy c) = main.AuthToken clf
       ∧ service.AuthConfig.Token (service.Auth c) = main.AuthToken clf).
Proof.
  unfold main.applyNameTokenListenIP, service.ApplyToken.
  destruct (String.eqb_spec (main.NodeName clf) "") as [Hname|Hname],
    (String.eqb_spec (main.AuthToken clf) "") as [Htoken|Htoken],
    (main.ListenIP clf) as [ip|];
    destruct_config c2; cbn; repeat split; done.
Qed.

(** The [--roles] and [--auth-server] flags, when [configure] goes on
    after them. *)
Lemma configure_flags clf s1 s2 :
  main.seq (main.applyRolesFlag clf) (applyAuthServerFlag clf) s1 = (None, s2) →
  main.logOutput s2 = main.logOutput s1
  ∧ main.logLevel s2 = main.logLevel s1
  ∧ service.Console (main.cfg s2) = service.Console (main.cfg s1)
  ∧ (main.Roles clf ≠ "" →
       main.validateRoles (main.Roles clf) = None
       ∧ enabledServices (main.cfg s2)
         = (main.named (main.Roles clf) defaults.RoleNode,
            main.named (main.Roles clf) defaults.RoleAuthService
              && String.eqb (main.AuthServerAddr clf) "",
            main.named (main.Roles clf) defaults.RoleProxy,
            main.named (main.Roles clf) defaults.RoleProxy))
  ∧ (main.AuthServerAddr clf ≠ "" →
       service.AuthConfig.Enabled (service.Auth (main.cfg s2)) = false
       ∧ ∃ addr, ParseHostPortAddr (main.AuthServerAddr clf) defaults.AuthListenPort
                 = Ok addr
                 ∧ service.AuthServers (main.cfg s2) = [addr]).
Proof.
  unfold main.seq, main.applyRolesFlag, main.applyAuthServerFlag, main.when.
  generalize (main.named (main.Roles clf) defaults.RoleNode),
    (main.named (main.Roles clf) defaults.RoleAuthService),
    (main.named (main.Roles clf) defaults.RoleProxy).
  intros node auth proxy. destruct s1 as [c1 out lvl].
  destruct (String.eqb_spec (main.Roles clf) "") as [Hroles|Hroles],
    (String.eqb_spec (main.AuthServerAddr clf) "") as [Hauth|Hauth];
    cbn [negb];
    try (destruct (main.validateRoles (main.Roles clf)) as [err|];
         [cbn; discriminate |]);
    try (destruct (ParseHostPortAddr _ _) as [addr|err] eqn:Hparse);
    unfold main.seq, main.assign, main.fail, main.upd_cfg, main.with_cfg;
    cbn; try discriminate; intros [= <-];
    destruct_config c1; destruct node, auth, proxy; cbn;
    repeat split; try done; try (by destruct Enabled0); eauto.
Qed.


(** An error of the [--roles] or of the [--auth-server] flag. *)
Lemma configure_flags_error clf s1 s2 e :
  main.seq (main.applyRolesFlag clf) (applyAuthServerFlag clf) s1 = (Some e, s2) →
  (main.Roles clf ≠ ""
   ∧ ∃ e', main.validateRoles (main.Roles clf) = Some e' ∧ e = Traced e')
  ∨ (main.AuthServerAddr clf ≠ ""
     ∧ ∃ e', ParseHostPortAddr (main.AuthServerAddr clf) defaults.AuthListenPort
             = Err e' ∧ e = Traced e').
Proof.
  unfold main.seq, main.applyRolesFlag, main.applyAuthServerFlag, main.when.
  destruct (String.eqb_spec (main.Roles clf) "") as [Hroles|Hroles],
    (String.eqb_spec (main.AuthServerAddr clf) "") as [Hauth|Hauth];
    cbn [negb];
    try (destruct (main.validateRoles (main.Roles clf)) as [err|];
         [cbn; intros [= <- <-]; left; eauto |]);
    try (destruct (ParseHostPortAddr _ _) as [addr|err] eqn:Hparse);
    unfold main.seq, main.assign, main.fail; cbn; try discriminate;
    intros [= <- <-]; right; eauto.
Qed.

Lemma named_listed (roles role : string) :
  main.validateRoles roles = None →
  role ∈ roleNames →
  main.named roles role = bool_decide (role ∈ gostrings.Split roles ","%char).
Proof.
  intros Hvalid%validateRoles_range_nil Hrole.
  destruct (main.named roles role) eqn:Hnamed; symmetry.
  - apply bool_decide_eq_true. apply part_listed; [done | done |].
    by apply named_part.
  - apply bool_decide_eq_false. intros Hin%Split_part%named_part. congruence.
Qed.

(** X21: when [configure] returns a configuration and no error and
    [--roles] was given, the value of the flag is valid and decides alone
    which services are enabled, whatever the configuration file says: the
    node, the proxy and the reverse tunnel are enabled exactly when [node],
    [proxy] and again [proxy] are among the comma-separated elements of
    the value, and the auth service when [auth] is among them and
    [--auth-server] was not given. *)
Theorem configure_roles_flag (clf : main.CommandLineFlags)
    (output : main.LogOutput) (level : main.LogLevel) (c : service.Config)
    (s : main.State) :
  configure clf output level = Returns ((Some c, None), s) →
  main.Roles clf ≠ "" →
  let listed (role : string) :=
    bool_decide (role ∈ gostrings.Split (main.Roles clf) ","%char) in
  Forall (.∈ roleNames) (gostrings.Split (main.Roles clf) ","%char)
  ∧ enabledServices c
    = (listed "node", listed "auth" && String.eqb (main.AuthServerAddr clf) "",
       listed "proxy", listed "proxy").
Proof.
  intros (c0 & fc & s1 & s2 & s3 & sshConf & _ & _ & _ & Hflags & Hadv
          & Hlabels & Hweb & ->)%configure_steps Hroles listed.
  destruct (configure_tail _ _ _ _ _ Hadv Hlabels Hweb)
    as (adv & labels & cmds & dir & -> & _).
  destruct (configure_tail_fields clf (main.cfg s2) adv labels cmds dir)
    as (-> & _).
  apply configure_flags in Hflags as (_ & _ & _ & Hset & _).
  destruct (Hset Hroles) as [Hvalid ->]. split.
  - by apply validateRoles_range_nil.
  - unfold listed. rewrite !(named_listed _ _ Hvalid); [done | | |];
      unfold roleNames; [right; right; left | left | right; left].
Qed.

(** X22: when [configure] returns a configuration and no error and
    [--auth-server] was given, the local auth service is not enabled,
    whatever the configuration file and [--roles] say, and the one auth
    server of the configuration is the address read from the flag, with
    3025 as the default port. *)
Theorem configure_auth_server_flag (clf : main.CommandLineFlags)
    (output : main.LogOutput) (level : main.LogLevel) (c : service.Config)
    (s : main.State) :
  configure clf output level = Returns ((Some c, None), s) →
  main.AuthServerAddr clf ≠ "" →
  service.AuthConfig.Enabled (service.Auth c) = false
  ∧ ∃ addr, ParseHostPortAddr (main.AuthServerAddr clf) 3025 = Ok addr
            ∧ service.AuthServers c = [addr].
Proof.
  intros (c0 & fc & s1 & s2 & s3 & sshConf & _ & _ & _ & Hflags & Hadv
          & Hlabels & Hweb & ->)%configure_steps Hauth.
  destruct (configure_tail _ _ _ _ _ Hadv Hlabels Hweb)
    as (adv & labels & cmds & dir & -> & _).
  destruct (configure_tail_fields clf (main.cfg s2) adv labels cmds dir)
    as (Henabled & -> & _).
  apply configure_flags in Hflags as (_ & _ & _ & _ & Hset).
  destruct (Hset Hauth) as [Hoff Haddr]. split; [| exact Haddr].
  pose proof (f_equal (λ t, t.1.1.2) Henabled) as Hsame.
  cbv beta in Hsame. unfold enabledServices in Hsame.
  cbn [fst snd] in Hsame. by rewrite Hsame.
Qed.

(** X23: the command line wins over the configuration file.  When
    [configure] returns a configuration and no error, a [--name] that is
    not empty is the host name, a [--token] that is not empty is the token
    of the node, of the proxy and of the auth service, an
    [--advertise-ip] is the advertise IP and is not a loopback, an
    unspecified or a multicast address, with [-d] the console is
    [ioutil.Discard], and if the proxy is enabled then its assets
    directory is the one [locateWebAssets] found. *)
Theorem configure_flags_win (clf : main.CommandLineFlags)
    (output : main.LogOutput) (level : main.LogLevel) (c : service.Config)
    (s : main.State) :
  configure clf output level = Returns ((Some c, None), s) →
  (main.NodeName clf ≠ "" → service.Hostname c = main.NodeName clf)
  ∧ (main.AuthToken clf ≠ "" →
       service.SSHConfig.Token (service.SSH c) = main.AuthToken clf
       ∧ service.ProxyConfig.Token (service.Proxy c) = main.AuthToken clf
       ∧ service.AuthConfig.Token (service.Auth c) = main.AuthToken clf)
  ∧ (main.AdvertiseIP clf ≠ None →
       service.AdvertiseIP c = main.AdvertiseIP clf
       ∧ IsLoopback (main.AdvertiseIP clf) = false
       ∧ IsUnspecified (main.AdvertiseIP clf) = false
       ∧ IsMulticast (main.AdvertiseIP clf) = false)
  ∧ (main.Debug clf = true → service.Console c = service.Discard)
  ∧ (service.ProxyConfig.Enabled (service.Proxy c) = true →
       locateWebAssets = (service.ProxyConfig.AssetsDir (service.Proxy c), None)).
Proof.
  intros (c0 & fc & s1 & s2 & s3 & sshConf & _ & _ & _ & Hflags & Hadv
          & Hlabels & Hweb & ->)%configure_steps.
  destruct (configure_tail _ _ _ _ _ Hadv Hlabels Hweb)
    as (adv & labels & cmds & dir & -> & _ & _ & Hadvertise & Hassets).
  destruct (configure_tail_fields clf (main.cfg s2) adv labels cmds dir)
    as (Henabled & _ & -> & -> & -> & Hname & Htoken).
  apply configure_flags in Hflags as (_ & _ & -> & _).
  split; [exact Hname |]. split; [exact Htoken |]. split; [| split].
  - intros Hip. destruct (Hadvertise Hip) as [-> Hvalid]. split; [done |].
    unfold main.validateAdvertiseIP in Hvalid.
    by destruct (IsLoopback _), (IsUnspecified _), (IsMulticast _).
  - unfold main.applyDebug. intros ->. cbn.
    by destruct (InitLoggerDebug _).
  - intros Hproxy. apply Hassets.
    pose proof (f_equal (λ t, t.1.2) Henabled) as Hsame.
    cbv beta in Hsame. unfold enabledServices in Hsame.
    cbn [fst snd] in Hsame. by rewrite <- Hsame.
Qed.

(** X24: [configure] never returns a nil configuration with a nil error.
    With an error it returns a nil configuration, except for the errors of
    the [--roles] and [--auth-server] flags: an invalid [--roles] value
    and an [--auth-server] address that does not parse are returned
    together with the configuration built so far. *)
Theorem configure_result (clf : main.CommandLineFlags)
    (output : main.LogOutput) (level : main.LogLevel)
    (oc : option service.Config) (oe : option error) (s : main.State) :
  configure clf output level = Returns ((oc, oe), s) →
  (oe = None → is_Some oc)
  ∧ (is_Some oc → ∀ e, oe = Some e →
       (main.Roles clf ≠ ""
        ∧ ∃ e', main.validateRoles (main.Roles clf) = Some e' ∧ e = Traced e')
       ∨ (main.AuthServerAddr clf ≠ ""
          ∧ ∃ e', ParseHostPortAddr (main.AuthServerAddr clf)
                    defaults.AuthListenPort = Err e'
                  ∧ e = Traced e')).
Proof.
  unfold main.configure.
  destruct (service.MakeDefaultConfig _ _) as [c0|]; [| discriminate].
  destruct (main.readConfigFile _ _ _ _) as [fileConf [e|]].
  { intros [= <- <- _]. split; [discriminate | by intros [? [=]]]. }
  destruct (main.applyFileConfig _ _ _ _ _ _ _ _ _ _ _ _) as [[e|] s1].
  { intros [= <- <- _]. split; [discriminate | by intros [? [=]]]. }
  destruct (main.seq _ _ _) as [[e|] s2] eqn:Hflags.
  { intros [= <- <- _]. split; [discriminate |]. intros _ ? [= <-].
    by apply configure_flags_error in Hflags. }
  destruct (main.applyAdvertiseIPFlag _ _ _ _ _ _) as [[e|] s3].
  { intros [= <- <- _]. split; [discriminate | by intros [? [=]]]. }
  destruct (main.parseLabels _ _ _ _) as [[[e|] sshConf]|]; [| | discriminate].
  { intros [= <- <- _]. split; [discriminate | by intros [? [=]]]. }
  destruct (main.applyWebAssets _ _ _ _ _) as [[e|] s4].
  { intros [= <- <- _]. split; [discriminate | by intros [? [=]]]. }
  intros [= <- <- _]. split; [by eexists | discriminate].
Qed.

End ConfigureProofs.

Section ConfigureExamples.

Local Abbreviation at_sample theorem :=
  (theorem Samples.library Samples.ParseDuration Samples.ParseAddr
     sampleHostPort sampleLabelSpec (λ _ _, ("", None)) assetsStat (λ _, true)
     (λ _, None) ("node-1", None) (λ s, s) (λ _, false) (λ _, false)
     (λ _, false) dotted (λ _, (None, None))
     (λ _, (main.ToStderr, main.DebugLevel)) cutHostPort glueHostPort
     (Ok "/usr/bin") assetsJoin).

Lemma configure_roles_flag_witness :
  Forall (.∈ roleNames) (gostrings.Split "node,auth" ","%char)
  ∧ enabledServices sampleConfigured = (true, false, false, false).
Proof.
  refine (at_sample (@configure_roles_flag) sampleFlags main.DefaultOutput
            main.DefaultLevel sampleConfigured sampleLogger _ _).
  - vm_compute. reflexivity.
  - discriminate.
Defined.

Lemma configure_auth_server_flag_witness :
  service.AuthConfig.Enabled (service.Auth sampleConfigured) = false
  ∧ ∃ addr, sampleHostPort "10.0.0.5" 3025 = Ok addr
            ∧ service.AuthServers sampleConfigured = [addr].
Proof.
  refine (at_sample (@configure_auth_server_flag) sampleFlags main.DefaultOutput
            main.DefaultLevel sampleConfigured sampleLogger _ _).
  - vm_compute. reflexivity.
  - discriminate.
Defined.

Lemma configure_flags_win_witness :
  service.Hostname sampleConfigured = "edge-1"
  ∧ service.SSHConfig.Token (service.SSH sampleConfigured) = "secret"
  ∧ service.AdvertiseIP sampleConfigured = Some "10.0.0.9"
  ∧ service.Console sampleConfigured = service.Discard.
Proof.
  destruct (at_sample (@configure_flags_win) sampleFlags main.DefaultOutput
              main.DefaultLevel sampleConfigured sampleLogger)
    as (Hname & Htoken & Hip & Hdebug & _).
  - vm_compute. reflexivity.
  - split; [by apply Hname |]. split; [by apply Htoken |].
    split; [by apply Hip | by apply Hdebug].
Defined.

Lemma configure_result_witness :
  (main.Roles wrongRoleFlags ≠ ""
   ∧ ∃ e', main.validateRoles (main.Roles wrongRoleFlags) = Some e'
           ∧ Traced (Errorf "unknown role: 'admin'") = Traced e')
  ∨ (main.AuthServerAddr wrongRoleFlags ≠ ""
     ∧ ∃ e', sampleHostPort (main.AuthServerAddr wrongRoleFlags)
               defaults.AuthListenPort = Err e'
             ∧ Traced (Errorf "unknown role: 'admin'") = Traced e').
Proof.
  destruct (at_sample (@configure_result) wrongRoleFlags main.DefaultOutput
              main.DefaultLevel
              (Some (configOf (sampleConfigure wrongRoleFlags)))
              (Some (Traced (Errorf "unknown role: 'admin'")))
              (loggerOf (sampleConfigure wrongRoleFlags)))
    as [_ Hcases].
  - vm_compute. reflexivity.
  - apply Hcases; [by eexists | reflexivity].
Defined.

End ConfigureExamples.
(** *** What the configuration file cannot do *)

Lemma fileMerge_refl c : fileMerge c c.
Proof. by repeat split. Qed.

Lemma fileMerge_trans c1 c2 c3 :
  fileMerge c1 c2 → fileMerge c2 c3 → fileMerge c1 c3.
Proof.
  intros (Hk1 & Hs1 & Ha1 & Hp1) (Hk2 & Hs2 & Ha2 & Hp2).
  split; [by rewrite Hk2 |]. repeat split; auto.
Qed.

Lemma merges_seq a b : merges a → merges b → merges (main.seq a b).
Proof.
  intros Ha Hb s. unfold main.seq. specialize (Ha s).
  destruct (a s) as [[e|] s']; simpl in *; [exact Ha |].
  eapply fileMerge_trans; [exact Ha | apply Hb].
Qed.

Lemma merges_cfg f :
  (∀ c, fileMerge c (f c)) → merges (main.assign (main.upd_cfg f)).
Proof. intros H s. apply H. Qed.

Lemma merges_state f :
  (∀ s, main.cfg (f s) = main.cfg s) → merges (main.assign f).
Proof. intros H s. simpl. rewrite H. apply fileMerge_refl. Qed.

Lemma merges_fail e : merges (main.fail e).
Proof. intros s. apply fileMerge_refl. Qed.

Lemma merges_when c a : merges a → merges (main.when c a).
Proof. destruct c; simpl; [auto | intros _; by apply merges_state]. Qed.

(** A field written, the kept ones apart; [Enabled] cleared. *)
Ltac merges_field :=
  apply merges_cfg; intros c; destruct_config c;
  split; [reflexivity |]; repeat split; simpl; congruence.

Ltac merges_steps :=
  repeat first
    [ apply merges_seq
    | apply merges_when
    | apply merges_fail
    | apply merges_state; intros ?; reflexivity
    | merges_field ].

Section FileMerge.
Context {tracelib : trace.Library}.
Variable ParseAddr : string → option utils.NetAddr.
Variable ParseHostPortAddr : string → Z → result utils.NetAddr.
Variable marshalEtcdConfig : list string → string → string * option error.
Variable fileExists : string → bool.
Variable os_Create : string → option error.
Variable ToLower : string → string.
Variables IsLoopback IsUnspecified IsMulticast : service.IP → bool.
Variable IP_String : service.IP → string.

Lemma merges_applyRoles fc : merges (main.applyRoles fc).
Proof.
  unfold main.applyRoles, main.applyString.
  destruct (negb (String.eqb (config.NodeName fc) "")); merges_steps.
Qed.

Lemma merges_applyAdvertiseIP fc :
  merges (main.applyAdvertiseIP IsLoopback IsUnspecified IsMulticast IP_String fc).
Proof.
  unfold main.applyAdvertiseIP.
  destruct (config.AdvertiseIP fc); [| merges_steps].
  destruct (main.validateAdvertiseIP _ _ _ _ _); merges_steps.
Qed.

Lemma merges_authServers servers :
  merges (main.authServers_range ParseAddr servers).
Proof.
  induction servers as [|a rest IH]; simpl; [merges_steps |].
  destruct (ParseAddr a); [| merges_steps].
  apply merges_seq; [merges_steps | exact IH].
Qed.

Lemma merges_applyAuthServers fc : merges (main.applyAuthServers ParseAddr fc).
Proof.
  unfold main.applyAuthServers. apply merges_when.
  apply merges_seq; [merges_steps | apply merges_authServers].
Qed.

Lemma merges_applyTokenAndDomain fc : merges (main.applyTokenAndDomain fc).
Proof.
  unfold main.applyTokenAndDomain, service.ApplyToken.
  destruct (negb (String.eqb (config.AuthToken fc) "")); merges_steps.
Qed.

Lemma fileMerge_ConfigureBolt c d : fileMerge c (service.ConfigureBolt c d).
Proof.
  unfold service.ConfigureBolt. destruct_config c. cbn.
  repeat match goal with |- context [if ?b then _ else _] => destruct b end;
    by repeat split.
Qed.

Lemma fileMerge_ConfigureETCD c d peers key :
  fileMerge c (service.ConfigureETCD marshalEtcdConfig c d peers key).2.
Proof.
  unfold service.ConfigureETCD, service.etcdParams.
  destruct (marshalEtcdConfig peers key) as [out [e|]]; destruct_config c;
    by repeat split.
Qed.

Lemma merges_applyStorage fc : merges (main.applyStorage marshalEtcdConfig fc).
Proof.
  unfold main.applyStorage.
  destruct (String.eqb _ teleport.BoltBackendType).
  { apply merges_cfg. intros c. apply fileMerge_ConfigureBolt. }
  destruct (String.eqb _ teleport.ETCDBackendType).
  { intros s.
    pose proof (fileMerge_ConfigureETCD (main.cfg s)
      (config.DirName (config.Storage fc)) (config.Peers (config.Storage fc))
      (config.Prefix (config.Storage fc))) as H.
    destruct (service.ConfigureETCD _ _ _ _ _) as [[e|] c]; exact H. }
  destruct (String.eqb _ _); merges_steps.
Qed.

Lemma merges_applyLogOutput fc : merges (main.applyLogOutput os_Create fc).
Proof.
  unfold main.applyLogOutput.
  repeat match goal with |- context [if ?b then _ else _] => destruct b end;
    merges_steps.
  destruct (os_Create _); merges_steps.
Qed.

Lemma merges_applyLogSeverity fc : merges (main.applyLogSeverity ToLower fc).
Proof.
  unfold main.applyLogSeverity.
  repeat match goal with |- context [if ?b then _ else _] => destruct b end;
    merges_steps.
Qed.

Lemma merges_applyLimits fc : merges (main.applyLimits fc).
Proof.
  intros s. unfold main.applyLimits. cbn [snd].
  rewrite limiters_range_id. apply fileMerge_refl.
Qed.

Lemma merges_applyAddr spec port set :
  (∀ a c, fileMerge c (set a c)) →
  merges (main.applyAddr ParseHostPortAddr spec port set).
Proof.
  intros H. unfold main.applyAddr. apply merges_when.
  destruct (ParseHostPortAddr spec port); [| apply merges_fail].
  apply merges_cfg. intros c. apply H.
Qed.

Lemma merges_applyPath path what set :
  (∀ a c, fileMerge c (set a c)) →
  merges (main.applyPath fileExists path what set).
Proof.
  intros H. unfold main.applyPath. apply merges_when.
  destruct (negb _); [apply merges_fail |].
  apply merges_cfg. intros c. apply H.
Qed.

Ltac merges_set :=
  intros ? c; destruct_config c; by repeat split.

Lemma merges_applyProxy fc :
  merges (main.applyProxy ParseHostPortAddr fileExists fc).
Proof.
  unfold main.applyProxy.
  apply merges_seq; [apply merges_applyAddr; merges_set |].
  apply merges_seq; [apply merges_applyAddr; merges_set |].
  apply merges_seq; apply merges_applyPath; merges_set.
Qed.

Lemma merges_applyAuth fc : merges (main.applyAuth ParseHostPortAddr fc).
Proof. unfold main.applyAuth. apply merges_applyAddr. merges_set. Qed.

Lemma merges_applySSH fc : merges (main.applySSH ParseHostPortAddr fc).
Proof.
  unfold main.applySSH.
  apply merges_seq; [apply merges_applyAddr; merges_set |].
  apply merges_seq.
  - destruct (config.SSH.Labels _); merges_steps.
  - destruct (config.SSH.Commands _); merges_steps.
Qed.

(** X25: whatever the configuration file says, and whether or not
    [applyFileConfig] returns an error, the configuration it leaves
    enables no service that was not enabled before (the file can only
    disable), and keeps the data directory (the storage section moves the
    back-ends only), the host UUID, the console, the whole reverse tunnel
    section (it stays enabled when the file disables the proxy), the
    shell, the assets directory, and the secret key, allowed tokens,
    trusted authorities, CAs and encryption keys of the auth service. *)
Theorem applyFileConfig_cannot_enable (fc : option config.FileConfig)
    (s : main.State) :
  fileMerge (main.cfg s)
    (main.cfg
       (main.applyFileConfig ParseAddr ParseHostPortAddr marshalEtcdConfig
          fileExists os_Create ToLower IsLoopback IsUnspecified IsMulticast
          IP_String fc s).2).
Proof.
  revert s. change (merges
    (main.applyFileConfig ParseAddr ParseHostPortAddr marshalEtcdConfig
       fileExists os_Create ToLower IsLoopback IsUnspecified IsMulticast
       IP_String fc)).
  destruct fc as [fc|]; [| apply merges_fail].
  unfold main.applyFileConfig.
  apply merges_seq; [apply merges_applyRoles |].
  apply merges_seq; [apply merges_applyAdvertiseIP |].
  apply merges_seq; [apply merges_applyAuthServers |].
  apply merges_seq; [apply merges_applyTokenAndDomain |].
  apply merges_seq; [apply merges_applyStorage |].
  apply merges_seq; [apply merges_applyLogOutput |].
  apply merges_seq; [apply merges_applyLogSeverity |].
  apply merges_seq; [apply merges_applyLimits |].
  apply merges_seq; [apply merges_applyProxy |].
  apply merges_seq; [apply merges_applyAuth |].
  apply merges_applySSH.
Qed.

End FileMerge.
(** *** No configuration file *)

Section NoConfigFile.
Context {tracelib : trace.Library}.
Variable ParseDuration : string → option Duration.
Variable ParseAddr : string → option utils.NetAddr.
Variable ParseHostPortAddr : string → Z → result utils.NetAddr.
Variable ParseLabelSpec : string → result (gmap string string).
Variable marshalEtcdConfig : list string → string → string * option error.
Variable os_Stat : string → option error.
Variable os_IsNotExist : error → bool.
Variable os_Create : string → option error.
Variable os_Hostname : string * option error.
Variable ToLower : string → string.
Variables IsLoopback IsUnspecified IsMulticast : service.IP → bool.
Variable IP_String : service.IP → string.
Variable InitLoggerDebug : main.LogOutput * main.LogLevel → main.LogOutput * main.LogLevel.
Variable SplitHostPort : string → string * string * option error.
Variable JoinHostPort : string → string → string.
Variable exeDir : result string.
Variable Join : string → string → string.

Local Abbreviation configure ReadFromFile :=
  (main.configure ParseDuration ParseAddr ParseHostPortAddr ParseLabelSpec
     marshalEtcdConfig os_Stat os_IsNotExist os_Create os_Hostname ToLower
     IsLoopback IsUnspecified IsMulticast IP_String ReadFromFile
     InitLoggerDebug SplitHostPort JoinHostPort exeDir Join).

(** X26: when [os.Stat] reports that the configuration file does not
    exist ([/etc/teleport.yaml], or the file [--config] names),
    [configure] does not read it: its result is the same whatever reading
    the file would give.  If the missing file was named by [--config],
    [configure] returns a nil configuration and the error [file not
    found], and has touched neither the defaults nor the logger; the
    default file missing is passed over in silence. *)
Theorem configure_absent_config_file (clf : main.CommandLineFlags)
    (output : main.LogOutput) (level : main.LogLevel)
    (ReadFromFile ReadFromFile' : string → option config.FileConfig * option error) :
  main.fileExists os_Stat os_IsNotExist
    (if String.eqb (main.ConfigFile clf) "" then "/etc/teleport.yaml"
     else main.ConfigFile clf) = false →
  configure ReadFromFile clf output level
    = configure ReadFromFile' clf output level
  ∧ (main.ConfigFile clf ≠ "" →
     ∀ c0, service.MakeDefaultConfig ParseAddr os_Hostname = Some c0 →
       configure ReadFromFile clf output level
       = Returns ((None, Some (Traced (Errorf ("file not found: "
                                                +:+ main.ConfigFile clf)))),
                  {| main.cfg := c0; main.logOutput := output;
                     main.logLevel := level |})).
Proof.
  intros Habsent.
  assert (Hread : ∀ read,
    main.readConfigFile os_Stat os_IsNotExist read (main.ConfigFile clf)
    = if String.eqb (main.ConfigFile clf) "" then (None, None)
      else (None, trace.Errorf ("file not found: " +:+ main.ConfigFile clf))).
  { intros read. unfold main.readConfigFile.
    destruct (String.eqb (main.ConfigFile clf) ""); cbn [negb andb];
      unfold defaults.ConfigFilePath; by rewrite Habsent. }
  unfold main.configure. rewrite !Hread. split; [reflexivity |].
  intros Hnamed%String.eqb_neq c0 ->. by rewrite Hnamed.
Qed.

End NoConfigFile.

Section NoConfigFileExample.

Lemma configure_absent_config_file_witness :
  sampleConfigure sampleFlags
  = main.configure (tracelib := Samples.library)
      Samples.ParseDuration Samples.ParseAddr sampleHostPort sampleLabelSpec
      (λ _ _, ("", None)) assetsStat (λ _, true) (λ _, None)
      ("node-1", None) (λ s, s) (λ _, false) (λ _, false)
      (λ _, false) dotted (λ _, (None, Some (Errorf "not a YAML file")))
      (λ _, (main.ToStderr, main.DebugLevel)) cutHostPort glueHostPort
      (Ok "/usr/bin") assetsJoin sampleFlags main.DefaultOutput
      main.DefaultLevel.
Proof.
  unfold sampleConfigure. apply configure_absent_config_file. reflexivity.
Defined.

End NoConfigFileExample.

(** ** The host keys on disk *)

Section HostKeys.
Context {tracelib : trace.Library}.
Variable Join : string → string → string.
Variable Signer : Type.
Variable ParseAuthorizedKey : bytes → result ssh.PublicKey.
Variable ParsePrivateKey : bytes → result Signer.
Variable NewCertSigner : ssh.PublicKey → Signer → result Signer.
Variable DomainName : string.
Variable Error : error → string.
Variable typeName : ssh.PublicKey → string.
Variable string_ : bytes → string.

Local Abbreviation keysPath := (auth.keysPath Join).
Local Abbreviation HaveHostKeys := (auth.HaveHostKeys Join).
Local Abbreviation writeKeys := (auth.writeKeys Join).
Local Abbreviation ReadIdentity :=
  (auth.ReadIdentity Join Signer ParseAuthorizedKey ParsePrivateKey
     NewCertSigner Error typeName string_).
Local Abbreviation initKeys G H :=
  (auth.initKeys Join Signer ParseAuthorizedKey ParsePrivateKey NewCertSigner
     G H DomainName Error typeName string_).

Lemma pathExists_true path d :
  auth.pathExists path d = (true, None) ↔ auth.os_Stat path d = None.
Proof.
  unfold auth.pathExists. destruct (auth.os_Stat path d) as [e|]; [| done].
  by destruct (auth.os_IsNotExist e).
Qed.

Lemma HaveHostKeys_true dataDir id d :
  HaveHostKeys dataDir id d = (true, None)
  ↔ auth.os_Stat (keysPath dataDir id).1 d = None
    ∧ auth.os_Stat (keysPath dataDir id).2 d = None.
Proof.
  unfold auth.HaveHostKeys. rewrite <- !pathExists_true.
  destruct (keysPath dataDir id) as [kp cp]. cbn [fst snd].
  destruct (auth.pathExists kp d) as [[] [e|]]; cbn;
    try (split; [intros [= ?] | intros [[= ?] _]]; done);
    destruct (auth.pathExists cp d) as [[] [e|]]; cbn;
    try (split; [intros [= ?] | intros [_ [= ?]]]; done); done.
Qed.

(** What a successful [writeKeys] leaves on the disk. *)
Lemma writeKeys_files dataDir id key cert d d' :
  writeKeys dataDir id key cert d = (None, d') →
  d' = auth.with_Files
         (<[(keysPath dataDir id).2 := cert]>
            (<[(keysPath dataDir id).1 := key]> (auth.Files d))) d.
Proof.
  unfold auth.writeKeys, auth.ioutil_WriteFile.
  destruct (keysPath dataDir id) as [kp cp]. cbn [fst snd].
  destruct (auth.WriteErr d kp) as [[e [part|]]|]; try discriminate.
  cbn. destruct (auth.WriteErr d cp) as [[e [part|]]|]; try discriminate.
  by intros [= <-].
Qed.

(** What [ReadIdentity] has read when it returns an identity. *)
Lemma ReadIdentity_Some dataDir id d i :
  ReadIdentity dataDir id d = (Some i, None) →
  auth.utils_ReadPath (keysPath dataDir id).1 d = (auth.KeyBytes _ i, None)
  ∧ auth.utils_ReadPath (keysPath dataDir id).2 d = (auth.CertBytes _ i, None)
  ∧ ParseAuthorizedKey (auth.CertBytes _ i) = Ok (auth.PubKey _ i)
  ∧ auth.Cert _ i = auth.PubKey _ i
  ∧ (∃ blob signedBy, auth.PubKey _ i = ssh.Certificate blob signedBy)
  ∧ ∃ signer, ParsePrivateKey (auth.KeyBytes _ i) = Ok signer
              ∧ NewCertSigner (auth.PubKey _ i) signer = Ok (auth.KeySigner _ i).
Proof.
  unfold auth.ReadIdentity. destruct (keysPath dataDir id) as [kp cp].
  cbn [fst snd].
  destruct (auth.utils_ReadPath kp d) as [keyBytes [e|]].
  { cbn [trace.Wrap]. discriminate. }
  destruct (auth.utils_ReadPath cp d) as [certBytes [e|]].
  { cbn [trace.Wrap]. discriminate. }
  destruct (ParseAuthorizedKey certBytes) as [[blob|blob signedBy]|e] eqn:Hcert;
    try discriminate.
  destruct (ParsePrivateKey keyBytes) as [signer|e] eqn:Hkey; [| discriminate].
  destruct (NewCertSigner _ signer) as [certSigner|e] eqn:Hsigner;
    [| discriminate].
  intros [= <-]. cbn. repeat split; eauto.
Qed.

Lemma utils_ReadPath_file path d data :
  auth.utils_ReadPath path d = (data, None) → auth.Files d !! path = Some data.
Proof.
  unfold auth.utils_ReadPath. destruct (auth.ReadErr d path); [discriminate |].
  destruct (auth.Files d !! path); [| discriminate]. by intros [= ->].
Qed.

(** The files after a successful [writeKeys]. *)
Lemma writeKeys_lookup dataDir id key cert d d' :
  let kp := (keysPath dataDir id).1 in
  let cp := (keysPath dataDir id).2 in
  kp ≠ cp →
  writeKeys dataDir id key cert d = (None, d') →
  auth.Files d' !! kp = Some key
  ∧ auth.Files d' !! cp = Some cert
  ∧ (∀ path, path ≠ kp → path ≠ cp →
       auth.Files d' !! path = auth.Files d !! path)
  ∧ auth.StatErr d' = auth.StatErr d
  ∧ auth.ReadErr d' = auth.ReadErr d.
Proof.
  intros kp cp Hne ->%writeKeys_files. fold kp cp.
  cbn [auth.Files auth.with_Files auth.StatErr auth.ReadErr].
  split; [| split; [| split]]; [| | | done].
  - rewrite lookup_insert_ne by done. apply lookup_insert_eq.
  - apply lookup_insert_eq.
  - intros path Hk Hc. by rewrite !lookup_insert_ne.
Qed.

(** X27: round trip.  When the key path and the certificate path of
    [keysPath] differ and [writeKeys] returns nil, the disk holds the key
    and the certificate at the two paths and is otherwise unchanged;
    [HaveHostKeys] then answers true if [os.Stat] works on the two paths,
    and [ReadIdentity], if the two files can be read, returns the identity
    with exactly these key and certificate bytes whenever the certificate
    parses as an SSH certificate and the key as a private key that makes a
    certificate signer. *)
Theorem writeKeys_round_trip (dataDir : string) (id : auth.IdentityID)
    (key cert : bytes) (d d' : auth.Disk) :
  let kp := (keysPath dataDir id).1 in
  let cp := (keysPath dataDir id).2 in
  kp ≠ cp →
  writeKeys dataDir id key cert d = (None, d') →
  auth.Files d' !! kp = Some key
  ∧ auth.Files d' !! cp = Some cert
  ∧ (∀ path, path ≠ kp → path ≠ cp →
       auth.Files d' !! path = auth.Files d !! path)
  ∧ (auth.StatErr d kp = None → auth.StatErr d cp = None →
       HaveHostKeys dataDir id d' = (true, None))
  ∧ (auth.ReadErr d kp = None → auth.ReadErr d cp = None →
     ∀ blob signedBy signer certSigner,
       ParseAuthorizedKey cert = Ok (ssh.Certificate blob signedBy) →
       ParsePrivateKey key = Ok signer →
       NewCertSigner (ssh.Certificate blob signedBy) signer = Ok certSigner →
       ReadIdentity dataDir id d'
       = (Some {| auth.KeyBytes := key; auth.CertBytes := cert;
                  auth.KeySigner := certSigner;
                  auth.PubKey := ssh.Certificate blob signedBy;
                  auth.Cert := ssh.Certificate blob signedBy |}, None)).
Proof.
  intros kp cp Hne Hwrite.
  destruct (writeKeys_lookup dataDir id key cert d d' Hne Hwrite)
    as (Hkey & Hcert & Hframe & Hstat & Hread).
  fold kp cp in Hkey, Hcert, Hframe.
  split; [exact Hkey |]. split; [exact Hcert |]. split; [exact Hframe |].
  pose proof (surjective_pairing (keysPath dataDir id)) as Hpaths.
  fold kp cp in Hpaths. split.
  - intros Hsk Hsc. apply HaveHostKeys_true. fold kp cp.
    unfold auth.os_Stat. by rewrite Hstat, Hsk, Hsc, Hkey, Hcert.
  - intros Hrk Hrc blob signedBy signer certSigner Hparse Hpriv Hsigner.
    unfold auth.ReadIdentity, auth.utils_ReadPath. rewrite Hpaths, Hread.
    by rewrite Hrk, Hrc, Hkey, Hcert, Hparse, Hpriv, Hsigner.
Qed.

(** X28: when [HaveHostKeys] answers true, so that both files of the host
    are there, [initKeys] generates nothing and writes nothing, whatever
    the key generator and the certificate authority would return: the disk
    is as before and the result is what [ReadIdentity] reads from it, an
    error of it wrapped. *)
Theorem initKeys_keeps_existing
    (GenerateKeyPair : string → result (bytes * bytes))
    (GenerateHostCert : bytes → string → string → string → Z → result bytes)
    (dataDir : string) (id : auth.IdentityID) (d : auth.Disk) :
  HaveHostKeys dataDir id d = (true, None) →
  initKeys GenerateKeyPair GenerateHostCert dataDir id d
  = (match ReadIdentity dataDir id d with
     | (_, Some e) => (None, Some (Traced e))
     | (i, None) => (i, None)
     end, d).
Proof.
  intros [Hkey Hcert]%HaveHostKeys_true. unfold auth.initKeys.
  destruct (keysPath dataDir id) as [kp cp] eqn:Hpaths. cbn [fst snd] in *.
  apply pathExists_true in Hkey, Hcert. rewrite Hkey, Hcert.
  cbn [negb orb]. by destruct (ReadIdentity dataDir id d) as [i [e|]].
Qed.

(** X29: the identity [initKeys] returns is the one on the disk.  When the
    two paths of [keysPath] differ and [initKeys] returns an identity and
    no error, the key file and the certificate file hold the key bytes and
    the certificate bytes of that identity, the certificate parses to an
    SSH certificate, and no other file has changed.  If both files were
    there the disk is as before; if one of them was missing, both are
    written anew, the one that was there included, with the generated
    private key and the host certificate issued for its public key, the
    host UUID, the domain name and the role. *)
Theorem initKeys_identity_on_disk
    (GenerateKeyPair : string → result (bytes * bytes))
    (GenerateHostCert : bytes → string → string → string → Z → result bytes)
    (dataDir : string) (id : auth.IdentityID) (d d' : auth.Disk)
    (i : auth.Identity Signer) :
  let kp := (keysPath dataDir id).1 in
  let cp := (keysPath dataDir id).2 in
  kp ≠ cp →
  initKeys GenerateKeyPair GenerateHostCert dataDir id d = ((Some i, None), d') →
  auth.Files d' !! kp = Some (auth.KeyBytes _ i)
  ∧ auth.Files d' !! cp = Some (auth.CertBytes _ i)
  ∧ (∀ path, path ≠ kp → path ≠ cp →
       auth.Files d' !! path = auth.Files d !! path)
  ∧ ParseAuthorizedKey (auth.CertBytes _ i) = Ok (auth.PubKey _ i)
  ∧ (∃ blob signedBy, auth.PubKey _ i = ssh.Certificate blob signedBy)
  ∧ (HaveHostKeys dataDir id d = (true, None) → d' = d)
  ∧ (HaveHostKeys dataDir id d ≠ (true, None) →
       ∃ publicKey,
         GenerateKeyPair "" = Ok (auth.KeyBytes _ i, publicKey)
         ∧ GenerateHostCert publicKey (auth.HostUUID id) DomainName
             (auth.Role id) 0%Z = Ok (auth.CertBytes _ i)).
Proof.
  intros kp cp Hne. rewrite HaveHostKeys_true. fold kp cp.
  rewrite <- !pathExists_true. unfold auth.initKeys.
  pose proof (surjective_pairing (keysPath dataDir id)) as Hpaths.
  fold kp cp in Hpaths. rewrite Hpaths.
  destruct (auth.pathExists kp d) as [keyExists [e|]].
  { cbn [trace.Wrap]. discriminate. }
  destruct (auth.pathExists cp d) as [certExists [e|]].
  { cbn [trace.Wrap]. discriminate. }
  change (auth.ReadIdentity Join Signer ParseAuthorizedKey ParsePrivateKey
            NewCertSigner Error typeName string_ dataDir id)
    with (ReadIdentity dataDir id).
  destruct (negb keyExists || negb certExists) eqn:Hmissing.
  - unfold auth.generateKeys.
    destruct (GenerateKeyPair "") as [[privateKey publicKey]|e];
      [| cbn [trace.Wrap]; discriminate].
    destruct (GenerateHostCert _ _ _ _ _) as [cert|e] eqn:Hissued;
      [| cbn [trace.Wrap]; discriminate].
    destruct (writeKeys dataDir id privateKey cert d) as [[e|] d1] eqn:Hwrite;
      [cbn [trace.Wrap]; discriminate |].
    destruct (ReadIdentity dataDir id d1) as [i1 [e|]] eqn:Hread;
      [cbn [trace.Wrap]; discriminate |].
    intros [= -> ->].
    destruct (writeKeys_lookup dataDir id privateKey cert d d' Hne Hwrite)
      as (Hkey & Hcert & Hframe & _).
    apply ReadIdentity_Some in Hread
      as (Hk%utils_ReadPath_file & Hc%utils_ReadPath_file & Hparse & _ & Hcertificate & _).
    fold kp cp in Hkey, Hcert, Hframe, Hk, Hc.
    rewrite Hkey in Hk. rewrite Hcert in Hc.
    injection Hk as Hk. injection Hc as Hc. rewrite <- Hk, <- Hc.
    repeat split; try done.
    + by rewrite Hc.
    + intros [[= ->] [= ->]]. discriminate.
    + intros _. by exists publicKey.
  - destruct (ReadIdentity dataDir id d) as [i1 [e|]] eqn:Hread;
      [cbn [trace.Wrap]; discriminate |].
    intros [= -> ->].
    apply ReadIdentity_Some in Hread
      as (Hk%utils_ReadPath_file & Hc%utils_ReadPath_file & Hparse & _ & Hcertificate & _).
    apply orb_false_elim in Hmissing as [->%negb_false_iff ->%negb_false_iff].
    repeat split; try done. by intros [].
Qed.

End HostKeys.

Section HostKeysExamples.
#[local] Existing Instance Samples.library.

Lemma writeKeys_round_trip_witness :
  auth.HaveHostKeys assetsJoin "/var/lib/teleport" hostID initialisedDisk
  = (true, None).
Proof.
  destruct (writeKeys_round_trip assetsJoin bytes Samples.ParseAuthorizedKey
              Ok (λ _ signer, Ok signer) (λ _, "error") (λ _, "ssh.PublicKey")
              (λ _, "") "/var/lib/teleport" hostID
              [Byte.x01; Byte.x0a] [Byte.x00; Byte.x02; Byte.x0b]
              emptyDisk initialisedDisk)
    as (_ & _ & _ & Hhave & _).
  - vm_compute. discriminate.
  - vm_compute. reflexivity.
  - by apply Hhave.
Defined.

Lemma initKeys_keeps_existing_witness :
  sampleInitKeys initialisedDisk = ((Some sampleIdentity, None), initialisedDisk).
Proof.
  unfold sampleInitKeys.
  rewrite (initKeys_keeps_existing assetsJoin bytes Samples.ParseAuthorizedKey
             Ok (λ _ signer, Ok signer) "example.com" (λ _, "error")
             (λ _, "ssh.PublicKey") (λ _, "") sampleKeyPair sampleHostCert
             "/var/lib/teleport" hostID initialisedDisk).
  - vm_compute. reflexivity.
  - vm_compute. reflexivity.
Defined.

Lemma initKeys_identity_on_disk_witness :
  auth.Files initialisedDisk !! "/var/lib/teleport/host.a1b2.Admin.key"
  = Some [Byte.x01; Byte.x0a].
Proof.
  destruct (initKeys_identity_on_disk assetsJoin bytes Samples.ParseAuthorizedKey
              Ok (λ _ signer, Ok signer) "example.com" (λ _, "error")
              (λ _, "ssh.PublicKey") (λ _, "") sampleKeyPair sampleHostCert
              "/var/lib/teleport" hostID emptyDisk initialisedDisk
              sampleIdentity)
    as (Hkey & _).
  - vm_compute. discriminate.
  - vm_compute. reflexivity.
  - exact Hkey.
Defined.

End HostKeysExamples.
